(** * Etymo (SpanishPro-Etymo): the analysis flow of [src/EtymoApp.jsx]

    A shallow embedding of the non-presentational logic of the component
    [SpanishEtymologyAnalyzer]: the input guard, the completion request, the
    clean-up and parsing of the completion text, the [safeAnalysis] defaults,
    the recent-searches update, the voice selection of [loadVoices], the
    two [.map] calls of the render, and the handlers around the flow:
    [toggleSection], [copyAnalysis], [speakWord], [ConfidenceIndicator],
    the voice picker and the recent-search buttons, with the sessions
    they make up.

    JavaScript strings are sequences of UTF-16 code units; values are the
    values [JSON.parse] can produce; a thrown exception is the [Throw] case
    of [result]. *)

From Stdlib Require Import String Ascii.
From Stdlib Require Import List NArith ZArith Bool Lia.
Import ListNotations.

Set Implicit Arguments.
Set Warnings "-register-all".

(* ================================================================== *)
(** ** Strings *)

(** A UTF-16 code unit. *)
Definition char := N.

(** A JavaScript string. *)
Definition jsstring := list char.

(** An ASCII literal of the source, as code units. *)
Definition lit (s : string) : jsstring :=
  map N_of_ascii (list_ascii_of_string s).

(** The quotation mark (U+0022) and the grave accent (U+0060). *)
Definition dquote : char := 34%N.
Definition backtick : char := 96%N.

(** [a === b] on strings. *)
Fixpoint streq (a b : jsstring) : bool :=
  match a, b with
  | [], [] => true
  | x :: a', y :: b' => (x =? y)%N && streq a' b'
  | _, _ => false
  end.

(** ECMAScript's WhiteSpace and LineTerminator code points: what
    [String.prototype.trim] strips and what [\s] matches. *)
Definition isWhiteSpace (c : char) : bool :=
  ((c =? 9) || (c =? 10) || (c =? 11) || (c =? 12) || (c =? 13) || (c =? 32)
   || (c =? 160) || (c =? 0x1680)
   || ((0x2000 <=? c) && (c <=? 0x200A))
   || (c =? 0x2028) || (c =? 0x2029) || (c =? 0x202F) || (c =? 0x205F)
   || (c =? 0x3000) || (c =? 0xFEFF))%N.

Fixpoint trimStart (s : jsstring) : jsstring :=
  match s with
  | c :: r => if isWhiteSpace c then trimStart r else s
  | [] => []
  end.

Definition trimEnd (s : jsstring) : jsstring := rev (trimStart (rev s)).

(** [s.trim()] *)
Definition trim (s : jsstring) : jsstring := trimEnd (trimStart s).

(** [!s] for a string [s]: the empty string is the only falsy one. *)
Definition isEmpty (s : jsstring) : bool :=
  match s with [] => true | _ :: _ => false end.

(** [s.startsWith(p)] *)
Fixpoint startsWith (s p : jsstring) {struct p} : bool :=
  match p, s with
  | [], _ => true
  | a :: p', b :: s' => (a =? b)%N && startsWith s' p'
  | _ :: _, [] => false
  end.

(** [s.includes(p)] *)
Fixpoint includes (s p : jsstring) : bool :=
  startsWith s p || match s with [] => false | _ :: r => includes r p end.

(** What is left of [s] after the prefix [p], when [s] starts with [p]. *)
Fixpoint stripPrefix (p s : jsstring) : option jsstring :=
  match p, s with
  | [], _ => Some s
  | a :: p', b :: s' => if (a =? b)%N then stripPrefix p' s' else None
  | _ :: _, [] => None
  end.

(** Decimal digits of a number, as [`${n}`] prints a non-negative integer. *)
Fixpoint uintChars (d : Decimal.uint) : jsstring :=
  match d with
  | Decimal.Nil => []
  | Decimal.D0 d' => 48%N :: uintChars d'
  | Decimal.D1 d' => 49%N :: uintChars d'
  | Decimal.D2 d' => 50%N :: uintChars d'
  | Decimal.D3 d' => 51%N :: uintChars d'
  | Decimal.D4 d' => 52%N :: uintChars d'
  | Decimal.D5 d' => 53%N :: uintChars d'
  | Decimal.D6 d' => 54%N :: uintChars d'
  | Decimal.D7 d' => 55%N :: uintChars d'
  | Decimal.D8 d' => 56%N :: uintChars d'
  | Decimal.D9 d' => 57%N :: uintChars d'
  end.

Definition decimal (n : N) : jsstring := uintChars (N.to_uint n).

(* ================================================================== *)
(** ** Values *)

(** The values [JSON.parse] produces. A number is kept as the decimal
    [m * 10^e] its literal denotes; the program tests a number for
    truthiness and leaves printing it to the host. An object is its own
    properties in the order the engine lists them, each key once. *)
Inductive value : Type :=
| VNull
| VBool (b : bool)
| VNumber (m e : Z)
| VString (s : jsstring)
| VArray (items : list value)
| VObject (props : list (jsstring * value)).

(** The IEEE double nearest to [m * 10^e] is zero: [m] is zero, or the
    magnitude is at most [2^-1075], half the least subnormal. *)
Definition roundsToZero (m e : Z) : bool :=
  ((m =? 0) || ((e <? 0) && (Z.abs m * 2 ^ 1075 <=? 10 ^ (- e))))%Z.

(** ToBoolean. *)
Definition truthy (v : value) : bool :=
  match v with
  | VNull => false
  | VBool b => b
  | VNumber m e => negb (roundsToZero m e)
  | VString s => negb (isEmpty s)
  | VArray _ => true
  | VObject _ => true
  end.

(** [a || b], where [None] is [undefined]. *)
Definition orElse (a : option value) (b : value) : value :=
  match a with
  | Some v => if truthy v then v else b
  | None => b
  end.

(** Own-property lookup. *)
Fixpoint lookup (k : jsstring) (props : list (jsstring * value)) : option value :=
  match props with
  | [] => None
  | (k', v) :: rest => if streq k k' then Some v else lookup k rest
  end.

(** Defining the own property [k]: an existing key keeps its place. *)
Fixpoint setProp (k : jsstring) (v : value) (props : list (jsstring * value))
  : list (jsstring * value) :=
  match props with
  | [] => [(k, v)]
  | (k', v') :: rest =>
      if streq k k' then (k, v) :: rest else (k', v') :: setProp k v rest
  end.

(** The own enumerable properties an object spread [{...v}] copies: those
    of an object, the indices of an array, the code units of a string,
    nothing for the other primitives. *)
Fixpoint indexed (i : N) (l : list value) : list (jsstring * value) :=
  match l with
  | [] => []
  | v :: r => (decimal i, v) :: indexed (N.succ i) r
  end.

Definition spread (v : value) : list (jsstring * value) :=
  match v with
  | VObject props => props
  | VArray items => indexed 0 items
  | VString s => indexed 0 (map (fun c => VString [c]) s)
  | _ => []
  end.

(* ================================================================== *)
(** ** [JSON.parse]

    The host's parser, after ECMA-404: a value between optional white
    space (tab, line feed, carriage return, space). [parseValue] reads one
    value at the head of the text and returns it with the text left. *)

Definition ch (a : ascii) : char := N_of_ascii a.

Definition isJSONSpace (c : char) : bool :=
  ((c =? 9) || (c =? 10) || (c =? 13) || (c =? 32))%N.

Fixpoint skipWS (s : jsstring) : jsstring :=
  match s with
  | c :: r => if isJSONSpace c then skipWS r else s
  | [] => []
  end.

Definition isDigit (c : char) : bool := ((48 <=? c) && (c <=? 57))%N.

Definition hexValue (c : char) : option N :=
  if isDigit c then Some (c - 48)%N
  else if ((97 <=? c) && (c <=? 102))%N then Some (c - 87)%N
  else if ((65 <=? c) && (c <=? 70))%N then Some (c - 55)%N
  else None.

(** The character a two-character escape stands for. *)
Definition unescape (c : char) : option char :=
  if (c =? dquote)%N then Some dquote
  else if (c =? ch "\")%N then Some (ch "\")
  else if (c =? ch "/")%N then Some (ch "/")
  else if (c =? ch "b")%N then Some 8%N
  else if (c =? ch "f")%N then Some 12%N
  else if (c =? ch "n")%N then Some 10%N
  else if (c =? ch "r")%N then Some 13%N
  else if (c =? ch "t")%N then Some 9%N
  else None.

(** The characters of a string literal after its opening quote, up to and
    including the closing quote. *)
Fixpoint parseChars (s : jsstring) (acc : jsstring) : option (jsstring * jsstring) :=
  match s with
  | [] => None
  | c :: r =>
      if (c =? dquote)%N then Some (rev acc, r)
      else if (c =? ch "\")%N then
        match r with
        | [] => None
        | e :: r' =>
            if (e =? ch "u")%N then
              match r' with
              | h1 :: h2 :: h3 :: h4 :: r'' =>
                  match hexValue h1, hexValue h2, hexValue h3, hexValue h4 with
                  | Some a, Some b, Some c', Some d =>
                      parseChars r'' ((4096 * a + 256 * b + 16 * c' + d)%N :: acc)
                  | _, _, _, _ => None
                  end
              | _ => None
              end
            else
              match unescape e with
              | Some c' => parseChars r' (c' :: acc)
              | None => None
              end
        end
      else if (c <? 32)%N then None
      else parseChars r (c :: acc)
  end.

(** The longest prefix of digits, and the text after it. *)
Fixpoint spanDigits (s : jsstring) : jsstring * jsstring :=
  match s with
  | c :: r =>
      if isDigit c then let (ds, rest) := spanDigits r in (c :: ds, rest)
      else ([], s)
  | [] => ([], [])
  end.

Definition digitsValue (ds : jsstring) : Z :=
  fold_left (fun a c => (10 * a + (Z.of_N c - 48))%Z) ds 0%Z.

(** A number literal: an optional minus sign; a zero, or a non-zero digit
    and more digits; optionally a point and one or more digits; optionally
    an [e] or [E], a sign and one or more digits. It is read as the decimal
    [m * 10^e]. *)
Definition parseFraction (s : jsstring) : option (jsstring * jsstring) :=
  match s with
  | c :: r =>
      if (c =? ch ".")%N then
        let (fp, rest) := spanDigits r in
        if isEmpty fp then None else Some (fp, rest)
      else Some ([], s)
  | [] => Some ([], s)
  end.

Definition parseExponent (s : jsstring) : option (Z * jsstring) :=
  match s with
  | c :: r =>
      if ((c =? ch "e") || (c =? ch "E"))%N then
        let (neg, r1) :=
          match r with
          | sg :: r' =>
              if (sg =? ch "-")%N then (true, r')
              else if (sg =? ch "+")%N then (false, r')
              else (false, r)
          | [] => (false, r)
          end in
        let (ep, rest) := spanDigits r1 in
        if isEmpty ep then None
        else Some (if neg then (- digitsValue ep)%Z else digitsValue ep, rest)
      else Some (0%Z, s)
  | [] => Some (0%Z, s)
  end.

Definition parseNumber (s : jsstring) : option (Z * Z * jsstring) :=
  let (neg, s1) :=
    match s with
    | c :: r => if (c =? ch "-")%N then (true, r) else (false, s)
    | [] => (false, s)
    end in
  match s1 with
  | c :: r =>
      if isDigit c then
        let (ip, s2) := if (c =? 48)%N then ([c], r) else spanDigits s1 in
        match parseFraction s2 with
        | Some (fp, s3) =>
            match parseExponent s3 with
            | Some (ex, s4) =>
                let m := digitsValue (ip ++ fp) in
                Some (if neg then (- m)%Z else m,
                      (ex - Z.of_nat (length fp))%Z, s4)
            | None => None
            end
        | None => None
        end
      else None
  | [] => None
  end.

Definition parseLiteral (word : jsstring) (v : value) (s : jsstring)
  : option (value * jsstring) :=
  match stripPrefix word s with
  | Some r => Some (v, r)
  | None => None
  end.

(** The array index a property name is, if it is one: the canonical
    decimal of a number below [2^32 - 1]. *)
Definition arrayIndex (k : jsstring) : option N :=
  match k with
  | [] => None
  | c :: r =>
      if forallb isDigit k && (isEmpty r || negb (c =? 48)%N)
         && Nat.leb (length k) 10
      then
        let n := Z.to_N (digitsValue k) in
        if (n <? 4294967295)%N then Some n else None
      else None
  end.

(** Where a new property with the array index [n] goes: before the first
    property that is no array index, or is a greater one. *)
Fixpoint insertIndex (n : N) (k : jsstring) (v : value)
  (props : list (jsstring * value)) : list (jsstring * value) :=
  match props with
  | [] => [(k, v)]
  | (k', v') :: rest =>
      match arrayIndex k' with
      | Some n' =>
          if (n' <? n)%N then (k', v') :: insertIndex n k v rest
          else (k, v) :: props
      | None => (k, v) :: props
      end
  end.

(** Defining the own property [k] of the object a JSON text denotes. The
    properties are kept in the order the engine lists them: the array
    indices first, ascending, then the other names in the order of their
    creation; a name that is there already keeps its place. *)
Definition defineOwn (k : jsstring) (v : value) (props : list (jsstring * value))
  : list (jsstring * value) :=
  match lookup k props, arrayIndex k with
  | None, Some n => insertIndex n k v props
  | _, _ => setProp k v props
  end.

Fixpoint parseValue (fuel : nat) (s : jsstring) {struct fuel}
  : option (value * jsstring) :=
  match fuel with
  | O => None
  | S f =>
      match s with
      | [] => None
      | c :: r =>
          if (c =? ch "{")%N then
            match skipWS r with
            | c' :: r' =>
                if (c' =? ch "}")%N then Some (VObject [], r')
                else parseMembers f (skipWS r) []
            | [] => None
            end
          else if (c =? ch "[")%N then
            match skipWS r with
            | c' :: r' =>
                if (c' =? ch "]")%N then Some (VArray [], r')
                else parseElements f (skipWS r) []
            | [] => None
            end
          else if (c =? dquote)%N then
            match parseChars r [] with
            | Some (str, r') => Some (VString str, r')
            | None => None
            end
          else if (c =? ch "t")%N then parseLiteral (lit "true") (VBool true) s
          else if (c =? ch "f")%N then parseLiteral (lit "false") (VBool false) s
          else if (c =? ch "n")%N then parseLiteral (lit "null") VNull s
          else
            match parseNumber s with
            | Some (m, e, r') => Some (VNumber m e, r')
            | None => None
            end
      end
  end
with parseElements (fuel : nat) (s : jsstring) (acc : list value) {struct fuel}
  : option (value * jsstring) :=
  match fuel with
  | O => None
  | S f =>
      match parseValue f s with
      | Some (v, r) =>
          match skipWS r with
          | c :: r' =>
              if (c =? ch ",")%N then parseElements f (skipWS r') (v :: acc)
              else if (c =? ch "]")%N then Some (VArray (rev (v :: acc)), r')
              else None
          | [] => None
          end
      | None => None
      end
  end
with parseMembers (fuel : nat) (s : jsstring) (acc : list (jsstring * value))
  {struct fuel} : option (value * jsstring) :=
  match fuel with
  | O => None
  | S f =>
      match s with
      | c :: r =>
          if (c =? dquote)%N then
            match parseChars r [] with
            | Some (k, r1) =>
                match skipWS r1 with
                | c1 :: r2 =>
                    if (c1 =? ch ":")%N then
                      match parseValue f (skipWS r2) with
                      | Some (v, r3) =>
                          match skipWS r3 with
                          | c3 :: r4 =>
                              if (c3 =? ch ",")%N then
                                parseMembers f (skipWS r4) (defineOwn k v acc)
                              else if (c3 =? ch "}")%N then
                                Some (VObject (defineOwn k v acc), r4)
                              else None
                          | [] => None
                          end
                      | None => None
                      end
                    else None
                | [] => None
                end
            | None => None
            end
          else None
      | [] => None
      end
  end.

(** The value of a JSON text, or [None] where [JSON.parse] throws a
    SyntaxError. Every value read takes at least one code unit and every
    nesting level two steps, so the fuel is never what stops the parser
    ([parseJSON_fuel_enough] below). *)
Definition parseJSON (s : jsstring) : option value :=
  match parseValue (2 * length s + 2) (skipWS s) with
  | Some (v, r) => if isEmpty (skipWS r) then Some v else None
  | None => None
  end.

(* ================================================================== *)
(** ** The clean-up of the completion text (line 113)

    [aiResponse.replace(/```json\s*|\s*```/g, '').trim()] *)

Definition fence : jsstring := [backtick; backtick; backtick].

(** How many white-space code units [s] starts with. *)
Fixpoint spaces (s : jsstring) : nat :=
  match s with
  | c :: r => if isWhiteSpace c then S (spaces r) else O
  | [] => O
  end.

(** The length of the match of the first alternative, [```json\s*], at
    the head of [s]. *)
Definition matchTagged (s : jsstring) : option nat :=
  match stripPrefix (fence ++ lit "json") s with
  | Some r => Some (7 + spaces r)
  | None => None
  end.

(** The length of the match of the second alternative, [\s*```], at the
    head of [s]: the star takes white space greedily and gives it back
    one code unit at a time until the fence follows. *)
Fixpoint matchClosing (s : jsstring) : option nat :=
  match s with
  | c :: r =>
      if isWhiteSpace c then
        match matchClosing r with
        | Some n => Some (S n)
        | None => if startsWith s fence then Some 3 else None
        end
      else if startsWith s fence then Some 3 else None
  | [] => None
  end.

(** The alternation tries its alternatives in order. *)
Definition matchAt (s : jsstring) : option nat :=
  match matchTagged s with
  | Some n => Some n
  | None => matchClosing s
  end.

(** The global replacement by the empty string: scan from the left; at a
    match, drop it and go on after it; otherwise keep the code unit.
    [skip] counts the code units of the current match still to drop. No
    match is empty, as both alternatives contain the fence. *)
Fixpoint stripFences (skip : nat) (s : jsstring) : jsstring :=
  match s with
  | [] => []
  | c :: r =>
      match skip with
      | S k => stripFences k r
      | O =>
          match matchAt s with
          | Some (S k) => stripFences k r
          | _ => c :: stripFences 0 r
          end
      end
  end.

Definition cleanedResponse (aiResponse : jsstring) : jsstring :=
  trim (stripFences 0 aiResponse).

(* ================================================================== *)
(** ** Exceptions *)

(** A thrown object, as the [catch] block reads it: [err.name] and
    [err.message]. *)
Record jsError : Type := { errName : jsstring; errMessage : jsstring }.

(** The outcome of evaluating an expression that may throw. *)
Inductive result (A : Type) : Type :=
| Normal (a : A)
| Throw (e : jsError).

Arguments Normal {A} a.
Arguments Throw {A} e.

Definition bind {A B : Type} (r : result A) (k : A -> result B) : result B :=
  match r with
  | Normal a => k a
  | Throw e => Throw e
  end.

Notation "x <- r ;; k" := (bind r (fun x => k))
  (at level 61, r at next level, right associativity).

(** The exceptions the host raises inside the flow. *)
Inductive fault : Type :=
| NotJSON (text : jsstring)      (* [JSON.parse] of a text that is no JSON *)
| NoBase (key : jsstring)        (* reading [key] of [null] or [undefined] *)
| NotAFunction (key : jsstring). (* calling [x.key] where it is no function *)

Definition faultName (f : fault) : jsstring :=
  match f with
  | NotJSON _ => lit "SyntaxError"
  | NoBase _ => lit "TypeError"
  | NotAFunction _ => lit "TypeError"
  end.

(* ================================================================== *)
(** ** The component's state *)

(** [SpeechSynthesisVoice], as far as the component reads it. *)
Record voice : Type := {
  voiceName : jsstring;
  voiceLang : jsstring;
  localService : bool }.

(** The [useState] cells the modelled functions read or write. *)
Record state : Type := {
  word : jsstring;
  analysis : option value;
  loading : bool;
  error : jsstring;
  recentSearches : list jsstring;
  availableVoices : list voice;
  selectedVoice : option voice }.

Definition setAnalysis (a : option value) (st : state) : state :=
  {| word := word st; analysis := a; loading := loading st; error := error st;
     recentSearches := recentSearches st;
     availableVoices := availableVoices st; selectedVoice := selectedVoice st |}.

Definition setLoading (b : bool) (st : state) : state :=
  {| word := word st; analysis := analysis st; loading := b; error := error st;
     recentSearches := recentSearches st;
     availableVoices := availableVoices st; selectedVoice := selectedVoice st |}.

Definition setError (e : jsstring) (st : state) : state :=
  {| word := word st; analysis := analysis st; loading := loading st; error := e;
     recentSearches := recentSearches st;
     availableVoices := availableVoices st; selectedVoice := selectedVoice st |}.

Definition setRecentSearches (l : list jsstring) (st : state) : state :=
  {| word := word st; analysis := analysis st; loading := loading st;
     error := error st; recentSearches := l;
     availableVoices := availableVoices st; selectedVoice := selectedVoice st |}.

Definition setAvailableVoices (l : list voice) (st : state) : state :=
  {| word := word st; analysis := analysis st; loading := loading st;
     error := error st; recentSearches := recentSearches st;
     availableVoices := l; selectedVoice := selectedVoice st |}.

Definition setSelectedVoice (v : option voice) (st : state) : state :=
  {| word := word st; analysis := analysis st; loading := loading st;
     error := error st; recentSearches := recentSearches st;
     availableVoices := availableVoices st; selectedVoice := v |}.

Definition setWord (w : jsstring) (st : state) : state :=
  {| word := w; analysis := analysis st; loading := loading st;
     error := error st; recentSearches := recentSearches st;
     availableVoices := availableVoices st; selectedVoice := selectedVoice st |}.

(** The three preset searches of line 9; the sixth code unit of the last
    is U+00F3. *)
Definition presetSearches : list jsstring :=
  [lit "biblioteca"; lit "ventana"; lit "coraz" ++ [243%N] ++ lit "n"].

(** The state at the first render (lines 5-19). *)
Definition initialState : state :=
  {| word := []; analysis := None; loading := false; error := [];
     recentSearches := presetSearches;
     availableVoices := []; selectedVoice := None |}.

(* ================================================================== *)
(** ** The recent searches (lines 129-130)

    [[word.trim(), ...recentSearches.filter(s => s !== word.trim())].slice(0, 5)] *)

Definition newSearches (w : jsstring) (recent : list jsstring) : list jsstring :=
  firstn 5 (w :: filter (fun s => negb (streq s w)) recent).

(* ================================================================== *)
(** ** The voice registry (lines 22-44) *)

Section VoiceRegistry.

(** [String.prototype.toLowerCase], the host's Unicode lower-casing. *)
Variable toLowerCase : jsstring -> jsstring.

Definition isSpanishVoice (v : voice) : bool :=
  startsWith (voiceLang v) (lit "es")
  || includes (toLowerCase (voiceName v)) (lit "spanish").

Definition isGoogleUSVoice (v : voice) : bool :=
  streq (voiceLang v) (lit "es-US")
  && includes (toLowerCase (voiceName v)) (lit "google").

Definition isUSVoice (v : voice) : bool := streq (voiceLang v) (lit "es-US").

Definition spanishVoices (voices : list voice) : list voice :=
  filter isSpanishVoice voices.

(** [find(..) || find(..) || spanishVoices[0]]: a voice is an object and
    so truthy; [undefined] is what [find] and an index out of range give. *)
Definition preferredVoice (spanish : list voice) : option voice :=
  match find isGoogleUSVoice spanish with
  | Some v => Some v
  | None =>
      match find isUSVoice spanish with
      | Some v => Some v
      | None => nth_error spanish 0
      end
  end.

(** [loadVoices], given what [speechSynthesis.getVoices()] returns. *)
Definition loadVoices (voices : list voice) (st : state) : state :=
  let spanish := spanishVoices voices in
  let st1 := setAvailableVoices spanish st in
  match preferredVoice spanish with
  | Some v => setSelectedVoice (Some v) st1
  | None => st1
  end.

End VoiceRegistry.

(** Lower-casing of the ASCII letters, the other code units kept: what
    [toLowerCase] does on ASCII text. *)
Definition asciiLower (s : jsstring) : jsstring :=
  map (fun c => if ((65 <=? c) && (c <=? 90))%N then (c + 32)%N else c) s.

(* ================================================================== *)
(** ** The analysis flow (lines 46-144) *)

(** The request of lines 88-103. Its prompt is the fixed template of lines
    57-86 around the interpolated [word.trim()]; only the interpolated
    word is kept here. The temperature is the decimal [7 * 10^-1]. *)
Record request : Type := {
  reqUrl : jsstring;
  reqMethod : jsstring;
  reqModel : jsstring;
  reqPromptWord : jsstring;
  reqTemperature : Z * Z;
  reqMaxTokens : N }.

Definition completionRequest (w : jsstring) : request :=
  {| reqUrl := lit "https://api.openai.com/v1/chat/completions";
     reqMethod := lit "POST";
     reqModel := lit "gpt-4o";
     reqPromptWord := w;
     reqTemperature := (7%Z, (-1)%Z);
     reqMaxTokens := 2000%N |}.

(** A response: its status line, and the text of its body or the
    exception reading it ends with. *)
Record response : Type := {
  status : N;
  statusText : jsstring;
  bodyText : result jsstring }.

(** [response.ok]: the status is in the range 200-299. *)
Definition ok (r : response) : bool :=
  ((200 <=? status r) && (status r <=? 299))%N.

(** What [await fetch(..)] comes to: the promise rejects (a network
    failure) or resolves to a response. *)
Inductive fetched : Type :=
| Rejected (e : jsError)
| Resolved (r : response).

(** The error line 106 throws. *)
Definition upstreamError (r : response) : jsError :=
  {| errName := lit "Error";
     errMessage :=
       lit "OpenAI API error: " ++ decimal (status r) ++ lit " " ++ statusText r |}.

(** The messages [setError] is called with (lines 48, 135, 137, 139). *)
Definition inputErrorMessage : jsstring := lit "Please enter a Spanish word".

Definition apiErrorMessage (message : jsstring) : jsstring :=
  lit "API Error: " ++ message ++ lit ". Please check your OpenAI API key.".

Definition parseErrorMessage : jsstring :=
  lit "Failed to parse analysis. Please try again.".

Definition unknownErrorMessage : jsstring :=
  lit "Failed to analyze the word. Please try again.".

(** The [catch] block (lines 132-140): the message it sets. *)
Definition report (err : jsError) : jsstring :=
  if includes (errMessage err) (lit "OpenAI API error") then
    apiErrorMessage (errMessage err)
  else if streq (errName err) (lit "SyntaxError") then parseErrorMessage
  else unknownErrorMessage.

Section Host.

(** The text of the message of a host exception, which is the engine's
    own. *)
Variable engineMessage : fault -> jsstring.

Definition raise {A : Type} (f : fault) : result A :=
  Throw {| errName := faultName f; errMessage := engineMessage f |}.

Definition JSON_parse (text : jsstring) : result value :=
  match parseJSON text with
  | Some v => Normal v
  | None => raise (NotJSON text)
  end.

(** [base.key] for a property name no built-in prototype defines; [None]
    is [undefined]. *)
Definition member (base : option value) (key : jsstring) : result (option value) :=
  match base with
  | None => raise (NoBase key)
  | Some VNull => raise (NoBase key)
  | Some (VObject props) => Normal (lookup key props)
  | Some _ => Normal None
  end.

(** [base[0]] *)
Definition index0 (base : option value) : result (option value) :=
  match base with
  | None => raise (NoBase (lit "0"))
  | Some VNull => raise (NoBase (lit "0"))
  | Some (VArray items) => Normal (nth_error items 0)
  | Some (VString s) =>
      Normal (match s with c :: _ => Some (VString [c]) | [] => None end)
  | Some (VObject props) => Normal (lookup (lit "0") props)
  | Some _ => Normal None
  end.

(** [safeAnalysis] (lines 117-124), for the trimmed search term [w]. *)
Definition safeAnalysis (parsedAnalysis : value) (w : jsstring) : result value :=
  let copied := spread parsedAnalysis in
  related <- member (Some parsedAnalysis) (lit "relatedEnglishWords") ;;
  sentences <- member (Some parsedAnalysis) (lit "sampleSentences") ;;
  confidence <- member (Some parsedAnalysis) (lit "confidence") ;;
  family <- member (Some parsedAnalysis) (lit "languageFamily") ;;
  pronunciation <- member (Some parsedAnalysis) (lit "pronunciation") ;;
  Normal (VObject
    (setProp (lit "pronunciation") (orElse pronunciation (VString w))
    (setProp (lit "languageFamily") (orElse family (VString (lit "Romance")))
    (setProp (lit "confidence") (orElse confidence (VString (lit "medium")))
    (setProp (lit "sampleSentences") (orElse sentences (VArray []))
    (setProp (lit "relatedEnglishWords") (orElse related (VArray []))
       copied)))))).

(** The response normalizer (lines 113-124): clean up the completion text,
    parse it, fill in the defaults. *)
Definition normalize (aiResponse w : jsstring) : result value :=
  parsedAnalysis <- JSON_parse (cleanedResponse aiResponse) ;;
  safeAnalysis parsedAnalysis w.

(** [aiResponse.replace(..).trim()] exists on a string only. *)
Definition completionText (content : option value) : result jsstring :=
  match content with
  | None => raise (NoBase (lit "replace"))
  | Some VNull => raise (NoBase (lit "replace"))
  | Some (VString s) => Normal s
  | Some _ => raise (NotAFunction (lit "replace"))
  end.

(** [await response.json()] *)
Definition json (r : response) : result value :=
  text <- bodyText r ;; JSON_parse text.

(** Lines 109-110, [data.choices[0].message.content], as the string
    line 113 needs it to be. *)
Definition completionOf (r : response) : result jsstring :=
  data <- json r ;;
  choices <- member (Some data) (lit "choices") ;;
  choice <- index0 choices ;;
  message <- member choice (lit "message") ;;
  content <- member message (lit "content") ;;
  completionText content.

(** The [try] block after the request is issued (lines 105-124): the
    record [setAnalysis] receives, or the exception thrown. *)
Definition analysisOf (w : jsstring) (net : fetched) : result value :=
  match net with
  | Rejected e => Throw e
  | Resolved r =>
      if negb (ok r) then Throw (upstreamError r)
      else aiResponse <- completionOf r ;; normalize aiResponse w
  end.

(** [analyzeWord]: the state once the flow has run to its end, and the
    requests it issued. *)
Definition analyzeWord (net : fetched) (st : state) : state * list request :=
  let w := trim (word st) in
  if isEmpty w then (setError inputErrorMessage st, [])
  else
    let st1 := setAnalysis None (setError [] (setLoading true st)) in
    let st2 :=
      match analysisOf w net with
      | Normal safe =>
          setRecentSearches (newSearches w (recentSearches st))
            (setAnalysis (Some safe) st1)
      | Throw err => setError (report err) st1
      end in
    (setLoading false st2, [completionRequest w]).

(* ------------------------------------------------------------------ *)
(** *** The render boundary (lines 402 and 454) *)

(** [(field || []).map(..)]: the elements the callback is run on. *)
Definition mapOver (field : option value) : result (list value) :=
  match orElse field (VArray []) with
  | VArray items => Normal items
  | _ => raise (NotAFunction (lit "map"))
  end.

(** The related words the render maps over. *)
Definition renderRelated (a : value) : result (list value) :=
  field <- member (Some a) (lit "relatedEnglishWords") ;; mapOver field.

(** The callback of line 454: the values of the two children of a row,
    [sentence.spanish || 'N/A'] and [sentence.english || 'N/A']. What
    React shows for them is [childText] below. *)
Definition renderSentence (sentence : value) : result (value * value) :=
  spanish <- member (Some sentence) (lit "spanish") ;;
  english <- member (Some sentence) (lit "english") ;;
  Normal (orElse spanish (VString (lit "N/A")),
          orElse english (VString (lit "N/A"))).

Fixpoint mapResult {A B : Type} (f : A -> result B) (l : list A) : result (list B) :=
  match l with
  | [] => Normal []
  | a :: r => b <- f a ;; bs <- mapResult f r ;; Normal (b :: bs)
  end.

(** The rows the render makes of the sentences, each the values of its
    two children. *)
Definition renderSentences (a : value) : result (list (value * value)) :=
  field <- member (Some a) (lit "sampleSentences") ;;
  items <- mapOver field ;;
  mapResult renderSentence items.

End Host.

(** The levels [ConfidenceIndicator] has a colour for (lines 191-195). *)
Definition isConfidenceLevel (s : jsstring) : bool :=
  streq s (lit "high") || streq s (lit "medium") || streq s (lit "low").

(** The own property [k] of a parsed payload, [None] when it has none. *)
Definition ownField (payload : value) (k : jsstring) : option value :=
  match payload with
  | VObject props => lookup k props
  | _ => None
  end.

(** The five properties [safeAnalysis] sets. *)
Definition defaultedFields : list jsstring :=
  [lit "relatedEnglishWords"; lit "sampleSentences"; lit "confidence";
   lit "languageFamily"; lit "pronunciation"].

(** An engine whose messages only name the kind of fault. *)
Definition plainMessage (f : fault) : jsstring :=
  match f with
  | NotJSON _ => lit "Unexpected token in JSON"
  | NoBase key => lit "Cannot read properties of undefined (reading '" ++ key ++ lit "')"
  | NotAFunction key => key ++ lit " is not a function"
  end.

(** An engine that words its SyntaxError as V8 does when the first code
    unit of the text is the one it cannot read: it names that code unit
    and quotes the text, whole when it has fewer than 21 code units, its
    first ten otherwise. *)
Definition quotingMessage (f : fault) : jsstring :=
  match f with
  | NotJSON [] => lit "Unexpected end of JSON input"
  | NotJSON (c :: rest) =>
      lit "Unexpected token '" ++ [c] ++ lit "', " ++ [dquote]
      ++ (if Nat.ltb (length (c :: rest)) 21 then (c :: rest) ++ [dquote]
          else firstn 10 (c :: rest) ++ [dquote] ++ lit "...")
      ++ lit " is not valid JSON"
  | _ => plainMessage f
  end.

(** A string literal of a JSON text: [s] between quotation marks. *)
Definition quoted (s : string) : jsstring := dquote :: lit s ++ [dquote].

(** The hexadecimal digit of a number below sixteen. *)
Definition hexDigit (n : N) : char :=
  if (n <? 10)%N then (48 + n)%N else (87 + n)%N.

(** A code unit as it stands inside a JSON string literal: quotation
    marks, backslashes and control characters escaped. *)
Definition escapeChar (c : char) : jsstring :=
  if ((c =? dquote) || (c =? ch "\"))%N then [ch "\"; c]
  else if (c <? 32)%N then
    lit "\u00" ++ [hexDigit (c / 16); hexDigit (c mod 16)]
  else [c].

(** A JSON string literal denoting [s]. *)
Definition stringLiteral (s : jsstring) : jsstring :=
  dquote :: flat_map escapeChar s ++ [dquote].

(** The body of a chat-completion response whose single choice has the
    text [content] (section 6 of the specification:
    [choices[0].message.content]). *)
Definition completionBody (content : jsstring) : jsstring :=
  lit "{" ++ quoted "choices" ++ lit ":[{" ++ quoted "message" ++ lit ":{"
  ++ quoted "content" ++ lit ":" ++ stringLiteral content ++ lit "}}]}".

(** A successful response carrying the completion text [content]. *)
Definition completedResponse (content : jsstring) : response :=
  {| status := 200; statusText := lit "OK";
     bodyText := Normal (completionBody content) |}.

Definition completed (content : jsstring) : fetched :=
  Resolved (completedResponse content).

(* ================================================================== *)
(** ** The rest of the component

    The handlers and render expressions the analysis flow does not go
    through: [toggleSection], [copyAnalysis], [speakWord],
    [ConfidenceIndicator], the voice picker and the recent-search
    buttons. *)

(** [array.join(sep)], given the conversion of an element. *)
Definition joinWith (f : value -> result jsstring) (sep : jsstring)
  : list value -> result jsstring :=
  fix go (l : list value) : result jsstring :=
    match l with
    | [] => Normal []
    | x :: rest =>
        match rest with
        | [] => f x
        | _ :: _ => a <- f x ;; b <- go rest ;; Normal (a ++ sep ++ b)
        end
    end.

(** [strings.join(sep)] on an array of strings. *)
Fixpoint joinStrings (sep : jsstring) (l : list jsstring) : jsstring :=
  match l with
  | [] => []
  | x :: rest =>
      match rest with
      | [] => x
      | _ :: _ => x ++ sep ++ joinStrings sep rest
      end
  end.

Section Printing.

(** [Number::toString] of the double nearest to [m * 10^e], the host's. *)
Variable numberToString : Z -> Z -> jsstring.

(** The TypeError the host throws for an object it cannot convert to a
    primitive value. *)
Variable primitiveError : jsError.

(** ToString, as a template literal applies it to a substitution. An
    array is joined with commas, [null] elements as empty strings. An
    object prints through [Object.prototype.toString], unless it has an
    own property [toString], which in a parsed payload is no function:
    then neither [toString] nor [valueOf] gives a primitive. *)
Fixpoint toStr (v : value) : result jsstring :=
  match v with
  | VNull => Normal (lit "null")
  | VBool b => Normal (if b then lit "true" else lit "false")
  | VNumber m e => Normal (numberToString m e)
  | VString s => Normal s
  | VArray items =>
      joinWith (fun x => match x with VNull => Normal [] | _ => toStr x end)
        (lit ",") items
  | VObject props =>
      match lookup (lit "toString") props with
      | Some _ => Throw primitiveError
      | None => Normal (lit "[object Object]")
      end
  end.

(** The element conversion of [Array.prototype.join]. *)
Definition elementStr (x : value) : result jsstring :=
  match x with VNull => Normal [] | _ => toStr x end.

(** ToString of a property that may be missing. *)
Definition optToStr (o : option value) : result jsstring :=
  match o with
  | None => Normal (lit "undefined")
  | Some v => toStr v
  end.

(** *** [ConfidenceIndicator] (lines 190-204) *)

Definition colors : list (jsstring * value) :=
  [(lit "high", VString (lit "bg-emerald-500"));
   (lit "medium", VString (lit "bg-amber-500"));
   (lit "low", VString (lit "bg-red-500"))].

(** What a property [colors] inherits from [Object.prototype] prints as,
    [None] for a name the prototype has no property of. Every such
    property is a function or an object, so truthy. *)
Variable inheritedText : jsstring -> option jsstring.

(** The class name of the dot:
    [`w-2 h-2 rounded-full ${colors[level] || colors.medium}`]. *)
Definition indicatorClass (level : option value) : result jsstring :=
  key <- optToStr level ;;
  colour <-
    match lookup key colors with
    | Some own => toStr (orElse (Some own) (VString (lit "bg-amber-500")))
    | None =>
        match inheritedText key with
        | Some text => Normal text
        | None => Normal (lit "bg-amber-500")
        end
    end ;;
  Normal (lit "w-2 h-2 rounded-full " ++ colour).

(** *** [copyAnalysis] (lines 157-178) *)

Variable engineMessage : fault -> jsstring.

(** [field.join(sep)] *)
Definition joined (field : option value) (sep : jsstring) : result jsstring :=
  match field with
  | None => raise engineMessage (NoBase (lit "join"))
  | Some VNull => raise engineMessage (NoBase (lit "join"))
  | Some (VArray items) => joinWith elementStr sep items
  | Some _ => raise engineMessage (NotAFunction (lit "join"))
  end.

(** The callback of line 169: a bullet (U+2022), the Spanish and the
    English text. *)
Definition sentenceLine (s : value) : result jsstring :=
  spanish <- member engineMessage (Some s) (lit "spanish") ;;
  a <- optToStr spanish ;;
  english <- member engineMessage (Some s) (lit "english") ;;
  b <- optToStr english ;;
  Normal ([0x2022%N] ++ lit " " ++ a ++ lit " - " ++ b).

(** [field.map(callback)] *)
Definition mapped (field : option value) : result (list jsstring) :=
  match field with
  | None => raise engineMessage (NoBase (lit "map"))
  | Some VNull => raise engineMessage (NoBase (lit "map"))
  | Some (VArray items) => mapResult sentenceLine items
  | Some _ => raise engineMessage (NotAFunction (lit "map"))
  end.

(** The line feed of the template literal. *)
Definition newline : jsstring := [10%N].

(** [textToCopy] (lines 160-169); the headings start with U+1F4D8,
    U+1F9EC, U+1F33F, U+1F9E0 (as surrogate pairs) and U+270D U+FE0F. *)
Definition copyText (a : value) : result jsstring :=
  word <- member engineMessage (Some a) (lit "word") ;;
  w <- optToStr word ;;
  englishMeaning <- member engineMessage (Some a) (lit "englishMeaning") ;;
  m <- optToStr englishMeaning ;;
  etymology <- member engineMessage (Some a) (lit "etymology") ;;
  e <- optToStr etymology ;;
  related <- member engineMessage (Some a) (lit "relatedEnglishWords") ;;
  r <- joined related (lit ", ") ;;
  mnemonic <- member engineMessage (Some a) (lit "mnemonic") ;;
  n <- optToStr mnemonic ;;
  sentences <- member engineMessage (Some a) (lit "sampleSentences") ;;
  lines <- mapped sentences ;;
  Normal ([0xD83D; 0xDCD8]%N ++ lit " " ++ w ++ lit " - " ++ m
          ++ newline ++ newline
          ++ [0xD83E; 0xDDEC]%N ++ lit " Etymology: " ++ e
          ++ newline ++ newline
          ++ [0xD83C; 0xDF3F]%N ++ lit " Related English Words: " ++ r
          ++ newline ++ newline
          ++ [0xD83E; 0xDDE0]%N ++ lit " Mnemonic: " ++ n
          ++ newline ++ newline
          ++ [0x270D; 0xFE0F]%N ++ lit " Sample Sentences:" ++ newline
          ++ joinStrings newline lines).

End Printing.

(** *** The children of a sentence row (lines 457 and 460) *)

Section Children.

Variable numberToString : Z -> Z -> jsstring.

(** The Error React throws for a child that is an object. *)
Variable childError : jsError.

Variable engineMessage : fault -> jsstring.

(** What React shows for a child [{value}] that is a value of the
    payload: a string as its text, a number as [Number::toString] prints
    it, nothing for a boolean or [null], an array as its elements one
    after the other; an object is refused. *)
Fixpoint childText (v : value) : result jsstring :=
  match v with
  | VNull => Normal []
  | VBool _ => Normal []
  | VNumber m e => Normal (numberToString m e)
  | VString s => Normal s
  | VArray items =>
      (fix go (l : list value) : result jsstring :=
         match l with
         | [] => Normal []
         | x :: rest => a <- childText x ;; b <- go rest ;; Normal (a ++ b)
         end) items
  | VObject _ => Throw childError
  end.

(** The two texts of a row. *)
Definition shownSentence (row : value * value) : result (jsstring * jsstring) :=
  spanish <- childText (fst row) ;;
  english <- childText (snd row) ;;
  Normal (spanish, english).

(** The sentence list as shown: the render maps over the entries (line
    454), then React renders the children of the rows. *)
Definition sentencesShown (a : value) : result (list (jsstring * jsstring)) :=
  rows <- renderSentences engineMessage a ;;
  mapResult shownSentence rows.

End Children.

(** The cells of the component the flow does not touch (lines 10-19):
    which sections are expanded, the copied flag, whether the voice
    picker is shown; [appState] holds the others. *)
Record ui : Type := {
  appState : state;
  expandedSections : list (jsstring * value);
  copied : bool;
  showVoiceSelector : bool }.

Definition setApp (st : state) (u : ui) : ui :=
  {| appState := st; expandedSections := expandedSections u; copied := copied u;
     showVoiceSelector := showVoiceSelector u |}.

Definition setExpandedSections (e : list (jsstring * value)) (u : ui) : ui :=
  {| appState := appState u; expandedSections := e; copied := copied u;
     showVoiceSelector := showVoiceSelector u |}.

Definition setCopied (b : bool) (u : ui) : ui :=
  {| appState := appState u; expandedSections := expandedSections u; copied := b;
     showVoiceSelector := showVoiceSelector u |}.

Definition setShowVoiceSelector (b : bool) (u : ui) : ui :=
  {| appState := appState u; expandedSections := expandedSections u; copied := copied u;
     showVoiceSelector := b |}.

(** The four sections, all expanded at first (lines 10-15). *)
Definition sectionNames : list jsstring :=
  [lit "etymology"; lit "related"; lit "mnemonic"; lit "sentences"].

Definition initialUi : ui :=
  {| appState := initialState;
     expandedSections := map (fun k => (k, VBool true)) sectionNames;
     copied := false;
     showVoiceSelector := false |}.

(** [!prev[section]], for a name no built-in prototype defines. *)
Definition flipped (section : jsstring) (prev : list (jsstring * value)) : bool :=
  match lookup section prev with
  | Some v => negb (truthy v)
  | None => true
  end.

(** [toggleSection] (lines 150-155): [{...prev, [section]: !prev[section]}]. *)
Definition toggleSection (section : jsstring) (u : ui) : ui :=
  setExpandedSections
    (setProp section (VBool (flipped section (expandedSections u)))
       (expandedSections u)) u.

(** [expandedSections.name && (..)]: whether the body of a section is
    rendered. *)
Definition sectionShown (section : jsstring) (u : ui) : bool :=
  match lookup section (expandedSections u) with
  | Some v => truthy v
  | None => false
  end.

(** The handler of a recent-search button (line 483):
    [setWord(search); analyzeWord()]. The [analyzeWord] it calls is the
    closure of the render that made the button, so it reads the [word] of
    that render, not the one [setWord] has just asked for. *)
Definition clickRecent (engineMessage : fault -> jsstring) (search : jsstring)
  (net : fetched) (st : state) : state * list request :=
  let (st', requests) := analyzeWord engineMessage net st in
  (setWord search st', requests).

(** The handler of a button of the voice picker (lines 338-341). *)
Definition chooseVoice (v : voice) (u : ui) : ui :=
  setShowVoiceSelector false (setApp (setSelectedVoice (Some v) (appState u)) u).

(** The handler of the microphone button (line 304). *)
Definition toggleVoiceSelector (u : ui) : ui :=
  setShowVoiceSelector (negb (showVoiceSelector u)) u.

(** [disabled={loading || !word.trim()}] on the submit button (line 260). *)
Definition submitDisabled (st : state) : bool :=
  loading st || isEmpty (trim (word st)).

(** What [speechSynthesis.speak] is given. The rate is the decimal
    [8 * 10^-1], the pitch [1]. *)
Record utterance : Type := {
  uttText : jsstring;
  uttVoice : voice;
  uttRate : Z * Z;
  uttPitch : Z * Z }.

(** What [copyAnalysis] comes to: nothing to copy; the text written, and
    the copied flag set; the text the clipboard refused (the [catch] of
    lines 175-177); or an exception thrown while the text was built,
    before the [try]. *)
Inductive copyEffect : Type :=
| NotCopied
| Wrote (text : jsstring)
| Refused (text : jsstring)
| Failed (e : jsError).

Section Handlers.

Variable numberToString : Z -> Z -> jsstring.
Variable primitiveError : jsError.
Variable engineMessage : fault -> jsstring.

(** [copyAnalysis], given whether the clipboard takes the text. *)
Definition copyAnalysis (accepts : bool) (u : ui) : ui * copyEffect :=
  match analysis (appState u) with
  | None => (u, NotCopied)
  | Some a =>
      if negb (truthy a) then (u, NotCopied)
      else
        match copyText numberToString primitiveError engineMessage a with
        | Throw e => (u, Failed e)
        | Normal text =>
            if accepts then (setCopied true u, Wrote text)
            else (u, Refused text)
        end
  end.

(** The timer of line 174, when it fires. *)
Definition copiedTimeout (u : ui) : ui := setCopied false u.

(** The text of [new SpeechSynthesisUtterance(analysis.word)]: the
    argument is optional, so [undefined] leaves the text empty. *)
Definition utteranceText (word : option value) : result jsstring :=
  match word with
  | None => Normal []
  | Some v => toStr numberToString primitiveError v
  end.

(** [speakWord] (lines 180-188), given whether the window has
    [speechSynthesis]: the utterances spoken. *)
Definition speakWord (available : bool) (st : state) : result (list utterance) :=
  match analysis st, selectedVoice st with
  | Some a, Some v =>
      if truthy a && available then
        word <- member engineMessage (Some a) (lit "word") ;;
        text <- utteranceText word ;;
        Normal [{| uttText := text; uttVoice := v;
                   uttRate := (8%Z, (-1)%Z); uttPitch := (1%Z, 0%Z) |}]
      else Normal []
  | _, _ => Normal []
  end.

End Handlers.

(* ================================================================== *)
(** ** The vocabulary of the statements *)

(** White space only, the empty string included. *)
Definition blank (s : jsstring) : bool := forallb isWhiteSpace s.

(** A text inside a code fence: the opening fence, the language tag,
    white space, the text, white space, the closing fence, white space. *)
Definition fenced (tag ws1 text ws2 ws3 : jsstring) : jsstring :=
  fence ++ tag ++ ws1 ++ text ++ ws2 ++ fence ++ ws3.

(** A code unit no match of the pattern can start with or run over the
    first of: not white space, not a grave accent, not a [j]. *)
Definition isOpener (c : char) : bool :=
  negb (isWhiteSpace c) && negb (c =? backtick)%N && negb (c =? ch "j")%N.

(** A code unit no match of the pattern contains: not white space, not a
    grave accent, none of [j], [s], [o], [n]. *)
Definition isBarrier (c : char) : bool :=
  negb (isWhiteSpace c) && negb (c =? backtick)%N
  && negb ((c =? ch "j") || (c =? ch "s") || (c =? ch "o") || (c =? ch "n"))%N.

(** A core: a text whose first code unit is an opener and whose last is
    a barrier. *)
Definition isCore (core : jsstring) : Prop :=
  exists c0 tl0 bz cz,
    core = c0 :: tl0 /\ core = bz ++ [cz]
    /\ isOpener c0 = true /\ isBarrier cz = true.

(** A framed text: white space, a core, white space. *)
Definition framed (text : jsstring) : Prop :=
  exists lead core trail,
    text = lead ++ core ++ trail
    /\ blank lead = true /\ blank trail = true /\ isCore core.

(** The code units a JSON value can start with. *)
Definition isValueStart (c : char) : bool :=
  ((c =? ch "{") || (c =? ch "[") || (c =? dquote) || (c =? ch "t")
   || (c =? ch "f") || (c =? ch "n") || (c =? ch "-"))%N || isDigit c.

(** The code units a JSON value can end with. *)
Definition isValueEnd (c : char) : bool :=
  ((c =? ch "}") || (c =? ch "]") || (c =? dquote) || (c =? ch "e")
   || (c =? ch "l"))%N || isDigit c.

(** The text of one JSON value, as far as its two ends go. *)
Definition jsonCore (core : jsstring) : Prop :=
  exists c0 tl0 bz cz,
    core = c0 :: tl0 /\ core = bz ++ [cz]
    /\ isValueStart c0 = true /\ isValueEnd cz = true.

(** A text whose last code unit is a digit. *)
Definition endsDigit (l : jsstring) : Prop :=
  exists b z, l = b ++ [z] /\ isDigit z = true.

(** A record normalized from a payload: the five optional fields are
    present and truthy, so not [null]; every other property is the
    payload's own, as the spread copies it. *)
Definition normalized (payload safe : value) : Prop :=
  exists props,
    safe = VObject props
    /\ (forall k, In k defaultedFields ->
          exists v, lookup k props = Some v /\ truthy v = true /\ v <> VNull)
    /\ (forall k, ~ In k defaultedFields ->
          lookup k props = lookup k (spread payload)).

(* ================================================================== *)
(** ** A session *)

(** What happens to the component: the user types, submits, clicks the
    n-th recent search, picks the n-th voice of the picker, opens or
    closes the picker or a section, presses the copy button; the host
    announces a new voice catalog; the copy timer fires. A request
    started then comes to [net]; the clipboard takes the text or not. *)
Inductive event : Type :=
| Typed (w : jsstring)
| Submitted (net : fetched)
| RecentClicked (n : nat) (net : fetched)
| VoicesChanged (voices : list voice)
| VoiceChosen (n : nat)
| SelectorToggled
| SectionToggled (section : jsstring)
| CopyPressed (accepts : bool)
| CopyTimedOut.

Section Session.

Variable toLowerCase : jsstring -> jsstring.
Variable numberToString : Z -> Z -> jsstring.
Variable primitiveError : jsError.
Variable engineMessage : fault -> jsstring.

(** The handler of an event, run to its end: the response to a request
    comes before the next event. A button that is not there (no such
    recent search, no such voice, no such section) has no handler to
    run. *)
Definition handle (e : event) (u : ui) : ui :=
  match e with
  | Typed w => setApp (setWord w (appState u)) u
  | Submitted net => setApp (fst (analyzeWord engineMessage net (appState u))) u
  | RecentClicked n net =>
      match nth_error (recentSearches (appState u)) n with
      | Some search =>
          setApp (fst (clickRecent engineMessage search net (appState u))) u
      | None => u
      end
  | VoicesChanged voices => setApp (loadVoices toLowerCase voices (appState u)) u
  | VoiceChosen n =>
      match nth_error (availableVoices (appState u)) n with
      | Some v => chooseVoice v u
      | None => u
      end
  | SelectorToggled => toggleVoiceSelector u
  | SectionToggled section =>
      if existsb (streq section) sectionNames then toggleSection section u
      else u
  | CopyPressed accepts =>
      fst (copyAnalysis numberToString primitiveError engineMessage accepts u)
  | CopyTimedOut => copiedTimeout u
  end.

(** The state after a sequence of events, from the first render. *)
Definition session (events : list event) : ui :=
  fold_left (fun u e => handle e u) events initialUi.

(** What holds of the cells of the flow all through a session: the
    recent searches are three to five distinct trimmed terms, none
    empty; the voices on offer and the selected one are Spanish; an
    analysis is a normalized record; no flow is under way. *)
Definition stateInvariant (st : state) : Prop :=
  NoDup (recentSearches st)
  /\ 3 <= length (recentSearches st) <= 5
  /\ Forall (fun s => s <> [] /\ trim s = s) (recentSearches st)
  /\ Forall (fun v => isSpanishVoice toLowerCase v = true) (availableVoices st)
  /\ (forall v, selectedVoice st = Some v -> isSpanishVoice toLowerCase v = true)
  /\ (forall safe, analysis st = Some safe -> exists payload, normalized payload safe)
  /\ loading st = false.

(** And of the component: each of the four sections is open or closed. *)
Definition sessionInvariant (u : ui) : Prop :=
  stateInvariant (appState u)
  /\ Forall (fun k => exists b, lookup k (expandedSections u) = Some (VBool b))
       sectionNames.

End Session.

(* ================================================================== *)
(** ** Concrete inputs *)

(** The payload [{"word":"casa"}]. *)
Definition casaPayload : jsstring :=
  lit "{" ++ quoted "word" ++ lit ":" ++ quoted "casa" ++ lit "}".

(** The payload [{"confidence":"certain"}]. *)
Definition certainPayload : jsstring :=
  lit "{" ++ quoted "confidence" ++ lit ":" ++ quoted "certain" ++ lit "}".

(** A payload whose [relatedEnglishWords] is a string, and one whose
    [sampleSentences] is an object. *)
Definition stringFieldPayload : jsstring :=
  lit "{" ++ quoted "relatedEnglishWords" ++ lit ":"
  ++ quoted "library, librarian" ++ lit "}".

Definition objectFieldPayload : jsstring :=
  lit "{" ++ quoted "sampleSentences" ++ lit ":{" ++ quoted "spanish" ++ lit ":"
  ++ quoted "Hola" ++ lit "," ++ quoted "english" ++ lit ":" ++ quoted "Hello"
  ++ lit "}}".

(** A payload with a code fence inside a string: [{"etymology":"a ``` b"}]. *)
Definition fenceInsidePayload : jsstring :=
  lit "{" ++ quoted "etymology" ++ lit ":" ++ quoted "a ``` b" ++ lit "}".

(** The state once "casa" is typed into the field of a fresh session. *)
Definition casaTyped : state := setWord (lit " casa ") initialState.

(** A search that succeeds: the term [w] is typed and submitted, and the
    completion is the payload [{}]. *)
Definition search (w : jsstring) (st : state) : state :=
  fst (analyzeWord plainMessage (completed (lit "{}")) (setWord w st)).

(** What a browser rejects the request promise with when the network is
    down. *)
Definition failedToFetch : jsError :=
  {| errName := lit "TypeError"; errMessage := lit "Failed to fetch" |}.

(** A response that is no success. *)
Definition unauthorized : response :=
  {| status := 401; statusText := lit "Unauthorized"; bodyText := Normal [] |}.

(** Three voices of a host: two Spanish ones, one of them Google's for
    the United States, and an English one. *)
Definition googleVoice : voice :=
  {| voiceName := lit "Google espa" ++ [241%N] ++ lit "ol de Estados Unidos";
     voiceLang := lit "es-US"; localService := false |}.

Definition monicaVoice : voice :=
  {| voiceName := lit "Monica"; voiceLang := lit "es-ES"; localService := true |}.

Definition samanthaVoice : voice :=
  {| voiceName := lit "Samantha"; voiceLang := lit "en-US"; localService := true |}.

(** [Number::toString] as far as the examples need it: on the literal of
    an integer below 2^53, without fraction or exponent. *)
Definition integerToString (m e : Z) : jsstring :=
  (if (m <? 0)%Z then lit "-" else []) ++ decimal (Z.abs_N m).

(** The TypeError of an object that has no primitive value. *)
Definition cannotConvert : jsError :=
  {| errName := lit "TypeError";
     errMessage := lit "Cannot convert object to primitive value" |}.

(** The Error of React for an object among the children. *)
Definition objectChildError : jsError :=
  {| errName := lit "Error";
     errMessage := lit "Objects are not valid as a React child" |}.

(** The properties of [Object.prototype], and what they print as: the
    accessor [__proto__] gives the prototype itself, an object;
    [constructor] is the function [Object]; the others are built-in
    functions of their own name. *)
Definition prototypeNames : list jsstring :=
  [lit "constructor"; lit "toString"; lit "toLocaleString"; lit "valueOf";
   lit "hasOwnProperty"; lit "isPrototypeOf"; lit "propertyIsEnumerable";
   lit "__defineGetter__"; lit "__defineSetter__"; lit "__lookupGetter__";
   lit "__lookupSetter__"].

Definition prototypeText (k : jsstring) : option jsstring :=
  if streq k (lit "__proto__") then Some (lit "[object Object]")
  else if streq k (lit "constructor") then
    Some (lit "function Object() { [native code] }")
  else if existsb (streq k) prototypeNames then
    Some (lit "function " ++ k ++ lit "() { [native code] }")
  else None.

(** A record as the prompt asks for it, for the word "casa". *)
Definition casaRecord : value :=
  VObject
    [(lit "word", VString (lit "casa"));
     (lit "englishMeaning", VString (lit "house"));
     (lit "etymology", VString (lit "From Latin casa"));
     (lit "relatedEnglishWords",
      VArray [VString (lit "casino"); VString (lit "chalet")]);
     (lit "mnemonic", VString (lit "A casa is a castle"));
     (lit "sampleSentences",
      VArray [VObject [(lit "spanish", VString (lit "Mi casa"));
                       (lit "english", VString (lit "My house"))];
              VObject [(lit "spanish", VString (lit "La casa"))]]);
     (lit "confidence", VString (lit "high"))].

(* ================================================================== *)
(** * Properties *)

Unset Implicit Arguments.

(** ** Strings *)

Lemma streq_eq (a b : jsstring) : streq a b = true <-> a = b.
Proof.
  revert b; induction a as [|x a IH]; intros [|y b]; simpl; split;
    try congruence; try reflexivity.
  - intros H. apply andb_true_iff in H as [Hx Hab].
    apply N.eqb_eq in Hx. apply IH in Hab. congruence.
  - intros H. injection H as -> ->.
    rewrite N.eqb_refl. simpl. now apply IH.
Qed.

Lemma streq_refl (a : jsstring) : streq a a = true.
Proof. now apply streq_eq. Qed.

Lemma streq_neq (a b : jsstring) : streq a b = false <-> a <> b.
Proof.
  split.
  - intros H E. apply streq_eq in E. congruence.
  - intros H. destruct (streq a b) eqn:E; [|reflexivity].
    apply streq_eq in E. contradiction.
Qed.

Lemma blank_app (a b : jsstring) : blank (a ++ b) = blank a && blank b.
Proof. apply forallb_app. Qed.

Lemma blank_rev (s : jsstring) : blank (rev s) = blank s.
Proof.
  induction s as [|c s IH]; simpl; [reflexivity|].
  rewrite blank_app, IH. simpl. rewrite andb_true_r. apply andb_comm.
Qed.

Lemma trimStart_blank (ws s : jsstring) :
  blank ws = true -> trimStart (ws ++ s) = trimStart s.
Proof.
  induction ws as [|c ws IH]; simpl; [reflexivity|].
  intros H. apply andb_true_iff in H as [Hc Hws]. rewrite Hc. auto.
Qed.

Lemma trimStart_solid (c : char) (s : jsstring) :
  isWhiteSpace c = false -> trimStart (c :: s) = c :: s.
Proof. intros H. simpl. now rewrite H. Qed.

Lemma trimStart_nil (s : jsstring) : trimStart s = [] <-> blank s = true.
Proof.
  induction s as [|c s IH]; simpl.
  - tauto.
  - destruct (isWhiteSpace c); simpl; [exact IH|].
    split; discriminate.
Qed.

Lemma trimStart_head (s : jsstring) (c : char) (r : jsstring) :
  trimStart s = c :: r -> isWhiteSpace c = false.
Proof.
  induction s as [|x s IH]; simpl; [discriminate|].
  destruct (isWhiteSpace x) eqn:E; [exact IH|].
  intros H. injection H as -> _. exact E.
Qed.

(** A string is all white space exactly when trimming leaves nothing. *)
Lemma trim_nil (s : jsstring) : trim s = [] <-> blank s = true.
Proof.
  unfold trim, trimEnd. split.
  - intros H. apply trimStart_nil.
    apply (f_equal (@rev char)) in H. rewrite rev_involutive in H. simpl in H.
    apply trimStart_nil in H. rewrite blank_rev in H.
    destruct (trimStart s) as [|c r] eqn:E; [reflexivity|].
    apply trimStart_head in E. simpl in H. now rewrite E in H.
  - intros H. apply trimStart_nil in H. now rewrite H.
Qed.

Lemma isEmpty_trim (s : jsstring) : isEmpty (trim s) = blank s.
Proof.
  destruct (blank s) eqn:B.
  - apply trim_nil in B. now rewrite B.
  - destruct (trim s) eqn:E; [|reflexivity].
    apply trim_nil in E. congruence.
Qed.

(** Trimming a text that is white space around a core which starts and
    ends with something else leaves the core. *)
Lemma trim_core (ws1 ws2 core : jsstring) (c0 cz : char) (tl0 bz : jsstring) :
  blank ws1 = true -> blank ws2 = true ->
  core = c0 :: tl0 -> core = bz ++ [cz] ->
  isWhiteSpace c0 = false -> isWhiteSpace cz = false ->
  trim (ws1 ++ core ++ ws2) = core.
Proof.
  intros H1 H2 E0 Ez Hc0 Hcz. unfold trim, trimEnd.
  rewrite (trimStart_blank _ _ H1).
  rewrite E0 at 1. simpl app at 1. rewrite (trimStart_solid _ _ Hc0).
  change (c0 :: tl0 ++ ws2) with ((c0 :: tl0) ++ ws2). rewrite <- E0.
  rewrite rev_app_distr, trimStart_blank by now rewrite blank_rev.
  rewrite Ez at 1. rewrite rev_app_distr. simpl app.
  rewrite (trimStart_solid _ _ Hcz).
  change (cz :: rev bz) with (rev [cz] ++ rev bz).
  rewrite <- rev_app_distr, <- Ez. apply rev_involutive.
Qed.

Lemma trimStart_keeps_last (c : char) (l : jsstring) :
  isWhiteSpace c = false -> exists Z, trimStart (l ++ [c]) = Z ++ [c].
Proof.
  intros Hc. induction l as [|x l IH]; cbn [app trimStart].
  - rewrite Hc. now exists [].
  - destruct (isWhiteSpace x); [exact IH|]. now exists (x :: l).
Qed.

(** Trimming keeps a first code unit that is no white space. *)
Lemma trim_head (c : char) (X : jsstring) :
  isWhiteSpace c = false -> exists Y, trim (c :: X) = c :: Y.
Proof.
  intros Hc. unfold trim, trimEnd. rewrite (trimStart_solid _ _ Hc).
  cbn [rev]. destruct (trimStart_keeps_last c (rev X) Hc) as [Z E].
  rewrite E, rev_app_distr. cbn [rev app]. now exists (rev Z).
Qed.

(** The white space of ECMAScript: the no-break space, the byte-order
    mark and the line separator are, the zero-width space and the
    Mongolian vowel separator are not. *)
Example isWhiteSpace_samples :
  map isWhiteSpace [32; 10; 160; 0xFEFF; 0x2028; 0x200B; 0x180E]%N
  = [true; true; true; true; true; false; false].
Proof. reflexivity. Qed.

Example decimal_samples :
  decimal 401 = lit "401" /\ decimal 0 = lit "0" /\ decimal 1000 = lit "1000".
Proof. repeat split. Qed.

(** ** The clean-up of the completion text *)

(** The example of the specification, and a bare fence. *)
Example cleanedResponse_samples :
  cleanedResponse (lit "```json" ++ [10%N] ++ casaPayload ++ [10%N] ++ lit "```")
  = casaPayload
  /\ cleanedResponse (lit "```" ++ [10%N] ++ casaPayload ++ [10%N] ++ lit "```" ++ [10%N])
     = casaPayload
  /\ cleanedResponse casaPayload = casaPayload.
Proof. repeat split. Qed.

Lemma space_not_backtick (c : char) : isWhiteSpace c = true -> (backtick =? c)%N = false.
Proof.
  intros H. destruct (N.eqb_spec backtick c) as [<-|]; [discriminate H|reflexivity].
Qed.

Lemma space_not_j (c : char) : isWhiteSpace c = true -> (ch "j" =? c)%N = false.
Proof.
  intros H. destruct (N.eqb_spec (ch "j") c) as [<-|]; [discriminate H|reflexivity].
Qed.

Lemma stripFences_skip (n : nat) (s : jsstring) :
  stripFences n s = stripFences 0 (skipn n s).
Proof.
  revert n; induction s as [|c r IH]; intros [|k]; try reflexivity.
  simpl skipn. rewrite <- IH. reflexivity.
Qed.

Lemma stripFences_match (s : jsstring) (k : nat) :
  matchAt s = Some (S k) -> stripFences 0 s = stripFences 0 (skipn (S k) s).
Proof.
  destruct s as [|c r]; [discriminate|].
  intros H. cbn [stripFences]. rewrite H. simpl skipn. apply stripFences_skip.
Qed.

Lemma stripFences_keep (c : char) (r : jsstring) :
  matchAt (c :: r) = None -> stripFences 0 (c :: r) = c :: stripFences 0 r.
Proof. intros H. cbn [stripFences]. now rewrite H. Qed.

Lemma spaces_blank (ws : jsstring) (c : char) (r : jsstring) :
  blank ws = true -> isWhiteSpace c = false -> spaces (ws ++ c :: r) = length ws.
Proof.
  intros Hws Hc. induction ws as [|w ws IH]; simpl.
  - now rewrite Hc.
  - simpl in Hws. apply andb_true_iff in Hws as [Hw Hws]. rewrite Hw. auto.
Qed.

Lemma startsWith_fence_not (c : char) (r : jsstring) :
  (backtick =? c)%N = false -> startsWith (c :: r) fence = false.
Proof. intros H. unfold fence. cbn [startsWith]. now rewrite H. Qed.

(** No match starts in white space that something other than a fence
    follows. *)
Lemma matchClosing_blank_none (ws : jsstring) (c : char) (r : jsstring) :
  blank ws = true -> isWhiteSpace c = false -> (backtick =? c)%N = false ->
  matchClosing (ws ++ c :: r) = None.
Proof.
  intros Hws Hc Hb. induction ws as [|w ws IH].
  - cbn [app matchClosing]. now rewrite Hc, (startsWith_fence_not _ _ Hb).
  - simpl in Hws. apply andb_true_iff in Hws as [Hw Hws].
    cbn [app matchClosing]. rewrite Hw, (IH Hws).
    now rewrite (startsWith_fence_not _ _ (space_not_backtick _ Hw)).
Qed.

Lemma matchTagged_not_backtick (c : char) (r : jsstring) :
  (backtick =? c)%N = false -> matchTagged (c :: r) = None.
Proof. intros H. unfold matchTagged, fence. cbn [app stripPrefix]. now rewrite H. Qed.

Lemma stripFences_blank_then (ws : jsstring) (c : char) (r : jsstring) :
  blank ws = true -> isWhiteSpace c = false -> (backtick =? c)%N = false ->
  stripFences 0 (ws ++ c :: r) = ws ++ c :: stripFences 0 r.
Proof.
  intros Hws Hc Hb. induction ws as [|w ws IH].
  - simpl app. apply stripFences_keep. unfold matchAt.
    rewrite (matchTagged_not_backtick _ _ Hb).
    apply (matchClosing_blank_none [] c r); auto.
  - pose proof Hws as Hws'. simpl in Hws'.
    apply andb_true_iff in Hws' as [Hw Hws'].
    simpl app. rewrite stripFences_keep, (IH Hws'); [reflexivity|].
    unfold matchAt.
    rewrite (matchTagged_not_backtick _ _ (space_not_backtick _ Hw)).
    apply (matchClosing_blank_none (w :: ws) c r); auto.
Qed.

Lemma stripFences_blank (ws : jsstring) : blank ws = true -> stripFences 0 ws = ws.
Proof.
  induction ws as [|w ws IH]; [reflexivity|].
  intros H. pose proof H as H'. simpl in H'. apply andb_true_iff in H' as [Hw Hws].
  rewrite stripFences_keep, (IH Hws); [reflexivity|].
  unfold matchAt. rewrite (matchTagged_not_backtick _ _ (space_not_backtick _ Hw)).
  clear IH. revert H. generalize (w :: ws). clear.
  intros l; induction l as [|x l IH]; [reflexivity|].
  intros H. simpl in H. apply andb_true_iff in H as [Hx Hl].
  cbn [matchClosing]. rewrite Hx, (IH Hl).
  now rewrite (startsWith_fence_not _ _ (space_not_backtick _ Hx)).
Qed.

Lemma stripPrefix_app (p s : jsstring) : stripPrefix p (p ++ s) = Some s.
Proof.
  induction p as [|a p IH]; simpl; [now destruct s|].
  now rewrite N.eqb_refl.
Qed.

Lemma stripPrefix_inv (p s r : jsstring) : stripPrefix p s = Some r -> s = p ++ r.
Proof.
  revert s; induction p as [|a p IH]; intros [|b s]; simpl; try congruence.
  destruct (N.eqb_spec a b) as [->|]; [|discriminate].
  intros H. now rewrite (IH _ H).
Qed.

Lemma startsWith_stripPrefix (s p : jsstring) :
  startsWith s p = match stripPrefix p s with Some _ => true | None => false end.
Proof.
  revert s; induction p as [|a p IH]; intros [|b s]; simpl; try reflexivity.
  destruct (a =? b)%N; simpl; [apply IH|reflexivity].
Qed.

Lemma skipn_exact {A : Type} (a b : list A) : skipn (length a) (a ++ b) = b.
Proof. induction a; simpl; auto. Qed.

(** The opening fence with its tag, and the white space after it, is one
    match. *)
Lemma stripFences_tagged (ws : jsstring) (c : char) (r : jsstring) :
  blank ws = true -> isWhiteSpace c = false ->
  stripFences 0 ((fence ++ lit "json" ++ ws) ++ c :: r) = stripFences 0 (c :: r).
Proof.
  intros Hws Hc.
  assert (M : matchAt ((fence ++ lit "json" ++ ws) ++ c :: r)
              = Some (length (fence ++ lit "json" ++ ws))).
  { unfold matchAt, matchTagged.
    replace ((fence ++ lit "json" ++ ws) ++ c :: r)
      with ((fence ++ lit "json") ++ ws ++ c :: r)
      by now rewrite <- !app_assoc.
    rewrite stripPrefix_app, (spaces_blank _ _ _ Hws Hc).
    now rewrite !length_app. }
  change (length (fence ++ lit "json" ++ ws)) with (S (6 + length ws)) in M.
  rewrite (stripFences_match _ _ M).
  change (S (6 + length ws)) with (length (fence ++ lit "json" ++ ws)).
  now rewrite skipn_exact.
Qed.

Lemma matchClosing_blank_fence (ws r : jsstring) :
  blank ws = true -> matchClosing (ws ++ fence ++ r) = Some (length ws + 3).
Proof.
  induction ws as [|w ws IH]; [reflexivity|].
  intros H. simpl in H. apply andb_true_iff in H as [Hw Hws].
  cbn [app matchClosing length]. now rewrite Hw, (IH Hws).
Qed.

(** The opening fence without a tag is one match. *)
Lemma stripFences_bare (ws : jsstring) (c : char) (r : jsstring) :
  blank ws = true -> (ch "j" =? c)%N = false ->
  stripFences 0 (fence ++ ws ++ c :: r) = stripFences 0 (ws ++ c :: r).
Proof.
  intros Hws Hj.
  assert (M : matchAt (fence ++ ws ++ c :: r) = Some 3).
  { unfold matchAt, matchTagged.
    assert (T : stripPrefix (fence ++ lit "json") (fence ++ ws ++ c :: r) = None).
    { change (fence ++ lit "json") with (fence ++ ch "j" :: lit "son").
      destruct ws as [|w ws]; unfold fence; cbn [app stripPrefix];
        rewrite !N.eqb_refl.
      - now rewrite Hj.
      - simpl in Hws. apply andb_true_iff in Hws as [Hw _].
        now rewrite (space_not_j _ Hw). }
    rewrite T. apply (matchClosing_blank_fence [] _ eq_refl). }
  rewrite (stripFences_match _ _ M). reflexivity.
Qed.

(** White space, the closing fence and white space: the match takes the
    fence and the white space before it. *)
Lemma stripFences_closing (ws ws3 : jsstring) :
  blank ws = true -> blank ws3 = true ->
  stripFences 0 (ws ++ fence ++ ws3) = ws3.
Proof.
  intros Hws H3.
  assert (M : matchAt (ws ++ fence ++ ws3) = Some (length (ws ++ fence))).
  { unfold matchAt.
    assert (T : matchTagged (ws ++ fence ++ ws3) = None).
    { destruct ws as [|w ws].
      - unfold matchTagged, fence.
        destruct ws3 as [|x ws3]; [reflexivity|].
        simpl in H3. apply andb_true_iff in H3 as [Hx _].
        change (lit "json") with (ch "j" :: lit "son").
        cbn [app stripPrefix].
        rewrite !N.eqb_refl. now rewrite (space_not_j _ Hx).
      - simpl in Hws. apply andb_true_iff in Hws as [Hw _].
        apply matchTagged_not_backtick, space_not_backtick, Hw. }
    rewrite T, (matchClosing_blank_fence _ _ Hws). now rewrite length_app. }
  assert (E : length (ws ++ fence) = S (length ws + 2))
    by (rewrite length_app; simpl; lia).
  rewrite E in M. rewrite (stripFences_match _ _ M), <- E.
  rewrite app_assoc, skipn_exact. now apply stripFences_blank.
Qed.

(** *** No match runs over a barrier *)

Section Barrier.

Variable cz : char.
Variable T : jsstring.
Hypothesis cz_barrier : isBarrier cz = true.

Lemma barrier_solid : isWhiteSpace cz = false.
Proof.
  unfold isBarrier in cz_barrier.
  destruct (isWhiteSpace cz); [discriminate|reflexivity].
Qed.

Lemma barrier_not_in_tag :
  forallb (fun x => negb (x =? cz)%N) (fence ++ lit "json") = true.
Proof.
  unfold isBarrier in cz_barrier.
  apply andb_true_iff in cz_barrier as [H1 H3].
  apply andb_true_iff in H1 as [_ H2].
  apply negb_true_iff in H2. apply negb_true_iff in H3.
  apply orb_false_iff in H3 as [H3 Hn].
  apply orb_false_iff in H3 as [H3 Ho].
  apply orb_false_iff in H3 as [Hj Hs].
  change (fence ++ lit "json")
    with [backtick; backtick; backtick; ch "j"; ch "s"; ch "o"; ch "n"].
  cbn [forallb].
  rewrite !(N.eqb_sym _ cz), H2, Hj, Hs, Ho, Hn. reflexivity.
Qed.

(** Whether [p] is a prefix is decided before the barrier, and what is
    left then still holds it. *)
Lemma stripPrefix_barrier (p P : jsstring) :
  forallb (fun x => negb (x =? cz)%N) p = true ->
  match stripPrefix p (P ++ [cz]) with
  | Some _ =>
      exists P', stripPrefix p (P ++ [cz]) = Some (P' ++ [cz])
                 /\ stripPrefix p (P ++ cz :: T) = Some (P' ++ cz :: T)
                 /\ length P = length p + length P'
  | None => stripPrefix p (P ++ cz :: T) = None
  end.
Proof.
  revert P; induction p as [|a p IH]; intros P Hp.
  - simpl. exists P. auto.
  - simpl in Hp. apply andb_true_iff in Hp as [Ha Hp].
    apply negb_true_iff in Ha.
    destruct P as [|x P]; cbn [app stripPrefix].
    + now rewrite Ha.
    + destruct (a =? x)%N; [|reflexivity].
      specialize (IH P Hp). destruct (stripPrefix p (P ++ [cz])); [|exact IH].
      destruct IH as (P' & E1 & E2 & L). exists P'. repeat split; auto.
      simpl. now rewrite L.
Qed.

Lemma spaces_barrier (P : jsstring) :
  spaces (P ++ cz :: T) = spaces (P ++ [cz]) /\ spaces (P ++ [cz]) <= length P.
Proof.
  induction P as [|x P [IH1 IH2]]; cbn [app spaces length].
  - rewrite barrier_solid. auto.
  - destruct (isWhiteSpace x); split; auto; lia.
Qed.

Lemma matchTagged_barrier (P : jsstring) :
  matchTagged (P ++ cz :: T) = matchTagged (P ++ [cz])
  /\ forall m, matchTagged (P ++ [cz]) = Some m -> m <= length P.
Proof.
  unfold matchTagged.
  pose proof (stripPrefix_barrier (fence ++ lit "json") P barrier_not_in_tag) as H.
  destruct (stripPrefix (fence ++ lit "json") (P ++ [cz])) as [r|].
  - destruct H as (P' & E1 & E2 & L). injection E1 as ->. rewrite E2.
    destruct (spaces_barrier P') as [S1 S2]. rewrite S1. split; [reflexivity|].
    intros m Hm. injection Hm as <-. rewrite L. simpl length. lia.
  - rewrite H. split; [reflexivity|discriminate].
Qed.

Lemma startsWith_fence_barrier (P : jsstring) :
  startsWith (P ++ cz :: T) fence = startsWith (P ++ [cz]) fence
  /\ (startsWith (P ++ [cz]) fence = true -> 3 <= length P).
Proof.
  rewrite !startsWith_stripPrefix.
  assert (Hf : forallb (fun x => negb (x =? cz)%N) fence = true).
  { pose proof barrier_not_in_tag as H. rewrite forallb_app in H.
    now apply andb_true_iff in H as [H _]. }
  pose proof (stripPrefix_barrier fence P Hf) as H.
  destruct (stripPrefix fence (P ++ [cz])).
  - destruct H as (P' & _ & E2 & L). rewrite E2. split; [reflexivity|].
    intros _. rewrite L. simpl. lia.
  - rewrite H. split; [reflexivity|discriminate].
Qed.

Lemma matchClosing_barrier (P : jsstring) :
  matchClosing (P ++ cz :: T) = matchClosing (P ++ [cz])
  /\ forall m, matchClosing (P ++ [cz]) = Some m -> m <= length P.
Proof.
  induction P as [|x P [IH1 IH2]].
  - destruct (startsWith_fence_barrier []) as [S1 S2].
    cbn [app matchClosing] in *. rewrite barrier_solid, S1.
    split; [reflexivity|].
    destruct (startsWith [cz] fence); [|discriminate].
    specialize (S2 eq_refl). simpl in S2. lia.
  - destruct (startsWith_fence_barrier (x :: P)) as [S1 S2].
    cbn [app matchClosing length] in *. rewrite IH1, S1.
    split; [reflexivity|].
    intros m. destruct (isWhiteSpace x).
    + destruct (matchClosing (P ++ [cz])) as [n|].
      * intros H. injection H as <-. specialize (IH2 n eq_refl). lia.
      * destruct (startsWith (x :: P ++ [cz]) fence); [|discriminate].
        intros H. injection H as <-. specialize (S2 eq_refl). lia.
    + destruct (startsWith (x :: P ++ [cz]) fence); [|discriminate].
      intros H. injection H as <-. specialize (S2 eq_refl). lia.
Qed.

Lemma matchAt_barrier (P : jsstring) :
  matchAt (P ++ cz :: T) = matchAt (P ++ [cz])
  /\ forall m, matchAt (P ++ [cz]) = Some m -> m <= length P.
Proof.
  unfold matchAt.
  destruct (matchTagged_barrier P) as [T1 T2].
  destruct (matchClosing_barrier P) as [C1 C2].
  rewrite T1, C1. split; [reflexivity|].
  destruct (matchTagged (P ++ [cz])); auto.
Qed.

(** The scan of the text before a barrier does not depend on what comes
    after it, and goes on afresh after it. *)
Lemma stripFences_barrier (P : jsstring) (n : nat) :
  n <= length P ->
  stripFences n (P ++ cz :: T) = stripFences n (P ++ [cz]) ++ stripFences 0 T.
Proof.
  revert n; induction P as [|x P IH]; intros n Hn.
  - assert (n = 0) as -> by (simpl in Hn; lia).
    destruct (matchAt_barrier []) as [M1 M2].
    cbn [app stripFences] in *. rewrite M1.
    destruct (matchAt [cz]) as [[|k]|]; try reflexivity.
    specialize (M2 _ eq_refl). simpl in M2. lia.
  - destruct (matchAt_barrier (x :: P)) as [M1 M2].
    cbn [app stripFences length] in *.
    destruct n as [|n]; [|apply IH; lia].
    rewrite M1. destruct (matchAt (x :: P ++ [cz])) as [[|k]|].
    + simpl. now rewrite IH by lia.
    + apply IH. specialize (M2 _ eq_refl). lia.
    + simpl. now rewrite IH by lia.
Qed.

(** The barrier itself is kept. *)
Lemma stripFences_ends (P : jsstring) (n : nat) :
  n <= length P -> exists X, stripFences n (P ++ [cz]) = X ++ [cz].
Proof.
  revert n; induction P as [|x P IH]; intros n Hn.
  - assert (n = 0) as -> by (simpl in Hn; lia).
    destruct (matchAt_barrier []) as [_ M2].
    cbn [app stripFences] in *.
    destruct (matchAt [cz]) as [[|k]|]; try (now exists []).
    specialize (M2 _ eq_refl). simpl in M2. lia.
  - destruct (matchAt_barrier (x :: P)) as [_ M2].
    cbn [app stripFences length] in *.
    destruct n as [|n]; [|apply IH; lia].
    destruct (matchAt (x :: P ++ [cz])) as [[|k]|].
    + destruct (IH 0) as [X E]; [lia|]. exists (x :: X). now rewrite E.
    + apply IH. specialize (M2 _ eq_refl). lia.
    + destruct (IH 0) as [X E]; [lia|]. exists (x :: X). now rewrite E.
Qed.

End Barrier.

(** *** Texts the clean-up leaves whole between their ends *)

Lemma opener_facts (c : char) :
  isOpener c = true ->
  isWhiteSpace c = false /\ (backtick =? c)%N = false /\ (ch "j" =? c)%N = false.
Proof.
  unfold isOpener. intros H.
  apply andb_true_iff in H as [H Hj]. apply andb_true_iff in H as [Hs Hb].
  apply negb_true_iff in Hs, Hb, Hj.
  now rewrite (N.eqb_sym backtick), (N.eqb_sym (ch "j")).
Qed.

Lemma stripFences_core (core T : jsstring) :
  isCore core ->
  stripFences 0 (core ++ T) = stripFences 0 core ++ stripFences 0 T
  /\ exists c0 tl0 bz cz,
       stripFences 0 core = c0 :: tl0 /\ stripFences 0 core = bz ++ [cz]
       /\ isWhiteSpace c0 = false /\ isWhiteSpace cz = false.
Proof.
  intros (c0 & tl0 & bz & cz & E0 & Ez & H0 & Hz).
  destruct (opener_facts _ H0) as (Hs & Hb & _).
  split.
  - rewrite Ez, <- app_assoc. cbn [app].
    apply (stripFences_barrier cz T Hz bz 0). simpl; lia.
  - destruct (stripFences_ends cz [] Hz bz 0) as [X EX]; [lia|].
    exists c0, (stripFences 0 tl0), X, cz. repeat split.
    + rewrite E0. apply (stripFences_blank_then [] c0 tl0 eq_refl Hs Hb).
    + now rewrite Ez.
    + exact Hs.
    + apply (barrier_solid cz Hz).
Qed.

(** The clean-up of a framed text: the scan of its core. *)
Lemma cleaned_framed (lead core trail : jsstring) :
  blank lead = true -> blank trail = true -> isCore core ->
  cleanedResponse (lead ++ core ++ trail) = stripFences 0 core.
Proof.
  intros Hl Ht Hc.
  destruct (stripFences_core core trail Hc)
    as (E & c0 & tl0 & bz & cz & S0 & Sz & H0 & Hz).
  destruct Hc as (d0 & dl & _ & _ & D0 & _ & Hd & _).
  destruct (opener_facts _ Hd) as (Hs & Hb & _).
  unfold cleanedResponse.
  rewrite D0 at 1. cbn [app].
  rewrite (stripFences_blank_then lead d0 (dl ++ trail) Hl Hs Hb).
  assert (R : d0 :: stripFences 0 (dl ++ trail) = stripFences 0 (core ++ trail)).
  { rewrite D0. cbn [app]. symmetry.
    apply (stripFences_blank_then [] d0 (dl ++ trail) eq_refl Hs Hb). }
  rewrite R, E, (stripFences_blank _ Ht).
  now apply (trim_core lead trail _ c0 cz tl0 bz).
Qed.

(** Both sides are the same concatenation, bracketed differently. *)
Ltac reassoc :=
  repeat (progress (rewrite <- ?app_assoc; cbn [app])); reflexivity.

(** The clean-up of a framed text inside a fence is the clean-up of the
    text itself. *)
Lemma cleaned_fenced (tag ws1 text ws2 ws3 : jsstring) :
  tag = [] \/ tag = lit "json" ->
  blank ws1 = true -> blank ws2 = true -> blank ws3 = true ->
  framed text ->
  cleanedResponse (fenced tag ws1 text ws2 ws3) = cleanedResponse text.
Proof.
  intros Htag H1 H2 H3 (lead & core & trail & -> & Hl & Ht & Hc).
  rewrite (cleaned_framed lead core trail Hl Ht Hc).
  pose proof Hc as (d0 & dl & _ & _ & D0 & _ & Hd & _).
  destruct (opener_facts _ Hd) as (Hs & Hb & Hj).
  assert (B1 : blank (ws1 ++ lead) = true) by now rewrite blank_app, H1, Hl.
  assert (B2 : blank (trail ++ ws2) = true) by now rewrite blank_app, Ht, H2.
  assert (Tail : forall pre,
             blank pre = true ->
             cleanedResponse (pre ++ core ++ (trail ++ ws2) ++ fence ++ ws3)
             = stripFences 0 core).
  { intros pre Hpre.
    destruct (stripFences_core core ((trail ++ ws2) ++ fence ++ ws3) Hc)
      as (E & c0 & tl0 & bz & cz & S0 & Sz & H0 & Hz).
    unfold cleanedResponse. rewrite D0 at 1. cbn [app].
    rewrite (stripFences_blank_then pre d0 _ Hpre Hs Hb).
    assert (R : d0 :: stripFences 0 (dl ++ (trail ++ ws2) ++ fence ++ ws3)
                = stripFences 0 (core ++ (trail ++ ws2) ++ fence ++ ws3)).
    { rewrite D0. cbn [app]. symmetry.
      apply (stripFences_blank_then [] d0 _ eq_refl Hs Hb). }
    rewrite R, E, (stripFences_closing _ _ B2 H3).
    now apply (trim_core pre ws3 _ c0 cz tl0 bz). }
  unfold fenced. destruct Htag as [-> | ->].
  - cbn [app].
    replace (fence ++ ws1 ++ (lead ++ core ++ trail) ++ ws2 ++ fence ++ ws3)
      with (fence ++ (ws1 ++ lead) ++ d0 :: dl ++ (trail ++ ws2) ++ fence ++ ws3)
      by (rewrite D0; reassoc).
    unfold cleanedResponse at 1.
    rewrite (stripFences_bare (ws1 ++ lead) d0 _ B1 Hj).
    change (trim (stripFences 0 ((ws1 ++ lead) ++ d0 :: dl ++ (trail ++ ws2) ++ fence ++ ws3)))
      with (cleanedResponse ((ws1 ++ lead) ++ (d0 :: dl) ++ (trail ++ ws2) ++ fence ++ ws3)).
    rewrite <- D0. now apply Tail.
  - replace (fence ++ lit "json" ++ ws1 ++ (lead ++ core ++ trail) ++ ws2 ++ fence ++ ws3)
      with ((fence ++ lit "json" ++ ws1 ++ lead) ++ d0 :: dl ++ (trail ++ ws2) ++ fence ++ ws3)
      by (rewrite D0; reassoc).
    unfold cleanedResponse at 1.
    rewrite (stripFences_tagged (ws1 ++ lead) d0 _ B1 Hs).
    change (trim (stripFences 0 (d0 :: dl ++ (trail ++ ws2) ++ fence ++ ws3)))
      with (cleanedResponse ([] ++ (d0 :: dl) ++ (trail ++ ws2) ++ fence ++ ws3)).
    rewrite <- D0. now apply Tail.
Qed.

Lemma matchClosing_no_backtick (s : jsstring) :
  forallb (fun c => negb (c =? backtick)%N) s = true -> matchClosing s = None.
Proof.
  induction s as [|c r IH]; [reflexivity|].
  intros H. simpl in H. apply andb_true_iff in H as [Hc Hr].
  apply negb_true_iff in Hc. rewrite N.eqb_sym in Hc.
  cbn [matchClosing]. rewrite (IH Hr), (startsWith_fence_not _ _ Hc).
  now destruct (isWhiteSpace c).
Qed.

Lemma stripFences_no_backtick (s : jsstring) :
  forallb (fun c => negb (c =? backtick)%N) s = true -> stripFences 0 s = s.
Proof.
  induction s as [|c r IH]; [reflexivity|].
  intros H. pose proof H as H'. simpl in H'.
  apply andb_true_iff in H' as [Hc Hr].
  apply negb_true_iff in Hc. rewrite N.eqb_sym in Hc.
  rewrite stripFences_keep, (IH Hr); [reflexivity|].
  unfold matchAt. rewrite (matchTagged_not_backtick _ _ Hc).
  now apply matchClosing_no_backtick.
Qed.

Lemma stripPrefix_same (a p s : jsstring) :
  stripPrefix (a ++ p) (a ++ s) = stripPrefix p s.
Proof.
  induction a as [|x a IH]; [reflexivity|].
  cbn [app stripPrefix]. now rewrite N.eqb_refl.
Qed.

(** White space and a fence are one match of the second alternative,
    unless they are a fence with its tag. *)
Lemma stripFences_fence (ws R : jsstring) :
  blank ws = true ->
  ws <> [] \/ startsWith R (lit "json") = false ->
  stripFences 0 (ws ++ fence ++ R) = stripFences 0 R.
Proof.
  intros Hws Hcase.
  assert (M : matchAt (ws ++ fence ++ R) = Some (length (ws ++ fence))).
  { unfold matchAt.
    assert (T : matchTagged (ws ++ fence ++ R) = None).
    { destruct ws as [|w ws].
      - destruct Hcase as [N|S]; [contradiction|].
        unfold matchTagged. cbn [app]. rewrite stripPrefix_same.
        rewrite startsWith_stripPrefix in S.
        now destruct (stripPrefix (lit "json") R).
      - simpl in Hws. apply andb_true_iff in Hws as [Hw _].
        apply matchTagged_not_backtick, space_not_backtick, Hw. }
    rewrite T, (matchClosing_blank_fence _ _ Hws). now rewrite length_app. }
  assert (E : length (ws ++ fence) = S (length ws + 2))
    by (rewrite length_app; simpl; lia).
  rewrite E in M. rewrite (stripFences_match _ _ M), <- E.
  now rewrite app_assoc, skipn_exact.
Qed.

(** White space before a fence without a tag goes with the fence. *)
Lemma cleaned_after_space (lead ws1 text ws2 ws3 : jsstring) :
  blank lead = true ->
  blank ws1 = true -> blank ws2 = true -> blank ws3 = true ->
  framed text ->
  cleanedResponse (lead ++ fenced [] ws1 text ws2 ws3) = cleanedResponse text.
Proof.
  intros Hl H1 H2 H3 F.
  rewrite <- (cleaned_fenced [] ws1 text ws2 ws3 (or_introl eq_refl) H1 H2 H3 F).
  destruct lead as [|x lead]; [reflexivity|].
  destruct F as (lead' & core & trail & -> & Hl' & _ & (d0 & dl & _ & _ & -> & _ & Hd & _)).
  destruct (opener_facts _ Hd) as (_ & _ & Hj).
  set (R := ws1 ++ (lead' ++ (d0 :: dl) ++ trail) ++ ws2 ++ fence ++ ws3).
  assert (E1 : stripFences 0 ((x :: lead) ++ fence ++ R) = stripFences 0 R).
  { apply stripFences_fence; [exact Hl|left; discriminate]. }
  assert (E2 : stripFences 0 (fence ++ R) = stripFences 0 R).
  { replace R with ((ws1 ++ lead') ++ d0 :: dl ++ trail ++ ws2 ++ fence ++ ws3)
      by (unfold R; reassoc).
    apply stripFences_bare; [|exact Hj]. now rewrite blank_app, H1, Hl'. }
  unfold cleanedResponse, fenced.
  change ((x :: lead) ++ fence ++ [] ++ ws1 ++ (lead' ++ (d0 :: dl) ++ trail)
          ++ ws2 ++ fence ++ ws3)
    with ((x :: lead) ++ fence ++ R).
  change (fence ++ [] ++ ws1 ++ (lead' ++ (d0 :: dl) ++ trail) ++ ws2 ++ fence ++ ws3)
    with (fence ++ R).
  now rewrite E1, E2.
Qed.

(** ** What [JSON.parse] accepts *)

(** The parser on some texts: a leading zero, a trailing comma and a bare
    point are refused; a number too small for a double is falsy. *)
Example parseJSON_samples :
  parseJSON (lit " [1, -2.50e3, true, null, {}] ")
  = Some (VArray [VNumber 1 0; VNumber (-250) 1; VBool true; VNull; VObject []])
  /\ parseJSON (lit "01") = None
  /\ parseJSON (lit "[1,]") = None
  /\ parseJSON (lit "1.e3") = None
  /\ parseJSON (lit "{} x") = None
  /\ option_map truthy (parseJSON (lit "1e-400")) = Some false
  /\ option_map truthy (parseJSON (lit "1e-300")) = Some true
  /\ option_map truthy (parseJSON (lit "-0.0")) = Some false.
Proof. repeat split; vm_compute; reflexivity. Qed.

(** The order of the keys: the array indices first, ascending, then the
    other names as they come; a repeated name keeps its place and takes
    the last value. *)
Example parseJSON_key_order :
  parseJSON (lit "{" ++ quoted "b" ++ lit ":1," ++ quoted "10" ++ lit ":2,"
             ++ quoted "9" ++ lit ":3," ++ quoted "b" ++ lit ":4,"
             ++ quoted "01" ++ lit ":5}")
  = Some (VObject [(lit "9", VNumber 3 0); (lit "10", VNumber 2 0);
                   (lit "b", VNumber 4 0); (lit "01", VNumber 5 0)]).
Proof. vm_compute. reflexivity. Qed.

(** Case analysis on comparisons of a code unit with constants. *)
Ltac char_cases :=
  repeat match goal with
    | |- context [(?a =? ?b)%N] => destruct (N.eqb_spec a b); try lia
    | |- context [(?a <=? ?b)%N] => destruct (N.leb_spec a b); try lia
    end;
  try reflexivity; try discriminate.

Lemma digit_range (c : char) : isDigit c = true -> (48 <= c <= 57)%N.
Proof.
  unfold isDigit. intros H. apply andb_true_iff in H as [H1 H2].
  apply N.leb_le in H1, H2. lia.
Qed.

Lemma valueStart_opener (c : char) : isValueStart c = true -> isOpener c = true.
Proof.
  unfold isValueStart. intros H.
  repeat (apply orb_true_iff in H as [H|H]);
    try (apply N.eqb_eq in H; subst c; reflexivity).
  apply digit_range in H.
  unfold isOpener, isWhiteSpace, backtick, ch; simpl N_of_ascii. char_cases.
Qed.

Lemma valueEnd_barrier (c : char) : isValueEnd c = true -> isBarrier c = true.
Proof.
  unfold isValueEnd. intros H.
  repeat (apply orb_true_iff in H as [H|H]);
    try (apply N.eqb_eq in H; subst c; reflexivity).
  apply digit_range in H.
  unfold isBarrier, isWhiteSpace, backtick, ch; simpl N_of_ascii. char_cases.
Qed.

Lemma jsonCore_isCore (core : jsstring) : jsonCore core -> isCore core.
Proof.
  intros (c0 & tl0 & bz & cz & E0 & Ez & H0 & Hz).
  exists c0, tl0, bz, cz. repeat split; auto using valueStart_opener, valueEnd_barrier.
Qed.

Lemma jsonCore_intro (c0 : char) (mid : jsstring) (cz : char) :
  isValueStart c0 = true -> isValueEnd cz = true -> jsonCore (c0 :: mid ++ [cz]).
Proof.
  intros H0 Hz. exists c0, (mid ++ [cz]), (c0 :: mid), cz. auto.
Qed.

Lemma jsonSpace_space (c : char) : isJSONSpace c = true -> isWhiteSpace c = true.
Proof.
  unfold isJSONSpace. intros H.
  repeat (apply orb_true_iff in H as [H|H]);
    apply N.eqb_eq in H; subst c; reflexivity.
Qed.

Lemma skipWS_split (s : jsstring) :
  exists ws, s = ws ++ skipWS s /\ blank ws = true.
Proof.
  induction s as [|c s (ws & E & B)]; simpl.
  - now exists [].
  - destruct (isJSONSpace c) eqn:Hc.
    + exists (c :: ws). simpl. rewrite (jsonSpace_space _ Hc), B.
      split; [now rewrite <- E|reflexivity].
    + now exists [].
Qed.

Lemma skipWS_nil (s : jsstring) : skipWS s = [] -> blank s = true.
Proof.
  intros H. destruct (skipWS_split s) as (ws & E & B).
  rewrite H, app_nil_r in E. now subst.
Qed.

Lemma spanDigits_inv (s ds r : jsstring) :
  spanDigits s = (ds, r) -> s = ds ++ r /\ forallb isDigit ds = true.
Proof.
  revert ds r; induction s as [|c s IH]; simpl; intros ds r H.
  - injection H as <- <-. auto.
  - destruct (isDigit c) eqn:Hc.
    + destruct (spanDigits s) as [ds' r'] eqn:E. injection H as <- <-.
      destruct (IH _ _ eq_refl) as [-> Hd]. simpl. now rewrite Hc.
    + injection H as <- <-. auto.
Qed.

Lemma digits_endsDigit (ds : jsstring) :
  ds <> [] -> forallb isDigit ds = true -> endsDigit ds.
Proof.
  intros Hne Hd. destruct (exists_last Hne) as (b & z & ->).
  rewrite forallb_app in Hd. apply andb_true_iff in Hd as [_ Hz].
  simpl in Hz. rewrite andb_true_r in Hz. now exists b, z.
Qed.

Lemma endsDigit_app (a l : jsstring) : endsDigit l -> endsDigit (a ++ l).
Proof.
  intros (b & z & -> & Hz). exists (a ++ b), z. now rewrite app_assoc.
Qed.

Lemma endsDigit_suffix (a x : jsstring) :
  endsDigit a -> x = [] \/ endsDigit x -> endsDigit (a ++ x).
Proof.
  intros Ha [-> | Hx]; [now rewrite app_nil_r|now apply endsDigit_app].
Qed.

Lemma isEmpty_false (s : jsstring) : isEmpty s = false -> s <> [].
Proof. destruct s; [discriminate|congruence]. Qed.

Lemma parseFraction_inv (s fp r : jsstring) :
  parseFraction s = Some (fp, r) ->
  exists F, s = F ++ r /\ (F = [] \/ endsDigit F).
Proof.
  unfold parseFraction. destruct s as [|c s].
  - intros H. injection H as <- <-. exists []. auto.
  - destruct (c =? ch ".")%N.
    + destruct (spanDigits s) as [ds r'] eqn:E.
      destruct (isEmpty ds) eqn:Hds; [discriminate|].
      intros H. injection H as <- <-.
      destruct (spanDigits_inv _ _ _ E) as [-> Hd].
      exists (c :: ds). split; [reflexivity|right].
      apply (endsDigit_app [c]), digits_endsDigit; auto using isEmpty_false.
    + intros H. injection H as <- <-. exists []. auto.
Qed.

Lemma exponent_digits (pre r1 r : jsstring) (ex : Z) :
  (let (ep, rest) := spanDigits r1 in
   if isEmpty ep then None else Some (ex, rest)) = Some (ex, r) ->
  exists E, pre ++ r1 = E ++ r /\ (E = [] \/ endsDigit E).
Proof.
  destruct (spanDigits r1) as [ep rest] eqn:E.
  destruct (isEmpty ep) eqn:He; [discriminate|].
  intros H. injection H as <-.
  destruct (spanDigits_inv _ _ _ E) as [-> Hd].
  exists (pre ++ ep). split; [now rewrite app_assoc|right].
  apply endsDigit_app, digits_endsDigit; auto using isEmpty_false.
Qed.

Lemma parseExponent_inv (s : jsstring) (ex : Z) (r : jsstring) :
  parseExponent s = Some (ex, r) ->
  exists E, s = E ++ r /\ (E = [] \/ endsDigit E).
Proof.
  unfold parseExponent. destruct s as [|c s].
  - intros H. injection H as <- <-. exists []. auto.
  - destruct ((c =? ch "e") || (c =? ch "E"))%N.
    + destruct s as [|x s'].
      * discriminate.
      * destruct (x =? ch "-")%N; [|destruct (x =? ch "+")%N].
        -- destruct (spanDigits s') as [ep rest] eqn:E.
           destruct (isEmpty ep) eqn:He; [discriminate|].
           intros H. injection H as _ <-.
           apply (exponent_digits [c; x] s' rest 0%Z).
           now rewrite E, He.
        -- destruct (spanDigits s') as [ep rest] eqn:E.
           destruct (isEmpty ep) eqn:He; [discriminate|].
           intros H. injection H as _ <-.
           apply (exponent_digits [c; x] s' rest 0%Z).
           now rewrite E, He.
        -- destruct (spanDigits (x :: s')) as [ep rest] eqn:E.
           destruct (isEmpty ep) eqn:He; [discriminate|].
           intros H. injection H as _ <-.
           apply (exponent_digits [c] (x :: s') rest 0%Z).
           now rewrite E, He.
    + intros H. injection H as <- <-. exists []. auto.
Qed.

Lemma integer_part (c : char) (r ip s2 : jsstring) :
  isDigit c = true ->
  (if (c =? 48)%N then ([c], r) else spanDigits (c :: r)) = (ip, s2) ->
  exists ip', ip = c :: ip' /\ c :: r = ip ++ s2 /\ endsDigit ip.
Proof.
  intros Hc. destruct (c =? 48)%N.
  - intros H. injection H as <- <-. exists []. repeat split.
    now exists [], c.
  - intros H. destruct (spanDigits_inv _ _ _ H) as [E Hd].
    simpl in H. rewrite Hc in H. destruct (spanDigits r) as [ds rest].
    injection H as <- <-. exists ds. repeat split; auto.
    apply digits_endsDigit; [discriminate|exact Hd].
Qed.

Lemma unsigned_number (c : char) (r : jsstring) (neg : bool) (m e : Z) (rest : jsstring) :
  (if isDigit c then
     let (ip, s2) := if (c =? 48)%N then ([c], r) else spanDigits (c :: r) in
     match parseFraction s2 with
     | Some (fp, s3) =>
         match parseExponent s3 with
         | Some (ex, s4) =>
             let m := digitsValue (ip ++ fp) in
             Some (if neg then (- m)%Z else m,
                   (ex - Z.of_nat (length fp))%Z, s4)
         | None => None
         end
     | None => None
     end
   else None) = Some (m, e, rest) ->
  isDigit c = true /\ exists body, c :: r = body ++ rest /\ endsDigit body.
Proof.
  destruct (isDigit c) eqn:Hc; [|discriminate].
  destruct (if (c =? 48)%N then ([c], r) else spanDigits (c :: r)) as [ip s2] eqn:Ei.
  destruct (integer_part _ _ _ _ Hc Ei) as (ip' & -> & E1 & D1).
  destruct (parseFraction s2) as [[fp s3]|] eqn:Ef; [|discriminate].
  destruct (parseExponent s3) as [[ex s4]|] eqn:Ee; [|discriminate].
  intros H. injection H as _ _ <-. split; [reflexivity|].
  destruct (parseFraction_inv _ _ _ Ef) as (F & -> & HF).
  destruct (parseExponent_inv _ _ _ Ee) as (E & -> & HE).
  exists (((c :: ip') ++ F) ++ E). split.
  - rewrite E1. now rewrite <- !app_assoc.
  - auto using endsDigit_suffix.
Qed.

(** A number literal starts with a minus sign or a digit and ends with a
    digit. *)
Lemma parseNumber_inv (s : jsstring) (m e : Z) (r : jsstring) :
  parseNumber s = Some (m, e, r) -> exists core, s = core ++ r /\ jsonCore core.
Proof.
  unfold parseNumber. destruct s as [|c s]; [discriminate|].
  destruct (N.eqb_spec c (ch "-")) as [->|Hm].
  - destruct s as [|d s]; [discriminate|].
    intros H.
    apply (unsigned_number d s true) in H as (Hd & body & E & b & z & -> & Hz).
    exists (ch "-" :: b ++ [z]). split.
    + simpl. now rewrite E.
    + apply jsonCore_intro; [reflexivity|].
      unfold isValueEnd. now rewrite Hz, orb_true_r.
  - intros H.
    apply (unsigned_number c s false) in H as (Hd & body & E & b & z & -> & Hz).
    exists (b ++ [z]). split; [exact E|].
    destruct b as [|c' b]; simpl in E; injection E as <- E.
    + exists c, [], [], c. repeat split; unfold isValueStart, isValueEnd;
        now rewrite Hd, orb_true_r.
    + apply jsonCore_intro; unfold isValueStart, isValueEnd;
        [now rewrite Hd, orb_true_r|now rewrite Hz, orb_true_r].
Qed.

(** A string literal ends with its closing quotation mark. *)
Lemma parseChars_inv (n : nat) (s acc str r : jsstring) :
  length s <= n -> parseChars s acc = Some (str, r) ->
  exists pre, s = pre ++ dquote :: r.
Proof.
  revert s acc; induction n as [|n IH]; intros s acc Hn;
    destruct s as [|c s]; try discriminate; simpl in Hn; [lia|].
  cbn [parseChars].
  destruct (N.eqb_spec c dquote) as [->|_].
  { intros H. injection H as _ <-. now exists []. }
  destruct (c =? ch "\")%N.
  - destruct s as [|e s]; [discriminate|].
    destruct (e =? ch "u")%N.
    + destruct s as [|h1 [|h2 [|h3 [|h4 s]]]]; try discriminate.
      destruct (hexValue h1), (hexValue h2), (hexValue h3), (hexValue h4);
        try discriminate.
      intros H. apply IH in H as [pre ->]; [|simpl in Hn; lia].
      now exists (c :: e :: h1 :: h2 :: h3 :: h4 :: pre).
    + destruct (unescape e); [|discriminate].
      intros H. apply IH in H as [pre ->]; [|simpl in Hn; lia].
      now exists (c :: e :: pre).
  - destruct (c <? 32)%N; [discriminate|].
    intros H. apply IH in H as [pre ->]; [|lia].
    now exists (c :: pre).
Qed.

Lemma parseLiteral_inv (w : jsstring) (v0 v : value) (s r : jsstring) :
  jsonCore w -> parseLiteral w v0 s = Some (v, r) ->
  exists core, s = core ++ r /\ jsonCore core.
Proof.
  unfold parseLiteral. intros Hw.
  destruct (stripPrefix w s) as [r'|] eqn:E; [|discriminate].
  intros H. injection H as _ <-. exists w. split; [|exact Hw].
  now apply stripPrefix_inv.
Qed.

(** What [parseValue] reads is the text of a value, and what it returns is
    the text after it; an element list ends with its bracket and a member
    list with its brace. *)
Lemma parse_inv (fuel : nat) :
  (forall s v r, parseValue fuel s = Some (v, r) ->
                 exists core, s = core ++ r /\ jsonCore core)
  /\ (forall s acc v r, parseElements fuel s acc = Some (v, r) ->
                        exists pre, s = pre ++ ch "]" :: r)
  /\ (forall s acc v r, parseMembers fuel s acc = Some (v, r) ->
                        exists pre, s = pre ++ ch "}" :: r).
Proof.
  induction fuel as [|f (IHv & IHe & IHm)];
    [repeat split; intros; discriminate|].
  repeat split.
  - (* a value *)
    intros [|c r0] v r; [discriminate|]. cbn [parseValue].
    destruct (N.eqb_spec c (ch "{")) as [->|_].
    { destruct (skipWS_split r0) as (ws & E & B).
      destruct (skipWS r0) as [|c' r'] eqn:Es; [discriminate|].
      destruct (N.eqb_spec c' (ch "}")) as [->|_].
      - intros H. injection H as _ <-. exists (ch "{" :: ws ++ [ch "}"]).
        split; [rewrite E; reassoc|now apply jsonCore_intro].
      - intros H. apply IHm in H as [pre H].
        exists (ch "{" :: (ws ++ pre) ++ [ch "}"]).
        split; [rewrite E, H; reassoc|now apply jsonCore_intro]. }
    destruct (N.eqb_spec c (ch "[")) as [->|_].
    { destruct (skipWS_split r0) as (ws & E & B).
      destruct (skipWS r0) as [|c' r'] eqn:Es; [discriminate|].
      destruct (N.eqb_spec c' (ch "]")) as [->|_].
      - intros H. injection H as _ <-. exists (ch "[" :: ws ++ [ch "]"]).
        split; [rewrite E; reassoc|now apply jsonCore_intro].
      - intros H. apply IHe in H as [pre H].
        exists (ch "[" :: (ws ++ pre) ++ [ch "]"]).
        split; [rewrite E, H; reassoc|now apply jsonCore_intro]. }
    destruct (N.eqb_spec c dquote) as [->|_].
    { destruct (parseChars r0 []) as [[str r']|] eqn:Ec; [|discriminate].
      intros H. injection H as _ <-.
      apply (parseChars_inv (length r0)) in Ec as [pre ->]; [|lia].
      exists (dquote :: pre ++ [dquote]).
      split; [reassoc|now apply jsonCore_intro]. }
    destruct (c =? ch "t")%N.
    { apply parseLiteral_inv.
      now apply (jsonCore_intro (ch "t") (lit "ru") (ch "e")). }
    destruct (c =? ch "f")%N.
    { apply parseLiteral_inv.
      now apply (jsonCore_intro (ch "f") (lit "als") (ch "e")). }
    destruct (c =? ch "n")%N.
    { apply parseLiteral_inv.
      now apply (jsonCore_intro (ch "n") (lit "ul") (ch "l")). }
    destruct (parseNumber (c :: r0)) as [[[m e] r']|] eqn:En; [|discriminate].
    intros H. injection H as _ <-. now apply parseNumber_inv in En.
  - (* the elements of an array *)
    intros s acc v r. cbn [parseElements].
    destruct (parseValue f s) as [[v1 r1]|] eqn:Ev; [|discriminate].
    apply IHv in Ev as (core & -> & _).
    destruct (skipWS_split r1) as (ws & E & _).
    destruct (skipWS r1) as [|c r'] eqn:Es; [discriminate|].
    destruct (N.eqb_spec c (ch ",")) as [->|_].
    + intros H. apply IHe in H as [pre H].
      destruct (skipWS_split r') as (ws' & E' & _).
      exists (core ++ ws ++ ch "," :: ws' ++ pre).
      rewrite E, E', H. reassoc.
    + destruct (N.eqb_spec c (ch "]")) as [->|_]; [|discriminate].
      intros H. injection H as _ <-. exists (core ++ ws). rewrite E. reassoc.
  - (* the members of an object *)
    intros [|c r0] acc v r; [discriminate|]. cbn [parseMembers].
    destruct (N.eqb_spec c dquote) as [->|_]; [|discriminate].
    destruct (parseChars r0 []) as [[k r1]|] eqn:Ec; [|discriminate].
    apply (parseChars_inv (length r0)) in Ec as [pk ->]; [|lia].
    destruct (skipWS_split r1) as (ws1 & E1 & _).
    destruct (skipWS r1) as [|c1 r2] eqn:Es1; [discriminate|].
    destruct (N.eqb_spec c1 (ch ":")) as [->|_]; [|discriminate].
    destruct (skipWS_split r2) as (ws2 & E2 & _).
    destruct (parseValue f (skipWS r2)) as [[v1 r3]|] eqn:Ev; [|discriminate].
    apply IHv in Ev as (core & Ev & _).
    destruct (skipWS_split r3) as (ws3 & E3 & _).
    destruct (skipWS r3) as [|c3 r4] eqn:Es3; [discriminate|].
    destruct (N.eqb_spec c3 (ch ",")) as [->|_].
    + intros H. apply IHm in H as [pre H].
      destruct (skipWS_split r4) as (ws4 & E4 & _).
      exists (dquote :: pk ++ dquote :: ws1 ++ ch ":" :: ws2 ++ core ++ ws3
              ++ ch "," :: ws4 ++ pre).
      rewrite E1, E2, Ev, E3, E4, H. reassoc.
    + destruct (N.eqb_spec c3 (ch "}")) as [->|_]; [|discriminate].
      intros H. injection H as _ <-.
      exists (dquote :: pk ++ dquote :: ws1 ++ ch ":" :: ws2 ++ core ++ ws3).
      rewrite E1, E2, Ev, E3. reassoc.
Qed.

(** A text [JSON.parse] accepts is framed: JSON's white space around the
    text of one value. *)
Lemma parseJSON_framed (text : jsstring) (v : value) :
  parseJSON text = Some v -> framed text.
Proof.
  unfold parseJSON. intros H.
  destruct (skipWS_split text) as (lead & E & Hl).
  destruct (parseValue (2 * length text + 2) (skipWS text)) as [[v' r]|] eqn:Ev;
    [|discriminate].
  destruct (isEmpty (skipWS r)) eqn:Er; [|discriminate].
  apply (proj1 (parse_inv _)) in Ev as (core & Ec & Hc).
  exists lead, core, r. repeat split.
  - now rewrite E at 1; rewrite Ec.
  - exact Hl.
  - apply skipWS_nil. now destruct (skipWS r).
  - now apply jsonCore_isCore.
Qed.

(** A text [JSON.parse] accepts starts with white space or with the
    first code unit of a value. *)
Lemma parseJSON_head (c : char) (Y : jsstring) (v : value) :
  parseJSON (c :: Y) = Some v -> isWhiteSpace c = true \/ isOpener c = true.
Proof.
  intros H. apply parseJSON_framed in H
    as (lead & core & trail & E & Hl & _ & (c0 & tl0 & _ & _ & E0 & _ & H0 & _)).
  destruct lead as [|x lead].
  - right. rewrite E0 in E. cbn [app] in E. now injection E as ->.
  - left. cbn [app] in E. injection E as -> _.
    simpl in Hl. now apply andb_true_iff in Hl as [Hx _].
Qed.

(** After white space, a fence with its tag leaves the tag at the head
    of the cleaned text, which then is no JSON. *)
Lemma tagged_after_space_unparsed (ws R : jsstring) :
  ws <> [] -> blank ws = true ->
  parseJSON (cleanedResponse (ws ++ fence ++ lit "json" ++ R)) = None.
Proof.
  intros Hne Hws. unfold cleanedResponse.
  rewrite (stripFences_fence ws (lit "json" ++ R) Hws (or_introl Hne)).
  change (lit "json" ++ R) with (ch "j" :: lit "son" ++ R).
  pose proof (stripFences_blank_then [] (ch "j") (lit "son" ++ R)
                eq_refl eq_refl eq_refl) as Hj.
  cbn [app] in Hj. rewrite Hj.
  destruct (trim_head (ch "j") (stripFences 0 (lit "son" ++ R)) eq_refl)
    as [Y ->].
  destruct (parseJSON (ch "j" :: Y)) as [v|] eqn:E; [|reflexivity].
  apply parseJSON_head in E as [E|E]; discriminate E.
Qed.

(** ** The parser does not depend on its fuel *)

Lemma parseValue_S (f : nat) (s : jsstring) :
  parseValue (S f) s =
  match s with
  | [] => None
  | c :: r =>
      if (c =? ch "{")%N then
        match skipWS r with
        | c' :: r' =>
            if (c' =? ch "}")%N then Some (VObject [], r')
            else parseMembers f (skipWS r) []
        | [] => None
        end
      else if (c =? ch "[")%N then
        match skipWS r with
        | c' :: r' =>
            if (c' =? ch "]")%N then Some (VArray [], r')
            else parseElements f (skipWS r) []
        | [] => None
        end
      else if (c =? dquote)%N then
        match parseChars r [] with
        | Some (str, r') => Some (VString str, r')
        | None => None
        end
      else if (c =? ch "t")%N then parseLiteral (lit "true") (VBool true) s
      else if (c =? ch "f")%N then parseLiteral (lit "false") (VBool false) s
      else if (c =? ch "n")%N then parseLiteral (lit "null") VNull s
      else
        match parseNumber s with
        | Some (m, e, r') => Some (VNumber m e, r')
        | None => None
        end
  end.
Proof. reflexivity. Qed.

Lemma parseElements_S (f : nat) (s : jsstring) (acc : list value) :
  parseElements (S f) s acc =
  match parseValue f s with
  | Some (v, r) =>
      match skipWS r with
      | c :: r' =>
          if (c =? ch ",")%N then parseElements f (skipWS r') (v :: acc)
          else if (c =? ch "]")%N then Some (VArray (rev (v :: acc)), r')
          else None
      | [] => None
      end
  | None => None
  end.
Proof. reflexivity. Qed.

Lemma parseMembers_S (f : nat) (s : jsstring) (acc : list (jsstring * value)) :
  parseMembers (S f) s acc =
  match s with
  | c :: r =>
      if (c =? dquote)%N then
        match parseChars r [] with
        | Some (k, r1) =>
            match skipWS r1 with
            | c1 :: r2 =>
                if (c1 =? ch ":")%N then
                  match parseValue f (skipWS r2) with
                  | Some (v, r3) =>
                      match skipWS r3 with
                      | c3 :: r4 =>
                          if (c3 =? ch ",")%N then
                            parseMembers f (skipWS r4) (defineOwn k v acc)
                          else if (c3 =? ch "}")%N then
                            Some (VObject (defineOwn k v acc), r4)
                          else None
                      | [] => None
                      end
                  | None => None
                  end
                else None
            | [] => None
            end
        | None => None
        end
      else None
  | [] => None
  end.
Proof. reflexivity. Qed.

Lemma skipWS_length (s : jsstring) : length (skipWS s) <= length s.
Proof.
  destruct (skipWS_split s) as (ws & E & _).
  rewrite E at 2. rewrite length_app. lia.
Qed.

Lemma parseValue_length (f : nat) (s : jsstring) (v : value) (r : jsstring) :
  parseValue f s = Some (v, r) -> length r < length s.
Proof.
  intros H. apply (proj1 (parse_inv f)) in H as (core & -> & c0 & tl0 & _ & _ & -> & _).
  simpl. rewrite length_app. lia.
Qed.

Lemma parseElements_length (f : nat) (s : jsstring) (acc : list value)
  (v : value) (r : jsstring) :
  parseElements f s acc = Some (v, r) -> length r < length s.
Proof.
  intros H. apply (proj1 (proj2 (parse_inv f))) in H as (pre & ->).
  rewrite length_app. simpl. lia.
Qed.

Lemma parseMembers_length (f : nat) (s : jsstring) (acc : list (jsstring * value))
  (v : value) (r : jsstring) :
  parseMembers f s acc = Some (v, r) -> length r < length s.
Proof.
  intros H. apply (proj2 (proj2 (parse_inv f))) in H as (pre & ->).
  rewrite length_app. simpl. lia.
Qed.

Lemma parseChars_length (s acc str r : jsstring) :
  parseChars s acc = Some (str, r) -> length r < length s.
Proof.
  intros H. apply (parseChars_inv (length s)) in H as (pre & ->); [|lia].
  rewrite length_app. simpl. lia.
Qed.

(** A result read with some fuel is read with any fuel from twice the
    number of code units read. *)
Lemma parse_fuel (f : nat) :
  (forall s v r, parseValue f s = Some (v, r) ->
     forall g, 2 * (length s - length r) - 1 <= g -> parseValue g s = Some (v, r))
  /\ (forall s acc v r, parseElements f s acc = Some (v, r) ->
        forall g, 2 * (length s - length r) <= g ->
                  parseElements g s acc = Some (v, r))
  /\ (forall s acc v r, parseMembers f s acc = Some (v, r) ->
        forall g, 2 * (length s - length r) <= g ->
                  parseMembers g s acc = Some (v, r)).
Proof.
  induction f as [|f (IHv & IHe & IHm)];
    [repeat split; intros; discriminate|].
  split; [|split].
  - (* a value *)
    intros s v r H g Hg.
    pose proof (parseValue_length _ _ _ _ H) as L.
    destruct g as [|g]; [lia|].
    rewrite parseValue_S in *. destruct s as [|c r0]; [discriminate|].
    destruct (c =? ch "{")%N.
    { pose proof (skipWS_length r0) as L0.
      destruct (skipWS r0) as [|c' r'] eqn:Es; [discriminate|].
      destruct (c' =? ch "}")%N; [exact H|].
      pose proof (parseMembers_length _ _ _ _ _ H) as L1.
      apply (IHm _ _ _ _ H). simpl length in *. lia. }
    destruct (c =? ch "[")%N.
    { pose proof (skipWS_length r0) as L0.
      destruct (skipWS r0) as [|c' r'] eqn:Es; [discriminate|].
      destruct (c' =? ch "]")%N; [exact H|].
      pose proof (parseElements_length _ _ _ _ _ H) as L1.
      apply (IHe _ _ _ _ H). simpl length in *. lia. }
    exact H.
  - (* the elements of an array *)
    intros s acc v r H g Hg.
    pose proof (parseElements_length _ _ _ _ _ H) as L.
    destruct g as [|g]; [lia|].
    rewrite parseElements_S in *.
    destruct (parseValue f s) as [[v1 r1]|] eqn:Ev; [|discriminate].
    pose proof (parseValue_length _ _ _ _ Ev) as L1.
    pose proof (skipWS_length r1) as L2.
    destruct (skipWS r1) as [|c r'] eqn:Es; [discriminate|].
    simpl length in L2.
    assert (Lr : length r <= length r').
    { destruct (c =? ch ",")%N.
      - pose proof (parseElements_length _ _ _ _ _ H).
        pose proof (skipWS_length r'). lia.
      - destruct (c =? ch "]")%N; [|discriminate].
        injection H as _ <-. lia. }
    rewrite (IHv _ _ _ Ev g) by lia. rewrite Es.
    destruct (c =? ch ",")%N; [|exact H].
    pose proof (skipWS_length r').
    apply (IHe _ _ _ _ H). lia.
  - (* the members of an object *)
    intros s acc v r H g Hg.
    pose proof (parseMembers_length _ _ _ _ _ H) as L.
    destruct g as [|g]; [lia|].
    rewrite parseMembers_S in *. destruct s as [|c r0]; [discriminate|].
    destruct (c =? dquote)%N; [|discriminate].
    destruct (parseChars r0 []) as [[k r1]|] eqn:Ec; [|discriminate].
    pose proof (parseChars_length _ _ _ _ Ec) as L1.
    pose proof (skipWS_length r1) as L2.
    destruct (skipWS r1) as [|c1 r2] eqn:Es1; [discriminate|].
    destruct (c1 =? ch ":")%N; [|discriminate].
    pose proof (skipWS_length r2) as L3.
    destruct (parseValue f (skipWS r2)) as [[v1 r3]|] eqn:Ev; [|discriminate].
    pose proof (parseValue_length _ _ _ _ Ev) as L4.
    pose proof (skipWS_length r3) as L5.
    destruct (skipWS r3) as [|c3 r4] eqn:Es3; [discriminate|].
    simpl length in *.
    assert (Lr : length r <= length r4).
    { destruct (c3 =? ch ",")%N.
      - pose proof (parseMembers_length _ _ _ _ _ H).
        pose proof (skipWS_length r4). lia.
      - destruct (c3 =? ch "}")%N; [|discriminate].
        injection H as _ <-. lia. }
    rewrite (IHv _ _ _ Ev g) by lia. rewrite Es3.
    destruct (c3 =? ch ",")%N; [|exact H].
    pose proof (skipWS_length r4).
    apply (IHm _ _ _ _ H). lia.
Qed.

(** So the fuel [parseJSON] gives is enough: a text that parses with any
    fuel at all parses with it, to the same value. *)
Theorem parseJSON_fuel_enough (f : nat) (text : jsstring) (v : value) (r : jsstring) :
  parseValue f (skipWS text) = Some (v, r) -> skipWS r = [] ->
  parseJSON text = Some v.
Proof.
  intros H Hr. unfold parseJSON.
  pose proof (skipWS_length text) as L.
  rewrite (proj1 (parse_fuel f) _ _ _ H) by lia.
  now rewrite Hr.
Qed.

(** ** A well-formed response *)

Lemma hexValue_hexDigit (n : N) : (n < 16)%N -> hexValue (hexDigit n) = Some n.
Proof.
  intros H. unfold hexDigit, hexValue, isDigit.
  destruct (N.ltb_spec n 10).
  - replace ((48 <=? 48 + n) && (48 + n <=? 57))%N with true.
    + f_equal. lia.
    + symmetry. apply andb_true_iff. split; apply N.leb_le; lia.
  - replace ((48 <=? 87 + n) && (87 + n <=? 57))%N with false.
    + replace ((97 <=? 87 + n) && (87 + n <=? 102))%N with true.
      * f_equal. lia.
      * symmetry. apply andb_true_iff. split; apply N.leb_le; lia.
    + symmetry. apply andb_false_iff. right. apply N.leb_gt. lia.
Qed.

(** Reading an escaped string gives the string back. *)
Lemma parseChars_escaped (s acc rest : jsstring) :
  parseChars (flat_map escapeChar s ++ dquote :: rest) acc = Some (rev acc ++ s, rest).
Proof.
  revert acc; induction s as [|c s IH]; intros acc.
  - simpl. now rewrite app_nil_r.
  - cbn [flat_map]. rewrite <- app_assoc. unfold escapeChar at 1.
    destruct (N.eqb_spec c dquote) as [->|Hq].
    { cbn [orb app parseChars]. simpl. rewrite IH; simpl; now rewrite <- app_assoc. }
    destruct (N.eqb_spec c (ch "\")) as [->|Hb].
    { cbn [orb app parseChars]. simpl. rewrite IH; simpl; now rewrite <- app_assoc. }
    cbn [orb]. destruct (N.ltb_spec c 32) as [Hc|Hc].
    + change (lit "\u00") with [ch "\"; ch "u"; 48; 48]%N.
      cbn [app parseChars].
      change (ch "\" =? dquote)%N with false.
      change (ch "\" =? ch "\")%N with true.
      change (ch "u" =? ch "u")%N with true.
      change (hexValue 48%N) with (Some 0%N). cbv iota.
      rewrite !hexValue_hexDigit.
      * replace (4096 * 0 + 256 * 0 + 16 * (c / 16) + c mod 16)%N with c.
        -- rewrite IH; simpl; now rewrite <- app_assoc.
        -- pose proof (N.div_mod c 16). lia.
      * apply N.mod_lt. lia.
      * apply N.Div0.div_lt_upper_bound. lia.
    + cbn [app parseChars].
      destruct (N.eqb_spec c dquote); [contradiction|].
      destruct (N.eqb_spec c (ch "\")); [contradiction|].
      destruct (N.ltb_spec c 32); [lia|].
      rewrite IH; simpl; now rewrite <- app_assoc.
Qed.

(** The body of a well-formed response parses to the object it denotes,
    whatever the completion text. *)
Lemma parse_completionBody (content : jsstring) :
  parseJSON (completionBody content)
  = Some (VObject [(lit "choices",
            VArray [VObject [(lit "message",
                      VObject [(lit "content", VString content)])]])]).
Proof.
  apply (parseJSON_fuel_enough 10 _ _ []); [|reflexivity].
  unfold completionBody, stringLiteral.
  replace (lit ":" ++ (dquote :: flat_map escapeChar content ++ [dquote]) ++ lit "}}]}")
    with (lit ":" ++ dquote :: flat_map escapeChar content ++ dquote :: lit "}}]}")
    by (cbn [app]; now rewrite <- app_assoc).
  cbn -[flat_map escapeChar].
  rewrite parseChars_escaped. reflexivity.
Qed.

(** So the flow reads the completion text out of it, and what follows the
    request is the normalizer run on that text. *)
Lemma completionOf_completed (engineMessage : fault -> jsstring) (content : jsstring) :
  completionOf engineMessage (completedResponse content) = Normal content.
Proof.
  unfold completionOf, json, JSON_parse. cbn [completedResponse bodyText bind].
  rewrite parse_completionBody. reflexivity.
Qed.

Lemma analysisOf_completed (engineMessage : fault -> jsstring) (w content : jsstring) :
  analysisOf engineMessage w (completed content) = normalize engineMessage content w.
Proof.
  unfold completed. cbn [analysisOf]. rewrite completionOf_completed. reflexivity.
Qed.

(** ** The flow around the normalizer *)

Section FlowSteps.

Variable engineMessage : fault -> jsstring.

(** The flow on a blank search term. *)
Lemma analyzeWord_blank (net : fetched) (st : state) :
  blank (word st) = true ->
  analyzeWord engineMessage net st = (setError inputErrorMessage st, []).
Proof. intros B. unfold analyzeWord. now rewrite isEmpty_trim, B. Qed.

(** The flow on any other search term. *)
Lemma analyzeWord_run (net : fetched) (st : state) :
  blank (word st) = false ->
  analyzeWord engineMessage net st =
  (setLoading false
     match analysisOf engineMessage (trim (word st)) net with
     | Normal safe =>
         setRecentSearches (newSearches (trim (word st)) (recentSearches st))
           (setAnalysis (Some safe)
              (setAnalysis None (setError [] (setLoading true st))))
     | Throw err =>
         setError (report err)
           (setAnalysis None (setError [] (setLoading true st)))
     end,
   [completionRequest (trim (word st))]).
Proof. intros B. unfold analyzeWord. now rewrite isEmpty_trim, B. Qed.

(** A record the [try] block yields is what [safeAnalysis] made of some
    parsed payload. *)
Lemma analysisOf_normal (w : jsstring) (net : fetched) (safe : value) :
  analysisOf engineMessage w net = Normal safe ->
  exists payload, safeAnalysis engineMessage payload w = Normal safe.
Proof.
  destruct net as [e|r]; cbn [analysisOf]; [discriminate|].
  destruct (negb (ok r)); [discriminate|].
  destruct (completionOf engineMessage r) as [aiResponse|e]; [|discriminate].
  cbn [bind]. unfold normalize, JSON_parse.
  destruct (parseJSON (cleanedResponse aiResponse)) as [payload|]; [|discriminate].
  cbn [bind]. intros H. now exists payload.
Qed.

End FlowSteps.

(** ** The response normalizer *)

(** C3 on the code. A completion text that is a JSON payload inside a
    markdown code fence, with the language tag [json] or none, is
    normalized as the payload alone is, for every search term, and the
    whole flow ends in the same state; white space may stand after the
    opening fence, before the closing fence and after it, and before an
    opening fence without a tag. For a payload that holds no backtick and
    has no white space around it, the result is what [safeAnalysis] makes
    of the value of the payload: a record, unless that value is [null].
    But white space before an opening fence with the tag breaks this:
    the pattern takes the white space and the bare fence, the tag stays,
    and the normalizer throws the SyntaxError of [JSON.parse] where the
    payload alone gives its record. *)
Theorem fenced_payload_same_record
  (engineMessage : fault -> jsstring)
  (ws1 payload ws2 ws3 w : jsstring) (v : value) :
  parseJSON payload = Some v ->
  blank ws1 = true -> blank ws2 = true -> blank ws3 = true ->
  (forall lead tag,
     blank lead = true ->
     tag = [] \/ (tag = lit "json" /\ lead = []) ->
     normalize engineMessage (lead ++ fenced tag ws1 payload ws2 ws3) w
     = normalize engineMessage payload w
     /\ (forall st,
           analyzeWord engineMessage
             (completed (lead ++ fenced tag ws1 payload ws2 ws3)) st
           = analyzeWord engineMessage (completed payload) st)
     /\ (forallb (fun c => negb (c =? backtick)%N) payload = true ->
         trim payload = payload ->
         normalize engineMessage (lead ++ fenced tag ws1 payload ws2 ws3) w
         = safeAnalysis engineMessage v w
         /\ (v <> VNull ->
             exists props,
               normalize engineMessage (lead ++ fenced tag ws1 payload ws2 ws3) w
               = Normal (VObject props))))
  /\ (forall lead,
        blank lead = true -> lead <> [] ->
        normalize engineMessage
          (lead ++ fenced (lit "json") ws1 payload ws2 ws3) w
        = Throw {| errName := lit "SyntaxError";
                   errMessage :=
                     engineMessage
                       (NotJSON (cleanedResponse
                                   (lead ++ fenced (lit "json") ws1 payload ws2 ws3))) |}).
Proof.
  intros Hv H1 H2 H3. split.
  - intros lead tag Hl Htag.
    assert (E : cleanedResponse (lead ++ fenced tag ws1 payload ws2 ws3)
                = cleanedResponse payload).
    { destruct Htag as [->|[-> ->]].
      - apply cleaned_after_space; auto. exact (parseJSON_framed _ _ Hv).
      - apply cleaned_fenced; auto. exact (parseJSON_framed _ _ Hv). }
    assert (N : forall term,
               normalize engineMessage (lead ++ fenced tag ws1 payload ws2 ws3) term
               = normalize engineMessage payload term).
    { intros term. unfold normalize. now rewrite E. }
    split; [apply N|]. split.
    + intros st. unfold analyzeWord. now rewrite !analysisOf_completed, N.
    + intros Hb Ht.
      assert (S : normalize engineMessage payload w = safeAnalysis engineMessage v w).
      { unfold normalize, JSON_parse, cleanedResponse.
        now rewrite (stripFences_no_backtick _ Hb), Ht, Hv. }
      rewrite N, S. split; [reflexivity|].
      intros Hn. unfold safeAnalysis.
      destruct v; [now destruct Hn|..]; cbn [member bind]; eauto.
  - intros lead Hl Hne. unfold normalize, JSON_parse, fenced.
    now rewrite (tagged_after_space_unparsed lead _ Hne Hl).
Qed.

(** The payload [casaPayload] inside a fence, each fence on a line of its
    own: with the tag, and after an empty line without it, the record of
    the payload; after a space with the tag, a SyntaxError. *)
Lemma fenced_payload_same_record_witness :
  normalize plainMessage (fenced (lit "json") [10%N] casaPayload [10%N] []) (lit "casa")
  = Normal (VObject [(lit "word", VString (lit "casa"));
                     (lit "relatedEnglishWords", VArray []);
                     (lit "sampleSentences", VArray []);
                     (lit "confidence", VString (lit "medium"));
                     (lit "languageFamily", VString (lit "Romance"));
                     (lit "pronunciation", VString (lit "casa"))])
  /\ normalize plainMessage ([10%N] ++ fenced [] [10%N] casaPayload [10%N] [])
       (lit "casa")
     = normalize plainMessage casaPayload (lit "casa")
  /\ normalize plainMessage (lit " " ++ fenced (lit "json") [10%N] casaPayload [10%N] [])
       (lit "casa")
     = Throw {| errName := lit "SyntaxError";
                errMessage := lit "Unexpected token in JSON" |}.
Proof.
  destruct (fenced_payload_same_record plainMessage [10%N] casaPayload [10%N] []
              (lit "casa") (VObject [(lit "word", VString (lit "casa"))])
              eq_refl eq_refl eq_refl eq_refl) as [A B].
  split; [|split].
  - exact (proj1 (proj2 (proj2 (A [] (lit "json") eq_refl
                                  (or_intror (conj eq_refl eq_refl))))
                    eq_refl eq_refl)).
  - exact (proj1 (A [10%N] [] eq_refl (or_introl eq_refl))).
  - refine (B (lit " ") eq_refl _). discriminate.
Defined.

Lemma lookup_setProp_same (k : jsstring) (v : value) (ps : list (jsstring * value)) :
  lookup k (setProp k v ps) = Some v.
Proof.
  induction ps as [|[k' v'] ps IH]; simpl.
  - now rewrite streq_refl.
  - destruct (streq k k') eqn:E; simpl; rewrite ?streq_refl, ?E; auto.
Qed.

Lemma lookup_setProp_other (k k' : jsstring) (v : value) (ps : list (jsstring * value)) :
  streq k k' = false -> lookup k (setProp k' v ps) = lookup k ps.
Proof.
  intros Hk. induction ps as [|[k0 v0] ps IH]; simpl.
  - now rewrite Hk.
  - destruct (streq k' k0) eqn:E; simpl.
    + apply streq_eq in E. subst k0. now rewrite Hk.
    + now rewrite IH.
Qed.

Lemma member_of (engineMessage : fault -> jsstring) (payload : value) (k : jsstring) :
  payload <> VNull ->
  member engineMessage (Some payload) k = Normal (ownField payload k).
Proof. destruct payload; simpl; congruence. Qed.

(** [safeAnalysis] on a payload that is not [null]. *)
Lemma safeAnalysis_of (engineMessage : fault -> jsstring) (payload : value) (w : jsstring) :
  payload <> VNull ->
  safeAnalysis engineMessage payload w =
  Normal (VObject
    (setProp (lit "pronunciation")
       (orElse (ownField payload (lit "pronunciation")) (VString w))
    (setProp (lit "languageFamily")
       (orElse (ownField payload (lit "languageFamily")) (VString (lit "Romance")))
    (setProp (lit "confidence")
       (orElse (ownField payload (lit "confidence")) (VString (lit "medium")))
    (setProp (lit "sampleSentences")
       (orElse (ownField payload (lit "sampleSentences")) (VArray []))
    (setProp (lit "relatedEnglishWords")
       (orElse (ownField payload (lit "relatedEnglishWords")) (VArray []))
       (spread payload))))))).
Proof.
  intros H. unfold safeAnalysis. now rewrite !(member_of _ _ _ H).
Qed.

(** On [null] the first property read throws. *)
Lemma safeAnalysis_null (engineMessage : fault -> jsstring) (w : jsstring) :
  safeAnalysis engineMessage VNull w
  = raise engineMessage (NoBase (lit "relatedEnglishWords")).
Proof. reflexivity. Qed.

(** Rewriting a lookup through the five [setProp]s of [safeAnalysis]. *)
Ltac through_setProps :=
  repeat first
    [ rewrite lookup_setProp_same
    | rewrite lookup_setProp_other by reflexivity ].

(** C1, amended. For every parsed payload other than [null], the
    normalizer returns a record in which each of the five optional fields
    is the payload's own value when that is truthy and the default
    otherwise: the empty sequence for [relatedEnglishWords] and
    [sampleSentences], ["medium"] for [confidence], ["Romance"] for
    [languageFamily], the trimmed search term for [pronunciation]; so a
    missing field gets its default. A confidence that is a non-empty
    string is kept whatever it says. This record is what the flow stores
    when a response carries the text. *)
Theorem defaults_filled
  (engineMessage : fault -> jsstring) (aiResponse term : jsstring) (payload : value) :
  parseJSON (cleanedResponse aiResponse) = Some payload ->
  payload <> VNull ->
  exists props,
    normalize engineMessage aiResponse (trim term) = Normal (VObject props)
    /\ lookup (lit "relatedEnglishWords") props
       = Some (orElse (ownField payload (lit "relatedEnglishWords")) (VArray []))
    /\ lookup (lit "sampleSentences") props
       = Some (orElse (ownField payload (lit "sampleSentences")) (VArray []))
    /\ lookup (lit "confidence") props
       = Some (orElse (ownField payload (lit "confidence")) (VString (lit "medium")))
    /\ lookup (lit "languageFamily") props
       = Some (orElse (ownField payload (lit "languageFamily")) (VString (lit "Romance")))
    /\ lookup (lit "pronunciation") props
       = Some (orElse (ownField payload (lit "pronunciation")) (VString (trim term)))
    /\ (ownField payload (lit "relatedEnglishWords") = None ->
        lookup (lit "relatedEnglishWords") props = Some (VArray []))
    /\ (ownField payload (lit "sampleSentences") = None ->
        lookup (lit "sampleSentences") props = Some (VArray []))
    /\ (ownField payload (lit "confidence") = None ->
        lookup (lit "confidence") props = Some (VString (lit "medium")))
    /\ (ownField payload (lit "languageFamily") = None ->
        lookup (lit "languageFamily") props = Some (VString (lit "Romance")))
    /\ (ownField payload (lit "pronunciation") = None ->
        lookup (lit "pronunciation") props = Some (VString (trim term)))
    /\ (forall level, level <> [] ->
        ownField payload (lit "confidence") = Some (VString level) ->
        lookup (lit "confidence") props = Some (VString level))
    /\ (forall st, word st = term -> blank term = false ->
        analysis (fst (analyzeWord engineMessage (completed aiResponse) st))
        = Some (VObject props)).
Proof.
  intros Hp Hn.
  assert (E : normalize engineMessage aiResponse (trim term)
              = safeAnalysis engineMessage payload (trim term)).
  { unfold normalize, JSON_parse. now rewrite Hp. }
  rewrite (safeAnalysis_of _ _ _ Hn) in E.
  eexists. split; [exact E|].
  repeat split; through_setProps; try reflexivity;
    try (intros ->; reflexivity).
  - intros level Hl ->. destruct level; [contradiction|reflexivity].
  - intros st <- B.
    now rewrite (analyzeWord_run _ _ _ B), analysisOf_completed, E.
Qed.

(** The payload [casaPayload], which has neither a confidence nor a
    pronunciation, searched as " casa ". *)
Lemma defaults_filled_witness :
  exists props,
    normalize plainMessage casaPayload (trim (lit " casa ")) = Normal (VObject props)
    /\ lookup (lit "confidence") props = Some (VString (lit "medium"))
    /\ lookup (lit "pronunciation") props = Some (VString (lit "casa")).
Proof.
  destruct (defaults_filled plainMessage casaPayload (lit " casa ")
              (VObject [(lit "word", VString (lit "casa"))]))
    as (props & E & _ & _ & _ & _ & _ & _ & _ & Hc & _ & Hp & _ & _).
  - vm_compute. reflexivity.
  - discriminate.
  - exists props. repeat split; [exact E|now apply Hc|now apply Hp].
Defined.

(** C1 as stated fails twice. A confidence that is none of the three
    levels is not replaced by ["medium"]; and the payload [null] parses
    but gets no defaults, as reading its first property throws. *)
Lemma unrecognized_confidence_kept :
  (isConfidenceLevel (lit "certain") = false
   /\ exists props,
        normalize plainMessage certainPayload (lit "casa") = Normal (VObject props)
        /\ lookup (lit "confidence") props = Some (VString (lit "certain"))
        /\ lookup (lit "confidence") props <> Some (VString (lit "medium")))
  /\ (parseJSON (cleanedResponse (lit "null")) = Some VNull
      /\ normalize plainMessage (lit "null") (lit "casa")
         = Throw {| errName := lit "TypeError";
                    errMessage := plainMessage (NoBase (lit "relatedEnglishWords")) |}).
Proof.
  split; [split; [reflexivity|]|split; vm_compute; reflexivity].
  eexists. split; [vm_compute; reflexivity|].
  split; [vm_compute; reflexivity|vm_compute; discriminate].
Qed.

Lemma orElse_truthy (a : option value) (d : value) :
  truthy d = true -> truthy (orElse a d) = true.
Proof.
  intros Hd. destruct a as [v|]; simpl; [|exact Hd].
  destruct (truthy v) eqn:E; [exact E|exact Hd].
Qed.

Lemma truthy_not_null (v : value) : truthy v = true -> v <> VNull.
Proof. intros H ->. discriminate. Qed.

Lemma not_defaulted (k : jsstring) :
  ~ In k defaultedFields ->
  streq k (lit "relatedEnglishWords") = false
  /\ streq k (lit "sampleSentences") = false
  /\ streq k (lit "confidence") = false
  /\ streq k (lit "languageFamily") = false
  /\ streq k (lit "pronunciation") = false.
Proof.
  intros H. repeat split; apply streq_neq; intros ->; apply H;
    unfold defaultedFields; simpl; tauto.
Qed.

(** C2, amended. After normalization with a non-empty search term, the
    five optional fields [relatedEnglishWords], [sampleSentences],
    [confidence], [languageFamily] and [pronunciation] are present, truthy
    and so not [null]; every other property, the four required fields
    among them, is exactly what the payload has: present when the payload
    has it, and [null] when the payload says so. Every record the flow
    stores is normalized so, as the flow normalizes with the trimmed
    search term, which is not empty. *)
Theorem optional_fields_present (engineMessage : fault -> jsstring) :
  (forall payload w safe,
     w <> [] -> safeAnalysis engineMessage payload w = Normal safe ->
     normalized payload safe)
  /\ (forall net st safe,
        blank (word st) = false ->
        analysis (fst (analyzeWord engineMessage net st)) = Some safe ->
        exists payload, normalized payload safe).
Proof.
  assert (A : forall payload w safe,
             w <> [] -> safeAnalysis engineMessage payload w = Normal safe ->
             normalized payload safe).
  { intros payload w safe Hw H.
    assert (Hn : payload <> VNull).
    { intros ->. rewrite safeAnalysis_null in H. discriminate. }
    rewrite (safeAnalysis_of _ _ _ Hn) in H. injection H as <-.
    eexists. split; [reflexivity|]. split.
    - assert (Tw : truthy (VString w) = true)
        by (destruct w; [contradiction|reflexivity]).
      intros k Hk. unfold defaultedFields in Hk. simpl in Hk.
      destruct Hk as [<-|[<-|[<-|[<-|[<-|[]]]]]]; through_setProps;
        eexists; (split; [reflexivity|]);
        (split; [|apply truthy_not_null]); now apply orElse_truthy.
    - intros k Hk. destruct (not_defaulted k Hk) as (H1 & H2 & H3 & H4 & H5).
      now rewrite !lookup_setProp_other. }
  split; [exact A|].
  intros net st safe B H. rewrite (analyzeWord_run _ _ _ B) in H. cbn [fst] in H.
  destruct (analysisOf engineMessage (trim (word st)) net) as [safe'|e] eqn:E;
    cbn [setLoading setRecentSearches setAnalysis setError analysis] in H;
    [|discriminate].
  injection H as <-. apply analysisOf_normal in E as [payload E].
  exists payload. apply (A payload (trim (word st))); [|exact E].
  intros T. apply trim_nil in T. congruence.
Qed.

(** The record [safeAnalysis] makes of the payload [casaPayload]. *)
Lemma optional_fields_present_witness :
  normalized (VObject [(lit "word", VString (lit "casa"))])
    (VObject (setProp (lit "pronunciation") (VString (lit "casa"))
             (setProp (lit "languageFamily") (VString (lit "Romance"))
             (setProp (lit "confidence") (VString (lit "medium"))
             (setProp (lit "sampleSentences") (VArray [])
             (setProp (lit "relatedEnglishWords") (VArray [])
                [(lit "word", VString (lit "casa"))])))))).
Proof.
  apply (proj1 (optional_fields_present plainMessage)
           (VObject [(lit "word", VString (lit "casa"))]) (lit "casa")).
  - discriminate.
  - reflexivity.
Defined.

(** C2 as stated fails for the required fields: the payload [{}] parses
    and its record has no [word]; the payload [{"word":null}] parses and
    its record has the [word] [null]. *)
Lemma required_field_missing :
  (exists props,
     normalize plainMessage (lit "{}") (lit "casa") = Normal (VObject props)
     /\ lookup (lit "word") props = None)
  /\ (exists props,
        normalize plainMessage (lit "{" ++ quoted "word" ++ lit ":null}") (lit "casa")
        = Normal (VObject props)
        /\ lookup (lit "word") props = Some VNull).
Proof.
  split; eexists; (split; [vm_compute; reflexivity|reflexivity]).
Qed.

(** ** The recent searches *)

Lemma NoDup_firstn {A : Type} (n : nat) (l : list A) : NoDup l -> NoDup (firstn n l).
Proof.
  revert n; induction l as [|a l IH]; intros [|n] H; simpl; try constructor.
  - inversion H as [|? ? Ha Hl]; subst. intros Hin. apply Ha.
    rewrite <- (firstn_skipn n l). apply in_or_app. now left.
  - inversion H; subst. now apply IH.
Qed.

Lemma In_firstn {A : Type} (n : nat) (l : list A) (x : A) : In x (firstn n l) -> In x l.
Proof.
  intros H. rewrite <- (firstn_skipn n l). apply in_or_app. now left.
Qed.

Lemma filter_only (w : jsstring) (l : list jsstring) :
  (forall s, In s l -> s = w) -> filter (fun s => negb (streq s w)) l = [].
Proof.
  induction l as [|a l IH]; [reflexivity|].
  intros H. cbn [filter]. rewrite (H a) by now left.
  rewrite streq_refl. cbn [negb]. apply IH. intros s Hs. apply H. now right.
Qed.

(** C4, amended. For every current list and every newly searched word,
    the update is the word followed by the other entries in their order,
    every occurrence of the word itself removed, cut to five entries in
    all; it has no duplicate when the current list has none, and drops
    nothing when at most four other entries are left. In particular,
    searching "ventana", "casa" and "ventana" again gives
    ["ventana", "casa"] from the empty list, as from every list that
    holds nothing but these two words, and
    ["ventana", "casa", "biblioteca", "corazón"] from the list the session
    starts with. *)
Theorem recent_searches_update (w : jsstring) (recent : list jsstring) :
  let others := filter (fun s => negb (streq s w)) recent in
  let updated := newSearches w recent in
  updated = w :: firstn 4 others
  /\ ~ In w (firstn 4 others)
  /\ (forall s, In s others <-> In s recent /\ s <> w)
  /\ length updated <= 5
  /\ (NoDup recent -> NoDup updated)
  /\ (length others <= 4 -> updated = w :: others)
  /\ newSearches (lit "ventana")
       (newSearches (lit "casa") (newSearches (lit "ventana") []))
     = [lit "ventana"; lit "casa"]
  /\ ((forall s, In s recent -> s = lit "ventana" \/ s = lit "casa") ->
      newSearches (lit "ventana")
        (newSearches (lit "casa") (newSearches (lit "ventana") recent))
      = [lit "ventana"; lit "casa"])
  /\ newSearches (lit "ventana")
       (newSearches (lit "casa")
          (newSearches (lit "ventana") (recentSearches initialState)))
     = [lit "ventana"; lit "casa"; lit "biblioteca";
        lit "coraz" ++ [243%N] ++ lit "n"].
Proof.
  cbv zeta. unfold newSearches.
  assert (M : forall s, In s (filter (fun s => negb (streq s w)) recent)
                        <-> In s recent /\ s <> w).
  { intros s. rewrite filter_In, negb_true_iff, streq_neq. tauto. }
  split; [reflexivity|].
  split. { intros H. apply In_firstn, M in H. tauto. }
  split; [exact M|].
  split.
  { rewrite length_firstn. lia. }
  split.
  { intros H. rewrite firstn_cons. constructor.
    - intros Hin. apply In_firstn, M in Hin. tauto.
    - now apply NoDup_firstn, NoDup_filter. }
  split. { intros H. rewrite firstn_cons. now rewrite firstn_all2. }
  split; [vm_compute; reflexivity|].
  split; [|vm_compute; reflexivity].
  intros H.
  assert (C : forall s,
             In s (firstn 4 (filter (fun s => negb (streq s (lit "ventana"))) recent)) ->
             s = lit "casa").
  { intros s Hs. apply In_firstn, filter_In in Hs as [Hs N].
    apply negb_true_iff, streq_neq in N. destruct (H s Hs); [contradiction|assumption]. }
  rewrite !firstn_cons.
  change (filter (fun s => negb (streq s (lit "casa")))
            (lit "ventana"
             :: firstn 4 (filter (fun s => negb (streq s (lit "ventana"))) recent)))
    with (lit "ventana"
          :: filter (fun s => negb (streq s (lit "casa")))
               (firstn 4 (filter (fun s => negb (streq s (lit "ventana"))) recent))).
  rewrite (filter_only (lit "casa") _ C). reflexivity.
Qed.

(** C4 as stated fails on its example: in the running component, which
    starts with the presets, the three searches do not give
    ["ventana", "casa"]; they leave four entries, two of the presets
    after the two words. *)
Lemma presets_stay_in_recent_searches :
  recentSearches
    (search (lit "ventana") (search (lit "casa") (search (lit "ventana") initialState)))
  = [lit "ventana"; lit "casa"; lit "biblioteca"; lit "coraz" ++ [243%N] ++ lit "n"]
  /\ recentSearches
       (search (lit "ventana") (search (lit "casa") (search (lit "ventana") initialState)))
     <> [lit "ventana"; lit "casa"].
Proof.
  split; [vm_compute; reflexivity|vm_compute; discriminate].
Qed.

(** C10. The recent-searches list starts as the three presets, not
    empty; so a first search for a preset moves it to the front instead of
    adding it, and the third new word pushes the last preset out. *)
Theorem recent_searches_preloaded :
  recentSearches initialState
  = [lit "biblioteca"; lit "ventana"; lit "coraz" ++ [243%N] ++ lit "n"]
  /\ recentSearches initialState <> []
  /\ recentSearches (search (lit "ventana") initialState)
     = [lit "ventana"; lit "biblioteca"; lit "coraz" ++ [243%N] ++ lit "n"]
  /\ recentSearches
       (search (lit "mesa") (search (lit "silla") (search (lit "casa") initialState)))
     = [lit "mesa"; lit "silla"; lit "casa"; lit "biblioteca"; lit "ventana"].
Proof.
  repeat split; try (vm_compute; reflexivity). discriminate.
Qed.

(** ** The voice registry *)

Section VoiceSelection.

Variable toLowerCase : jsstring -> jsstring.

Lemma isUSVoice_spec (v : voice) : isUSVoice v = true <-> voiceLang v = lit "es-US".
Proof. apply streq_eq. Qed.

Lemma isGoogleUSVoice_spec (v : voice) :
  isGoogleUSVoice toLowerCase v = true
  <-> voiceLang v = lit "es-US"
      /\ includes (toLowerCase (voiceName v)) (lit "google") = true.
Proof. unfold isGoogleUSVoice. now rewrite andb_true_iff, streq_eq. Qed.

(** C5, amended. The registry keeps the voices whose language tag begins
    with "es" or whose lower-cased name contains "spanish", and selects: a
    kept voice with the tag "es-US" and "google" in its lower-cased name,
    if there is one; else a kept voice with the tag "es-US", if there is
    one; else the first kept voice. When no voice is kept it selects
    nothing: the selection stays what it was, which is none when the
    session starts. *)
Theorem voice_selection (voices : list voice) (st : state) :
  let spanish := spanishVoices toLowerCase voices in
  let st' := loadVoices toLowerCase voices st in
  let google v :=
    voiceLang v = lit "es-US"
    /\ includes (toLowerCase (voiceName v)) (lit "google") = true in
  availableVoices st' = spanish
  /\ (forall v, In v spanish <->
        In v voices
        /\ (startsWith (voiceLang v) (lit "es") = true
            \/ includes (toLowerCase (voiceName v)) (lit "spanish") = true))
  /\ ((exists v, In v spanish /\ google v) ->
      exists v, selectedVoice st' = Some v /\ In v spanish /\ google v)
  /\ (~ (exists v, In v spanish /\ google v) ->
      (exists v, In v spanish /\ voiceLang v = lit "es-US") ->
      exists v, selectedVoice st' = Some v /\ In v spanish
                /\ voiceLang v = lit "es-US")
  /\ (~ (exists v, In v spanish /\ voiceLang v = lit "es-US") ->
      forall v rest, spanish = v :: rest -> selectedVoice st' = Some v)
  /\ (spanish = [] -> selectedVoice st' = selectedVoice st)
  /\ selectedVoice initialState = None.
Proof.
  cbv zeta. unfold loadVoices, preferredVoice.
  set (spanish := spanishVoices toLowerCase voices).
  assert (A : forall o, availableVoices
                (match o with
                 | Some v => setSelectedVoice (Some v) (setAvailableVoices spanish st)
                 | None => setAvailableVoices spanish st
                 end) = spanish) by now intros [v|].
  split; [apply A|]. split.
  { intros v. unfold spanish, spanishVoices, isSpanishVoice.
    now rewrite filter_In, orb_true_iff. }
  destruct (find (isGoogleUSVoice toLowerCase) spanish) as [g|] eqn:Eg.
  { destruct (find_some _ _ Eg) as [Hin Hg]. apply isGoogleUSVoice_spec in Hg.
    repeat split.
    - intros _. now exists g.
    - intros Hno. exfalso. apply Hno. now exists g.
    - intros Hno. exfalso. apply Hno. exists g. tauto.
    - intros E. now rewrite E in Hin. }
  assert (NoG : ~ (exists v, In v spanish
                    /\ voiceLang v = lit "es-US"
                    /\ includes (toLowerCase (voiceName v)) (lit "google") = true)).
  { intros (v & Hin & Hv). apply isGoogleUSVoice_spec in Hv.
    now rewrite (find_none _ _ Eg v Hin) in Hv. }
  split; [intros H; contradiction|].
  destruct (find isUSVoice spanish) as [u|] eqn:Eu.
  { destruct (find_some _ _ Eu) as [Hin Hu]. apply isUSVoice_spec in Hu.
    repeat split.
    - intros _ _. now exists u.
    - intros Hno. exfalso. apply Hno. now exists u.
    - intros E. now rewrite E in Hin. }
  repeat split.
  - intros _ (v & Hin & Hv). apply isUSVoice_spec in Hv.
    now rewrite (find_none _ _ Eu v Hin) in Hv.
  - intros _ v rest E. now rewrite E.
  - intros E. now rewrite E.
Qed.

End VoiceSelection.

(** The three catalogs of the specification's test. *)
Example voice_selection_examples :
  selectedVoice (loadVoices asciiLower [monicaVoice; googleVoice] initialState)
  = Some googleVoice
  /\ selectedVoice (loadVoices asciiLower [samanthaVoice; monicaVoice] initialState)
     = Some monicaVoice
  /\ selectedVoice (loadVoices asciiLower [samanthaVoice] initialState) = None.
Proof. repeat split. Qed.

(** C5 as stated fails when no voice is kept: the selection is then not
    always none. After a catalog with a Spanish voice, a catalog without
    one leaves that voice selected. *)
Lemma selection_survives_empty_catalog :
  ~ (forall voices st,
       spanishVoices asciiLower voices = [] ->
       selectedVoice (loadVoices asciiLower voices st) = None)
  /\ spanishVoices asciiLower [samanthaVoice] = []
  /\ selectedVoice
       (loadVoices asciiLower [samanthaVoice]
          (loadVoices asciiLower [monicaVoice] initialState))
     = Some monicaVoice.
Proof.
  split; [|split; reflexivity].
  intros H.
  specialize (H [samanthaVoice] (loadVoices asciiLower [monicaVoice] initialState)
                eq_refl).
  discriminate H.
Qed.

(** ** The analysis flow *)

Section Flow.

Variable engineMessage : fault -> jsstring.

(** C6. For an empty or white-space-only search term the flow issues no
    request and sets the input error, changing nothing else; for every
    other term, whose trimmed form is then not empty, it issues the one
    request, for the trimmed term. *)
Theorem input_guard (net : fetched) (st : state) :
  (blank (word st) = true ->
   snd (analyzeWord engineMessage net st) = []
   /\ error (fst (analyzeWord engineMessage net st)) = inputErrorMessage
   /\ fst (analyzeWord engineMessage net st) = setError inputErrorMessage st)
  /\ (blank (word st) = false ->
      trim (word st) <> []
      /\ snd (analyzeWord engineMessage net st)
         = [completionRequest (trim (word st))])
  /\ (trim (word st) <> [] <-> blank (word st) = false).
Proof.
  assert (T : trim (word st) <> [] <-> blank (word st) = false).
  { rewrite trim_nil. destruct (blank (word st)); split; congruence. }
  split; [|split; [|exact T]].
  - intros B. now rewrite (analyzeWord_blank _ _ _ B).
  - intros B. split; [now apply T|]. now rewrite (analyzeWord_run _ _ _ B).
Qed.

Lemma startsWith_app (p r : jsstring) : startsWith (p ++ r) p = true.
Proof. rewrite startsWith_stripPrefix. now rewrite stripPrefix_app. Qed.

Lemma includes_prefix (p r : jsstring) : includes (p ++ r) p = true.
Proof.
  destruct (p ++ r) eqn:E; simpl; rewrite <- E, startsWith_app; reflexivity.
Qed.

(** The upstream error is always reported as an API error, with its
    status code and text. *)
Lemma report_upstream (r : response) :
  report (upstreamError r)
  = apiErrorMessage
      (lit "OpenAI API error: " ++ decimal (status r) ++ lit " " ++ statusText r).
Proof.
  unfold report, upstreamError. cbn [errMessage errName].
  change (lit "OpenAI API error: ") with (lit "OpenAI API error" ++ lit ": ").
  rewrite <- app_assoc. now rewrite includes_prefix.
Qed.

Lemma report_not_empty (err : jsError) : report err <> [].
Proof.
  unfold report. destruct (includes _ _); [discriminate|].
  destruct (streq _ _); discriminate.
Qed.

(** C7, amended. With a search term that is not blank: a response whose
    status is not a success makes the flow fail with the API-error
    message, which carries the status code and the status text, and which
    is neither the parse-failure message nor the unknown-failure message;
    a completion text that does not parse is reported with the
    parse-failure message, and a network failure (the request promise is
    rejected) with the unknown-failure message, which carries no status:
    these two as long as the message of the exception itself does not
    contain "OpenAI API error", and a rejection is no SyntaxError. *)
Theorem upstream_error_reported (st : state) :
  blank (word st) = false ->
  (forall r, ok r = false ->
     error (fst (analyzeWord engineMessage (Resolved r) st))
     = lit "API Error: OpenAI API error: " ++ decimal (status r) ++ lit " "
       ++ statusText r ++ lit ". Please check your OpenAI API key."
     /\ error (fst (analyzeWord engineMessage (Resolved r) st)) <> parseErrorMessage
     /\ error (fst (analyzeWord engineMessage (Resolved r) st)) <> unknownErrorMessage
     /\ analysis (fst (analyzeWord engineMessage (Resolved r) st)) = None)
  /\ (forall r aiResponse,
        ok r = true ->
        completionOf engineMessage r = Normal aiResponse ->
        parseJSON (cleanedResponse aiResponse) = None ->
        includes (engineMessage (NotJSON (cleanedResponse aiResponse)))
          (lit "OpenAI API error") = false ->
        error (fst (analyzeWord engineMessage (Resolved r) st)) = parseErrorMessage)
  /\ (forall e,
        includes (errMessage e) (lit "OpenAI API error") = false ->
        errName e <> lit "SyntaxError" ->
        error (fst (analyzeWord engineMessage (Rejected e) st)) = unknownErrorMessage).
Proof.
  intros B. split; [|split].
  - intros r Hok.
    rewrite (analyzeWord_run _ _ _ B). cbn [analysisOf]. rewrite Hok.
    cbn [negb fst setLoading setError setAnalysis error analysis].
    rewrite report_upstream. unfold apiErrorMessage.
    split; [now rewrite <- !app_assoc|].
    split; [discriminate|]. split; [discriminate|reflexivity].
  - intros r aiResponse Hok Hc Hp Hm.
    rewrite (analyzeWord_run _ _ _ B). cbn [analysisOf]. rewrite Hok, Hc.
    cbn [negb bind]. unfold normalize, JSON_parse. rewrite Hp.
    cbn [bind raise fst setLoading setError error].
    unfold report. cbn [errMessage errName faultName]. now rewrite Hm.
  - intros e Hm Hn. rewrite (analyzeWord_run _ _ _ B).
    cbn [analysisOf fst setLoading setError error].
    unfold report. rewrite Hm. apply streq_neq in Hn. now rewrite Hn.
Qed.

(** C9. Whenever an attempt fails, the recent-searches list is left as it
    was: when what follows the request throws (an upstream error, a parse
    error or anything else), and whenever the flow ends with an error
    message set, the input error included. The list changes only when
    the flow has parsed and normalized a record, the one it stores. *)
Theorem failure_keeps_recent_searches (net : fetched) (st : state) :
  let st' := fst (analyzeWord engineMessage net st) in
  (forall e, analysisOf engineMessage (trim (word st)) net = Throw e ->
             recentSearches st' = recentSearches st)
  /\ (error st' <> [] -> recentSearches st' = recentSearches st)
  /\ (forall e, blank (word st) = false ->
                analysisOf engineMessage (trim (word st)) net = Throw e ->
                error st' = report e /\ error st' <> [])
  /\ (recentSearches st' <> recentSearches st ->
      exists safe,
        analysisOf engineMessage (trim (word st)) net = Normal safe
        /\ analysis st' = Some safe
        /\ recentSearches st' = newSearches (trim (word st)) (recentSearches st)).
Proof.
  cbv zeta. destruct (blank (word st)) eqn:B.
  - rewrite (analyzeWord_blank _ _ _ B). cbn [fst setError recentSearches].
    split; [reflexivity|]. split; [reflexivity|].
    split; [discriminate|]. intros H. now contradiction H.
  - rewrite (analyzeWord_run _ _ _ B). cbn [fst].
    destruct (analysisOf engineMessage (trim (word st)) net) as [safe|err];
      cbn [setLoading setRecentSearches setAnalysis setError recentSearches
           error analysis].
    + split; [discriminate|]. split; [intros H; now contradiction H|].
      split; [discriminate|]. intros _. now exists safe.
    + split; [reflexivity|]. split; [reflexivity|].
      split.
      * intros e _ H. injection H as <-. split; [reflexivity|].
        apply report_not_empty.
      * intros H. now contradiction H.
Qed.

(* ------------------------------------------------------------------ *)
(** *** The render boundary *)

(** The render maps over a falsy field as over the empty sequence, and
    over a sequence as it is. *)
Lemma mapOver_falsy (field : option value) :
  orElse field (VArray []) = VArray [] -> mapOver engineMessage field = Normal [].
Proof. unfold mapOver. now intros ->. Qed.

(** On a truthy field that is no sequence, [.map] is no function and the
    render throws. *)
Lemma mapOver_not_sequence (v : value) :
  truthy v = true -> (forall items, v <> VArray items) ->
  mapOver engineMessage (Some v) = raise engineMessage (NotAFunction (lit "map")).
Proof.
  intros Ht Hv. unfold mapOver. cbn [orElse]. rewrite Ht.
  destruct v; try reflexivity. now contradiction (Hv items).
Qed.

(** So a record whose [relatedEnglishWords] is truthy and no sequence
    makes the render throw, and one whose field is missing or falsy is
    shown with no related word. *)
Lemma renderRelated_cases (a : value) :
  a <> VNull ->
  (forall v, ownField a (lit "relatedEnglishWords") = Some v ->
             truthy v = true -> (forall items, v <> VArray items) ->
             renderRelated engineMessage a
             = raise engineMessage (NotAFunction (lit "map")))
  /\ (orElse (ownField a (lit "relatedEnglishWords")) (VArray []) = VArray [] ->
      renderRelated engineMessage a = Normal []).
Proof.
  intros Ha. unfold renderRelated. rewrite (member_of _ _ _ Ha). cbn [bind].
  split.
  - intros v -> Ht Hv. now apply mapOver_not_sequence.
  - apply mapOver_falsy.
Qed.

End Flow.

(** *** The flow on concrete inputs *)

(** Three spaces are refused; " casa " is requested as "casa". *)
Lemma input_guard_witness :
  snd (analyzeWord plainMessage (completed casaPayload) (setWord (lit "   ") initialState)) = []
  /\ snd (analyzeWord plainMessage (completed casaPayload) casaTyped)
     = [completionRequest (lit "casa")].
Proof.
  split.
  - apply (proj1 (input_guard plainMessage (completed casaPayload)
                    (setWord (lit "   ") initialState))).
    reflexivity.
  - apply (proj1 (proj2 (input_guard plainMessage (completed casaPayload) casaTyped))).
    reflexivity.
Defined.

(** A 401 response, a completion that is no JSON, and a rejected
    request. *)
Lemma upstream_error_reported_witness :
  error (fst (analyzeWord plainMessage (Resolved unauthorized) casaTyped))
  = lit "API Error: OpenAI API error: 401 Unauthorized. Please check your OpenAI API key."
  /\ error (fst (analyzeWord plainMessage (completed (lit "not json")) casaTyped))
     = parseErrorMessage
  /\ error (fst (analyzeWord plainMessage (Rejected failedToFetch) casaTyped))
     = unknownErrorMessage.
Proof.
  destruct (upstream_error_reported plainMessage casaTyped eq_refl) as (U & P & N).
  split; [|split].
  - apply (U unauthorized). reflexivity.
  - apply (P _ (lit "not json")); vm_compute; reflexivity.
  - apply (N failedToFetch); [reflexivity|discriminate].
Defined.

(** C7 as stated fails for a network failure: the request is issued, the
    promise is rejected, and the message set is the unknown-failure one,
    not an API error and with no status in it. *)
Lemma network_failure_not_upstream :
  snd (analyzeWord plainMessage (Rejected failedToFetch) casaTyped)
  = [completionRequest (lit "casa")]
  /\ error (fst (analyzeWord plainMessage (Rejected failedToFetch) casaTyped))
     = lit "Failed to analyze the word. Please try again."
  /\ includes (error (fst (analyzeWord plainMessage (Rejected failedToFetch) casaTyped)))
       (lit "API Error") = false.
Proof. repeat split. Qed.

(** The same failures, and the payload [null], leave the presets in
    place. *)
Lemma failure_keeps_recent_searches_witness :
  recentSearches (fst (analyzeWord plainMessage (Resolved unauthorized) casaTyped))
  = recentSearches casaTyped
  /\ recentSearches (fst (analyzeWord plainMessage (completed (lit "not json")) casaTyped))
     = recentSearches casaTyped
  /\ recentSearches (fst (analyzeWord plainMessage (completed (lit "null")) casaTyped))
     = recentSearches casaTyped.
Proof.
  split; [|split].
  - apply (proj1 (failure_keeps_recent_searches plainMessage
                    (Resolved unauthorized) casaTyped) (upstreamError unauthorized)).
    reflexivity.
  - eapply (proj1 (failure_keeps_recent_searches plainMessage
                     (completed (lit "not json")) casaTyped)).
    vm_compute. reflexivity.
  - eapply (proj1 (failure_keeps_recent_searches plainMessage
                     (completed (lit "null")) casaTyped)).
    vm_compute. reflexivity.
Defined.

(** C8 on the code. A payload whose [relatedEnglishWords] is a non-empty
    string, or whose [sampleSentences] is an object, parses and is
    normalized with that field kept; the render then calls [.map] on it
    and throws a TypeError instead of showing an empty sequence. *)
Example render_throws_on_non_sequence :
  (exists safe,
     normalize plainMessage stringFieldPayload (lit "biblioteca") = Normal safe
     /\ ownField safe (lit "relatedEnglishWords")
        = Some (VString (lit "library, librarian"))
     /\ renderRelated plainMessage safe
        = Throw {| errName := lit "TypeError";
                   errMessage := lit "map is not a function" |})
  /\ (exists safe,
        normalize plainMessage objectFieldPayload (lit "hola") = Normal safe
        /\ renderSentences plainMessage safe
           = Throw {| errName := lit "TypeError";
                      errMessage := lit "map is not a function" |}).
Proof.
  split; eexists; (split; [vm_compute; reflexivity|]); repeat split.
Qed.

(** What the render does do: a missing or falsy field is shown as the
    empty sequence. *)
Example render_shows_falsy_as_empty :
  renderRelated plainMessage (VObject []) = Normal []
  /\ renderRelated plainMessage (VObject [(lit "relatedEnglishWords", VNull)]) = Normal []
  /\ renderSentences plainMessage (VObject [(lit "sampleSentences", VString [])]) = Normal [].
Proof. repeat split. Qed.

(** ** Further properties of the code *)

(** *** The clean-up, one pass from the left *)

(** X1. A completion without a backtick comes out of the clean-up (line
    113) as its trimmed self. *)
Theorem cleanup_without_backtick (aiResponse : jsstring) :
  forallb (fun c => negb (c =? backtick)%N) aiResponse = true ->
  cleanedResponse aiResponse = trim aiResponse.
Proof.
  intros H. unfold cleanedResponse. now rewrite stripFences_no_backtick.
Qed.

Lemma cleanup_without_backtick_witness :
  cleanedResponse ([10%N] ++ casaPayload ++ lit "  ") = casaPayload.
Proof.
  rewrite (cleanup_without_backtick ([10%N] ++ casaPayload ++ lit "  "));
    reflexivity.
Defined.

(** X2. A fence that follows ordinary text is deleted with the white
    space before it, wherever it stands, also inside a string of the
    payload, and the text on both sides is cleaned as if the other side
    were not there. A fence followed by [json] is excepted when no white
    space stands before it: then the first alternative takes the tag
    too. *)
Theorem fence_after_text_removed (P : jsstring) (cz : char) (ws R : jsstring) :
  isBarrier cz = true -> blank ws = true ->
  ws <> [] \/ startsWith R (lit "json") = false ->
  cleanedResponse (P ++ cz :: ws ++ fence ++ R)
  = trim (stripFences 0 (P ++ [cz]) ++ stripFences 0 R).
Proof.
  intros Hz Hws Hcase. unfold cleanedResponse.
  rewrite (stripFences_barrier cz (ws ++ fence ++ R) Hz P 0) by lia.
  now rewrite (stripFences_fence ws R Hws Hcase).
Qed.

(** The etymology "a ``` b" is stored as "a b". *)
Lemma fence_after_text_removed_witness :
  cleanedResponse fenceInsidePayload
  = lit "{" ++ quoted "etymology" ++ lit ":" ++ quoted "a b" ++ lit "}"
  /\ option_map (fun v => ownField v (lit "etymology"))
       (parseJSON (cleanedResponse fenceInsidePayload))
     = Some (Some (VString (lit "a b"))).
Proof.
  split; [|reflexivity].
  refine (fence_after_text_removed
            (lit "{" ++ quoted "etymology" ++ lit ":" ++ [dquote])
            (ch "a") (lit " ") (lit " b" ++ [dquote] ++ lit "}")
            eq_refl eq_refl (or_introl _)).
  discriminate.
Defined.

(** *** What the flow makes of a completion *)

(** The state a flow that ran ends in. *)
Lemma analyzeWord_throw (engineMessage : fault -> jsstring) (net : fetched)
  (st : state) (err : jsError) :
  blank (word st) = false ->
  analysisOf engineMessage (trim (word st)) net = Throw err ->
  fst (analyzeWord engineMessage net st)
  = setLoading false
      (setError (report err)
         (setAnalysis None (setError [] (setLoading true st)))).
Proof. intros B E. now rewrite (analyzeWord_run _ _ _ B), E. Qed.

Lemma analyzeWord_normal (engineMessage : fault -> jsstring) (net : fetched)
  (st : state) (safe : value) :
  blank (word st) = false ->
  analysisOf engineMessage (trim (word st)) net = Normal safe ->
  fst (analyzeWord engineMessage net st)
  = setLoading false
      (setRecentSearches (newSearches (trim (word st)) (recentSearches st))
         (setAnalysis (Some safe)
            (setAnalysis None (setError [] (setLoading true st))))).
Proof. intros B E. now rewrite (analyzeWord_run _ _ _ B), E. Qed.

(** A completion whose cleaned text does not parse. *)
Lemma analysisOf_unparsed (engineMessage : fault -> jsstring) (w : jsstring)
  (r : response) (aiResponse : jsstring) :
  ok r = true -> completionOf engineMessage r = Normal aiResponse ->
  parseJSON (cleanedResponse aiResponse) = None ->
  analysisOf engineMessage w (Resolved r)
  = raise engineMessage (NotJSON (cleanedResponse aiResponse)).
Proof.
  intros Hok Hc Hp. cbn [analysisOf]. rewrite Hok, Hc. cbn [negb bind].
  unfold normalize, JSON_parse. now rewrite Hp.
Qed.

(** A completion whose cleaned text parses. *)
Lemma analysisOf_parsed (engineMessage : fault -> jsstring) (w : jsstring)
  (r : response) (aiResponse : jsstring) (payload : value) :
  ok r = true -> completionOf engineMessage r = Normal aiResponse ->
  parseJSON (cleanedResponse aiResponse) = Some payload ->
  analysisOf engineMessage w (Resolved r) = safeAnalysis engineMessage payload w.
Proof.
  intros Hok Hc Hp. cbn [analysisOf]. rewrite Hok, Hc. cbn [negb bind].
  unfold normalize, JSON_parse. now rewrite Hp.
Qed.

(** X3. White space before a fence that carries the tag defeats the
    clean-up (line 113): the second alternative takes the white space
    and the bare fence, the tag [json] stays at the head of the text,
    and [JSON.parse] rejects it whatever follows; the flow reports the
    parse failure. *)
Theorem tagged_fence_after_space_rejected (ws R : jsstring) :
  ws <> [] -> blank ws = true ->
  parseJSON (cleanedResponse (ws ++ fence ++ lit "json" ++ R)) = None
  /\ forall engineMessage st,
       blank (word st) = false ->
       includes (engineMessage
                   (NotJSON (cleanedResponse (ws ++ fence ++ lit "json" ++ R))))
         (lit "OpenAI API error") = false ->
       error (fst (analyzeWord engineMessage
                     (completed (ws ++ fence ++ lit "json" ++ R)) st))
       = parseErrorMessage
       /\ analysis (fst (analyzeWord engineMessage
                           (completed (ws ++ fence ++ lit "json" ++ R)) st))
          = None.
Proof.
  intros Hne Hws.
  assert (P : parseJSON (cleanedResponse (ws ++ fence ++ lit "json" ++ R)) = None).
  { unfold cleanedResponse.
    rewrite (stripFences_fence ws (lit "json" ++ R) Hws (or_introl Hne)).
    change (lit "json" ++ R) with (ch "j" :: lit "son" ++ R).
    pose proof (stripFences_blank_then [] (ch "j") (lit "son" ++ R)
                  eq_refl eq_refl eq_refl) as Hj.
    cbn [app] in Hj. rewrite Hj.
    destruct (trim_head (ch "j") (stripFences 0 (lit "son" ++ R)) eq_refl)
      as [Y ->].
    destruct (parseJSON (ch "j" :: Y)) as [v|] eqn:E; [|reflexivity].
    apply parseJSON_head in E as [E|E]; discriminate E. }
  split; [exact P|]. intros engineMessage st B M. unfold completed.
  rewrite (analyzeWord_throw engineMessage _ st _ B
             (analysisOf_unparsed engineMessage _
                (completedResponse (ws ++ fence ++ lit "json" ++ R)) _ eq_refl
                (completionOf_completed engineMessage _) P)).
  cbn [setLoading setError setAnalysis error analysis].
  split; [|reflexivity].
  unfold report. cbn [errMessage errName faultName]. now rewrite M.
Qed.

Lemma tagged_fence_after_space_rejected_witness :
  parseJSON (cleanedResponse (lit " " ++ fence ++ lit "json" ++ lit "{}" ++ fence))
  = None
  /\ parseJSON (cleanedResponse (fence ++ lit "json" ++ lit "{}" ++ fence))
     = Some (VObject []).
Proof.
  split; [|reflexivity].
  refine (proj1 (tagged_fence_after_space_rejected (lit " ") (lit "{}" ++ fence) _ eq_refl)).
  discriminate.
Defined.

(** X4. A completion whose cleaned text parses to [null] is not
    rejected by the parser: normalizing it throws a TypeError (lines
    117-124), which the flow reports as an unknown failure (line 139),
    with no analysis and the recent searches as they were; this whatever
    the engine's messages, as long as the one for this fault does not
    contain "OpenAI API error". *)
Theorem null_payload_unknown_failure
  (engineMessage : fault -> jsstring) (r : response) (aiResponse : jsstring)
  (st : state) :
  blank (word st) = false ->
  ok r = true -> completionOf engineMessage r = Normal aiResponse ->
  parseJSON (cleanedResponse aiResponse) = Some VNull ->
  includes (engineMessage (NoBase (lit "relatedEnglishWords")))
    (lit "OpenAI API error") = false ->
  error (fst (analyzeWord engineMessage (Resolved r) st)) = unknownErrorMessage
  /\ analysis (fst (analyzeWord engineMessage (Resolved r) st)) = None
  /\ recentSearches (fst (analyzeWord engineMessage (Resolved r) st))
     = recentSearches st.
Proof.
  intros B Hok Hc Hp M.
  rewrite (analyzeWord_throw engineMessage _ st
             {| errName := lit "TypeError";
                errMessage := engineMessage (NoBase (lit "relatedEnglishWords")) |} B).
  - cbn [setLoading setError setAnalysis error analysis recentSearches].
    unfold report. cbn [errMessage errName]. now rewrite M.
  - now rewrite (analysisOf_parsed engineMessage _ r aiResponse VNull Hok Hc Hp).
Qed.

Lemma null_payload_unknown_failure_witness :
  error (fst (analyzeWord plainMessage
                (completed (fence ++ lit "json" ++ [10%N] ++ lit "null" ++ [10%N] ++ fence))
                casaTyped))
  = unknownErrorMessage.
Proof.
  refine (proj1 (null_payload_unknown_failure plainMessage
                   (completedResponse
                      (fence ++ lit "json" ++ [10%N] ++ lit "null" ++ [10%N] ++ fence))
                   (fence ++ lit "json" ++ [10%N] ++ lit "null" ++ [10%N] ++ fence)
                   casaTyped eq_refl eq_refl _ eq_refl eq_refl)).
  apply completionOf_completed.
Defined.

Lemma uintChars_digits (d : Decimal.uint) : forallb isDigit (uintChars d) = true.
Proof. induction d; simpl; auto. Qed.

(** An array or a string has no own property whose name starts with
    something other than a digit, as far as the spread copies them. *)
Lemma lookup_indexed_name (c : char) (k : jsstring) (i : N) (l : list value) :
  isDigit c = false -> lookup (c :: k) (indexed i l) = None.
Proof.
  intros Hc. revert i; induction l as [|v l IH]; intros i; [reflexivity|].
  cbn [indexed lookup]. rewrite IH.
  pose proof (uintChars_digits (N.to_uint i)) as D. unfold decimal.
  destruct (uintChars (N.to_uint i)) as [|d ds]; [reflexivity|].
  simpl in D. apply andb_true_iff in D as [Dd _].
  cbn [streq]. destruct (N.eqb_spec c d) as [->|]; [congruence|reflexivity].
Qed.

Lemma spread_no_name (payload : value) (c : char) (k : jsstring) :
  (forall props, payload <> VObject props) -> isDigit c = false ->
  lookup (c :: k) (spread payload) = None.
Proof.
  intros Ho Hc. destruct payload; cbn [spread]; try reflexivity.
  - now apply lookup_indexed_name.
  - now apply lookup_indexed_name.
  - now destruct (Ho props).
Qed.

Lemma setProp_app_fresh (k : jsstring) (v : value)
  (a d : list (jsstring * value)) :
  lookup k a = None -> setProp k v (a ++ d) = a ++ setProp k v d.
Proof.
  induction a as [|[k0 v0] a IH]; [reflexivity|].
  cbn [lookup app setProp]. destruct (streq k k0); [discriminate|].
  intros H. now rewrite (IH H).
Qed.

(** X5. A completion that is a JSON number, string, boolean or array is
    taken for an analysis: the flow sets no error, the search term joins
    the recent searches, and the record stored is what the spread copies
    of the payload, followed by the five optional fields with their
    defaults. The spread copies nothing of a number or a boolean, whose
    record is the five defaults and nothing else, and the elements of an
    array, or the code units of a string, under their indices. In every
    case [word], [englishMeaning], [etymology] and [mnemonic] are
    missing. *)
Theorem non_object_payload_accepted
  (engineMessage : fault -> jsstring) (r : response) (aiResponse : jsstring)
  (payload : value) (st : state) :
  blank (word st) = false ->
  ok r = true -> completionOf engineMessage r = Normal aiResponse ->
  parseJSON (cleanedResponse aiResponse) = Some payload ->
  payload <> VNull -> (forall props, payload <> VObject props) ->
  exists props,
    analysis (fst (analyzeWord engineMessage (Resolved r) st)) = Some (VObject props)
    /\ error (fst (analyzeWord engineMessage (Resolved r) st)) = []
    /\ hd_error (recentSearches (fst (analyzeWord engineMessage (Resolved r) st)))
       = Some (trim (word st))
    /\ props
       = spread payload
         ++ [(lit "relatedEnglishWords", VArray []);
             (lit "sampleSentences", VArray []);
             (lit "confidence", VString (lit "medium"));
             (lit "languageFamily", VString (lit "Romance"));
             (lit "pronunciation", VString (trim (word st)))]
    /\ lookup (lit "relatedEnglishWords") props = Some (VArray [])
    /\ lookup (lit "sampleSentences") props = Some (VArray [])
    /\ lookup (lit "confidence") props = Some (VString (lit "medium"))
    /\ lookup (lit "languageFamily") props = Some (VString (lit "Romance"))
    /\ lookup (lit "pronunciation") props = Some (VString (trim (word st)))
    /\ lookup (lit "word") props = None
    /\ lookup (lit "englishMeaning") props = None
    /\ lookup (lit "etymology") props = None
    /\ lookup (lit "mnemonic") props = None.
Proof.
  intros B Hok Hc Hp Hn Ho.
  assert (F : forall k, ownField payload k = None).
  { intros k. destruct payload; try reflexivity. now destruct (Ho props). }
  eexists.
  rewrite (analyzeWord_normal engineMessage _ st _ B
             (eq_trans (analysisOf_parsed engineMessage _ r aiResponse payload Hok Hc Hp)
                (safeAnalysis_of engineMessage payload _ Hn))).
  cbn [setLoading setRecentSearches setAnalysis setError analysis error
       recentSearches].
  rewrite !F. cbn [orElse].
  split; [reflexivity|]. split; [reflexivity|]. split; [reflexivity|].
  split.
  { rewrite <- (app_nil_r (spread payload)) at 1.
    rewrite !setProp_app_fresh by (now apply spread_no_name).
    reflexivity. }
  repeat split; through_setProps; try reflexivity;
    now apply spread_no_name.
Qed.

(** The completion [[1,2]]: the record has seven properties. *)
Lemma non_object_payload_accepted_witness :
  exists props,
    analysis (fst (analyzeWord plainMessage (completed (lit "[1,2]")) casaTyped))
    = Some (VObject props)
    /\ props = [(lit "0", VNumber 1 0); (lit "1", VNumber 2 0);
                (lit "relatedEnglishWords", VArray []);
                (lit "sampleSentences", VArray []);
                (lit "confidence", VString (lit "medium"));
                (lit "languageFamily", VString (lit "Romance"));
                (lit "pronunciation", VString (lit "casa"))]
    /\ error (fst (analyzeWord plainMessage (completed (lit "[1,2]")) casaTyped)) = []
    /\ lookup (lit "word") props = None.
Proof.
  destruct (non_object_payload_accepted plainMessage (completedResponse (lit "[1,2]"))
              (lit "[1,2]") (VArray [VNumber 1 0; VNumber 2 0]) casaTyped
              eq_refl eq_refl (completionOf_completed plainMessage _) eq_refl)
    as (props & A & E & _ & P & _ & _ & _ & _ & _ & W & _).
  - discriminate.
  - discriminate.
  - exists props. split; [exact A|]. split; [exact P|]. split; [exact E|exact W].
Defined.

(** X6. The [catch] block tests the message before the name (lines
    134-136): a completion that does not parse is reported as an API
    error, with the advice to check the API key, when the engine's
    SyntaxError message contains "OpenAI API error", as it does when the
    engine quotes a completion that says so. *)
Theorem parse_failure_reported_as_api_error
  (engineMessage : fault -> jsstring) (r : response) (aiResponse : jsstring)
  (st : state) :
  blank (word st) = false ->
  ok r = true -> completionOf engineMessage r = Normal aiResponse ->
  parseJSON (cleanedResponse aiResponse) = None ->
  includes (engineMessage (NotJSON (cleanedResponse aiResponse)))
    (lit "OpenAI API error") = true ->
  error (fst (analyzeWord engineMessage (Resolved r) st))
  = lit "API Error: " ++ engineMessage (NotJSON (cleanedResponse aiResponse))
    ++ lit ". Please check your OpenAI API key."
  /\ error (fst (analyzeWord engineMessage (Resolved r) st)) <> parseErrorMessage.
Proof.
  intros B Hok Hc Hp M.
  rewrite (analyzeWord_throw engineMessage _ st _ B
             (analysisOf_unparsed engineMessage _ r aiResponse Hok Hc Hp)).
  cbn [setLoading setError setAnalysis error].
  unfold report. cbn [errMessage errName]. rewrite M.
  split; [reflexivity|]. unfold apiErrorMessage. cbn. discriminate.
Qed.

Lemma parse_failure_reported_as_api_error_witness :
  error (fst (analyzeWord quotingMessage (completed (lit "OpenAI API error"))
                casaTyped))
  = lit "API Error: Unexpected token 'O', " ++ [dquote]
    ++ lit "OpenAI API error" ++ [dquote]
    ++ lit " is not valid JSON. Please check your OpenAI API key.".
Proof.
  refine (eq_trans (proj1 (parse_failure_reported_as_api_error quotingMessage
            (completedResponse (lit "OpenAI API error"))
            (lit "OpenAI API error") casaTyped
            eq_refl eq_refl (completionOf_completed quotingMessage _)
            eq_refl eq_refl)) _).
  reflexivity.
Defined.

(** X7. One flow, run from its start to its end with no other event and
    no other flow in between: once it has run, exactly one of the
    analysis and the error is set, loading is over, and the word, the
    voices on offer and the selected voice are what they were; a failure
    erases the analysis of the search before, a success the error. *)
Theorem analyzeWord_outcome
  (engineMessage : fault -> jsstring) (net : fetched) (st : state) :
  word (fst (analyzeWord engineMessage net st)) = word st
  /\ availableVoices (fst (analyzeWord engineMessage net st)) = availableVoices st
  /\ selectedVoice (fst (analyzeWord engineMessage net st)) = selectedVoice st
  /\ (blank (word st) = false ->
      loading (fst (analyzeWord engineMessage net st)) = false
      /\ ((analysis (fst (analyzeWord engineMessage net st)) = None
           /\ error (fst (analyzeWord engineMessage net st)) <> []
           /\ recentSearches (fst (analyzeWord engineMessage net st))
              = recentSearches st)
          \/ (exists safe,
                analysis (fst (analyzeWord engineMessage net st)) = Some safe
                /\ error (fst (analyzeWord engineMessage net st)) = []
                /\ recentSearches (fst (analyzeWord engineMessage net st))
                   = newSearches (trim (word st)) (recentSearches st)))).
Proof.
  destruct (blank (word st)) eqn:B.
  - rewrite (analyzeWord_blank _ _ _ B).
    cbn [fst setError word availableVoices selectedVoice].
    split; [reflexivity|]. split; [reflexivity|]. split; [reflexivity|discriminate].
  - destruct (analysisOf engineMessage (trim (word st)) net) as [safe|err] eqn:E.
    + rewrite (analyzeWord_normal _ _ _ _ B E).
      cbn [setLoading setRecentSearches setAnalysis setError word availableVoices
           selectedVoice loading analysis error recentSearches].
      split; [reflexivity|]. split; [reflexivity|]. split; [reflexivity|].
      intros _. split; [reflexivity|]. right. exists safe. auto.
    + rewrite (analyzeWord_throw _ _ _ _ B E).
      cbn [setLoading setRecentSearches setAnalysis setError word availableVoices
           selectedVoice loading analysis error recentSearches].
      split; [reflexivity|]. split; [reflexivity|]. split; [reflexivity|].
      intros _. split; [reflexivity|]. left.
      split; [reflexivity|]. split; [apply report_not_empty|reflexivity].
Qed.

Lemma analyzeWord_outcome_witness :
  analysis (fst (analyzeWord plainMessage (Rejected failedToFetch)
                   (search (lit "casa") initialState)))
  = None
  /\ analysis (search (lit "casa") initialState) <> None.
Proof.
  split; [|vm_compute; discriminate].
  destruct (proj2 (proj2 (proj2
              (analyzeWord_outcome plainMessage (Rejected failedToFetch)
                 (search (lit "casa") initialState))))
              eq_refl) as [_ [(A & _)|(safe & A & _)]].
  - exact A.
  - vm_compute in A. discriminate A.
Defined.

(** *** The recent searches and the voices, update by update *)

Lemma filter_others_count (w : jsstring) (l : list jsstring) :
  NoDup l -> length l <= S (length (filter (fun s => negb (streq s w)) l)).
Proof.
  induction 1 as [|a l Ha Hl IH]; simpl; [lia|].
  destruct (streq a w) eqn:E; simpl; [|lia].
  apply streq_eq in E. subst a.
  assert (F : filter (fun s => negb (streq s w)) l = l).
  { clear IH Hl. induction l as [|b l IH]; [reflexivity|]. simpl.
    destruct (streq b w) eqn:Eb.
    - apply streq_eq in Eb. subst b. exfalso. apply Ha. now left.
    - simpl. f_equal. apply IH. intros Hin. apply Ha. now right. }
  rewrite F. lia.
Qed.

Lemma newSearches_bounds (w : jsstring) (recent : list jsstring) :
  length recent <= 5 -> NoDup recent ->
  length recent <= length (newSearches w recent) <= 5
  /\ NoDup (newSearches w recent).
Proof.
  intros L D. unfold newSearches. rewrite firstn_cons. cbn [length].
  rewrite length_firstn.
  pose proof (filter_others_count w recent D) as C.
  pose proof (filter_length_le (fun s => negb (streq s w)) recent) as F.
  split; [lia|]. constructor.
  - intros Hin. apply In_firstn, filter_In in Hin as [_ Hin].
    now rewrite streq_refl in Hin.
  - now apply NoDup_firstn, NoDup_filter.
Qed.

Lemma newSearches_In (w : jsstring) (recent : list jsstring) (x : jsstring) :
  In x (newSearches w recent) -> x = w \/ In x recent.
Proof.
  unfold newSearches. intros H. apply In_firstn in H. destruct H as [<-|H].
  - now left.
  - right. now apply filter_In in H as [H _].
Qed.

(** X8. The recent-searches list never shrinks and never holds a
    duplicate or a sixth entry: an update of a list of at most five
    distinct entries is a list of at most five distinct entries, at least
    as long, that starts with the word searched and holds nothing but
    that word and entries of the old list. *)
Theorem recent_searches_invariant (w : jsstring) (recent : list jsstring) :
  length recent <= 5 -> NoDup recent ->
  length recent <= length (newSearches w recent) <= 5
  /\ NoDup (newSearches w recent)
  /\ hd_error (newSearches w recent) = Some w
  /\ forall x, In x (newSearches w recent) -> x = w \/ In x recent.
Proof.
  intros L D. destruct (newSearches_bounds w recent L D) as [B N].
  split; [exact B|]. split; [exact N|]. split.
  - reflexivity.
  - apply newSearches_In.
Qed.

Lemma recent_searches_invariant_witness :
  length (recentSearches initialState)
  <= length (newSearches (lit "casa") (recentSearches initialState)) <= 5
  /\ NoDup (newSearches (lit "casa") (recentSearches initialState)).
Proof.
  destruct (recent_searches_invariant (lit "casa") (recentSearches initialState))
    as (B & N & _).
  - simpl. lia.
  - repeat constructor; simpl; intuition discriminate.
  - split; [exact B|exact N].
Defined.

(** What is left of a trimmed text starts and ends with something other
    than white space. *)
Lemma trim_shape (s : jsstring) :
  trim s = []
  \/ exists c0 tl0 bz cz,
       trim s = c0 :: tl0 /\ trim s = bz ++ [cz]
       /\ isWhiteSpace c0 = false /\ isWhiteSpace cz = false.
Proof.
  unfold trim, trimEnd.
  destruct (trimStart s) as [|c0 r] eqn:E; [now left|right].
  pose proof (trimStart_head _ _ _ E) as H0.
  cbn [rev]. destruct (trimStart_keeps_last c0 (rev r) H0) as [Z EZ].
  rewrite EZ. destruct (Z ++ [c0]) as [|cz u] eqn:Eu.
  - now destruct Z.
  - rewrite <- Eu in EZ. rewrite Eu in EZ.
    pose proof (trimStart_head _ _ _ EZ) as Hz.
    exists c0, (rev Z), (rev u), cz. repeat split; auto.
    rewrite <- Eu, rev_app_distr. reflexivity.
Qed.

Lemma trim_idem (s : jsstring) : trim (trim s) = trim s.
Proof.
  destruct (trim_shape s) as [E|(c0 & tl0 & bz & cz & E0 & Ez & H0 & Hz)].
  - now rewrite E.
  - pose proof (trim_core [] [] (trim s) c0 cz tl0 bz eq_refl eq_refl E0 Ez H0 Hz) as T.
    cbn [app] in T. now rewrite app_nil_r in T.
Qed.

(** X9. Loading the voices is idempotent, and the same on the whole
    catalog as on the Spanish voices of it alone: what the other voices
    are, and where they stand, makes no difference. *)
Theorem loadVoices_idempotent
  (toLowerCase : jsstring -> jsstring) (voices : list voice) (st : state) :
  loadVoices toLowerCase voices (loadVoices toLowerCase voices st)
  = loadVoices toLowerCase voices st
  /\ loadVoices toLowerCase (spanishVoices toLowerCase voices) st
     = loadVoices toLowerCase voices st.
Proof.
  split.
  - unfold loadVoices.
    destruct (preferredVoice toLowerCase (spanishVoices toLowerCase voices));
      reflexivity.
  - unfold loadVoices.
    assert (F : spanishVoices toLowerCase (spanishVoices toLowerCase voices)
                = spanishVoices toLowerCase voices).
    { unfold spanishVoices. induction voices as [|v l IH]; [reflexivity|].
      simpl. destruct (isSpanishVoice toLowerCase v) eqn:E; [|exact IH].
      simpl. now rewrite E, IH. }
    now rewrite F.
Qed.

Lemma preferredVoice_In (toLowerCase : jsstring -> jsstring)
  (l : list voice) (v : voice) :
  preferredVoice toLowerCase l = Some v -> In v l.
Proof.
  unfold preferredVoice.
  destruct (find (isGoogleUSVoice toLowerCase) l) as [g|] eqn:G.
  - intros H. injection H as <-. now apply find_some in G as [G _].
  - destruct (find isUSVoice l) as [u|] eqn:U.
    + intros H. injection H as <-. now apply find_some in U as [U _].
    + apply nth_error_In.
Qed.

(** A record [safeAnalysis] makes with a search term that is not empty is
    normalized. *)
Lemma safeAnalysis_normalized (engineMessage : fault -> jsstring)
  (payload : value) (w : jsstring) (safe : value) :
  w <> [] -> safeAnalysis engineMessage payload w = Normal safe ->
  normalized payload safe.
Proof.
  intros Hw H.
  assert (Hn : payload <> VNull).
  { intros ->. rewrite safeAnalysis_null in H. discriminate. }
  rewrite (safeAnalysis_of _ _ _ Hn) in H. injection H as <-.
  eexists. split; [reflexivity|]. split.
  - assert (Tw : truthy (VString w) = true)
      by (destruct w; [contradiction|reflexivity]).
    intros k Hk. unfold defaultedFields in Hk. simpl in Hk.
    destruct Hk as [<-|[<-|[<-|[<-|[<-|[]]]]]]; through_setProps;
      eexists; (split; [reflexivity|]);
      (split; [|apply truthy_not_null]); now apply orElse_truthy.
  - intros k Hk. destruct (not_defaulted k Hk) as (H1 & H2 & H3 & H4 & H5).
    now rewrite !lookup_setProp_other.
Qed.

(** *** A session *)

Section SessionFacts.

Variable toLowerCase : jsstring -> jsstring.
Variable numberToString : Z -> Z -> jsstring.
Variable primitiveError : jsError.
Variable engineMessage : fault -> jsstring.

(** The invariant reads the word and the error of no state. *)
Lemma stateInvariant_ext (st st' : state) :
  recentSearches st' = recentSearches st ->
  availableVoices st' = availableVoices st ->
  selectedVoice st' = selectedVoice st ->
  analysis st' = analysis st \/ analysis st' = None ->
  loading st' = loading st ->
  stateInvariant toLowerCase st -> stateInvariant toLowerCase st'.
Proof.
  intros R V S A L (H1 & H2 & H3 & H4 & H5 & H6 & H7).
  unfold stateInvariant. rewrite R, V, S, L.
  split; [exact H1|]. split; [exact H2|]. split; [exact H3|].
  split; [exact H4|]. split; [exact H5|]. split; [|exact H7].
  intros safe E. destruct A as [A|A]; rewrite A in E; [now apply H6|discriminate].
Qed.

Lemma stateInvariant_initial : stateInvariant toLowerCase initialState.
Proof.
  unfold stateInvariant, initialState.
  cbn [recentSearches availableVoices selectedVoice analysis loading].
  split; [repeat constructor; simpl; intuition discriminate|].
  split; [simpl; lia|].
  split; [repeat constructor; discriminate|].
  split; [constructor|]. repeat split; discriminate.
Qed.

Lemma analyzeWord_keeps (net : fetched) (st : state) :
  stateInvariant toLowerCase st ->
  stateInvariant toLowerCase (fst (analyzeWord engineMessage net st)).
Proof.
  intros I. destruct (blank (word st)) eqn:B.
  - rewrite (analyzeWord_blank _ _ _ B). cbn [fst].
    apply (stateInvariant_ext st); auto.
  - destruct (analysisOf engineMessage (trim (word st)) net) as [safe|err] eqn:E.
    + rewrite (analyzeWord_normal _ _ _ _ B E).
      destruct I as (H1 & H2 & H3 & H4 & H5 & H6 & H7).
      assert (T : trim (word st) <> []).
      { intros T. apply trim_nil in T. congruence. }
      destruct (newSearches_bounds (trim (word st)) (recentSearches st))
        as [L D]; [lia|assumption|].
      unfold stateInvariant.
      cbn [setLoading setRecentSearches setAnalysis setError recentSearches
           availableVoices selectedVoice analysis loading].
      split; [exact D|]. split; [lia|].
      split.
      { apply Forall_forall. intros x Hx.
        apply newSearches_In in Hx as [->|Hx].
        - split; [exact T|apply trim_idem].
        - now apply (proj1 (Forall_forall _ _) H3). }
      split; [exact H4|]. split; [exact H5|]. split; [|reflexivity].
      intros safe' Es. injection Es as <-.
      apply analysisOf_normal in E as [payload E].
      exists payload. now apply (safeAnalysis_normalized engineMessage _ _ _ T E).
    + rewrite (analyzeWord_throw _ _ _ _ B E).
      destruct I as (H1 & H2 & H3 & H4 & H5 & H6 & H7).
      unfold stateInvariant.
      cbn [setLoading setRecentSearches setAnalysis setError recentSearches
           availableVoices selectedVoice analysis loading].
      split; [exact H1|]. split; [exact H2|]. split; [exact H3|].
      split; [exact H4|]. split; [exact H5|]. split; [discriminate|reflexivity].
Qed.

Lemma clickRecent_fst (search : jsstring) (net : fetched) (st : state) :
  clickRecent engineMessage search net st
  = (setWord search (fst (analyzeWord engineMessage net st)),
     snd (analyzeWord engineMessage net st)).
Proof.
  unfold clickRecent. now destruct (analyzeWord engineMessage net st).
Qed.

Lemma loadVoices_keeps (voices : list voice) (st : state) :
  stateInvariant toLowerCase st ->
  stateInvariant toLowerCase (loadVoices toLowerCase voices st).
Proof.
  intros (H1 & H2 & H3 & H4 & H5 & H6 & H7).
  assert (F : Forall (fun v => isSpanishVoice toLowerCase v = true)
                (spanishVoices toLowerCase voices)).
  { apply Forall_forall. intros v Hv. now apply filter_In in Hv as [_ Hv]. }
  unfold loadVoices, stateInvariant.
  destruct (preferredVoice toLowerCase (spanishVoices toLowerCase voices))
    as [p|] eqn:P;
    cbn [setSelectedVoice setAvailableVoices recentSearches availableVoices
         selectedVoice analysis loading];
    (split; [exact H1|]); (split; [exact H2|]); (split; [exact H3|]);
    (split; [exact F|]); (split; [|split; [exact H6|exact H7]]);
    [|exact H5].
  intros v E. injection E as <-.
  apply preferredVoice_In in P. now apply (proj1 (Forall_forall _ _) F).
Qed.

Lemma toggleSection_keeps (section : jsstring) (u : ui) :
  Forall (fun k => exists b, lookup k (expandedSections u) = Some (VBool b))
    sectionNames ->
  Forall (fun k => exists b,
            lookup k (expandedSections (toggleSection section u)) = Some (VBool b))
    sectionNames.
Proof.
  apply Forall_impl. intros k [b Hb].
  unfold toggleSection. cbn [setExpandedSections expandedSections].
  destruct (streq k section) eqn:E.
  - apply streq_eq in E. subst k. rewrite lookup_setProp_same. eauto.
  - rewrite (lookup_setProp_other _ _ _ _ E). eauto.
Qed.

Lemma handle_keeps (e : event) (u : ui) :
  sessionInvariant toLowerCase u ->
  sessionInvariant toLowerCase
    (handle toLowerCase numberToString primitiveError engineMessage e u).
Proof.
  intros [I S]. destruct e as [w|net|n net|voices|n| |section|accepts| ];
    cbn [handle].
  - split; [|exact S]. cbn [setApp appState].
    apply (stateInvariant_ext (appState u)); auto.
  - split; [|exact S]. cbn [setApp appState]. now apply analyzeWord_keeps.
  - destruct (nth_error (recentSearches (appState u)) n) as [search|];
      [|now split].
    split; [|exact S]. cbn [setApp appState]. rewrite clickRecent_fst. cbn [fst].
    apply (stateInvariant_ext (fst (analyzeWord engineMessage net (appState u))));
      auto.
    now apply analyzeWord_keeps.
  - split; [|exact S]. cbn [setApp appState]. now apply loadVoices_keeps.
  - destruct (nth_error (availableVoices (appState u)) n) as [v|] eqn:E;
      [|now split].
    split; [|exact S].
    destruct I as (H1 & H2 & H3 & H4 & H5 & H6 & H7).
    unfold chooseVoice, stateInvariant.
    cbn [setShowVoiceSelector setApp appState setSelectedVoice recentSearches
         availableVoices selectedVoice analysis loading].
    split; [exact H1|]. split; [exact H2|]. split; [exact H3|].
    split; [exact H4|]. split; [|split; [exact H6|exact H7]].
    intros v' Ev. injection Ev as <-.
    apply nth_error_In in E. now apply (proj1 (Forall_forall _ _) H4).
  - now split.
  - destruct (existsb (streq section) sectionNames); [|now split].
    split; [exact I|]. now apply toggleSection_keeps.
  - unfold copyAnalysis.
    destruct (analysis (appState u)) as [a|]; [|now split].
    destruct (negb (truthy a)); [now split|].
    destruct (copyText numberToString primitiveError engineMessage a);
      [|now split].
    destruct accepts; now split.
  - now split.
Qed.

Lemma session_keeps (events : list event) (u : ui) :
  sessionInvariant toLowerCase u ->
  sessionInvariant toLowerCase
    (fold_left
       (fun u e => handle toLowerCase numberToString primitiveError engineMessage e u)
       events u).
Proof.
  revert u; induction events as [|e events IH]; intros u I; [exact I|].
  cbn [fold_left]. apply IH. now apply handle_keeps.
Qed.

Lemma session_safe (events : list event) :
  sessionInvariant toLowerCase
    (session toLowerCase numberToString primitiveError engineMessage events).
Proof.
  apply session_keeps. split; [apply stateInvariant_initial|].
  repeat constructor; exists true; reflexivity.
Qed.

End SessionFacts.

(** X10. Whatever the user and the host do in a session, in whatever
    order, and whatever the responses are: the recent searches are three
    to five distinct entries, each trimmed and not empty; every voice on
    offer, and the selected voice, is Spanish; the analysis shown, if
    any, is a normalized record; no flow is left loading; each of the
    four sections is open or closed. *)
Theorem session_invariant
  (toLowerCase : jsstring -> jsstring) (numberToString : Z -> Z -> jsstring)
  (primitiveError : jsError) (engineMessage : fault -> jsstring)
  (events : list event) :
  let u := session toLowerCase numberToString primitiveError engineMessage events in
  NoDup (recentSearches (appState u))
  /\ 3 <= length (recentSearches (appState u)) <= 5
  /\ Forall (fun s => s <> [] /\ trim s = s) (recentSearches (appState u))
  /\ Forall (fun v => isSpanishVoice toLowerCase v = true)
       (availableVoices (appState u))
  /\ (forall v, selectedVoice (appState u) = Some v ->
                isSpanishVoice toLowerCase v = true)
  /\ (forall safe, analysis (appState u) = Some safe ->
                   exists payload, normalized payload safe)
  /\ loading (appState u) = false
  /\ Forall (fun k => exists b, lookup k (expandedSections u) = Some (VBool b))
       sectionNames.
Proof.
  intros u.
  destruct (session_safe toLowerCase numberToString primitiveError engineMessage
              events) as [(H1 & H2 & H3 & H4 & H5 & H6 & H7) S].
  split; [exact H1|]. split; [exact H2|]. split; [exact H3|].
  split; [exact H4|]. split; [exact H5|]. split; [exact H6|].
  split; [exact H7|exact S].
Qed.

(** *** The buttons *)

Lemma report_not_input (err : jsError) : report err <> inputErrorMessage.
Proof.
  unfold report. destruct (includes _ _); [discriminate|].
  destruct (streq _ _); discriminate.
Qed.

(** X11. The submit button is disabled exactly when the flow would issue
    no request (line 260 against line 47): a click on the enabled button
    always issues the request for the trimmed word and never sets the
    input error, which only the Enter key and the recent-search buttons
    can bring up. *)
Theorem enabled_submit_issues_request
  (engineMessage : fault -> jsstring) (net : fetched) (st : state) :
  loading st = false ->
  (submitDisabled st = true <-> snd (analyzeWord engineMessage net st) = [])
  /\ (submitDisabled st = false ->
      snd (analyzeWord engineMessage net st) = [completionRequest (trim (word st))]
      /\ error (fst (analyzeWord engineMessage net st)) <> inputErrorMessage).
Proof.
  intros L. unfold submitDisabled. rewrite L, isEmpty_trim. cbn [orb].
  destruct (blank (word st)) eqn:B.
  - rewrite (analyzeWord_blank _ _ _ B). cbn [snd].
    split; [tauto|discriminate].
  - split.
    + rewrite (analyzeWord_run _ _ _ B). cbn [snd]. split; discriminate.
    + intros _. split; [now rewrite (analyzeWord_run _ _ _ B)|].
      destruct (analysisOf engineMessage (trim (word st)) net) as [safe|err] eqn:E.
      * rewrite (analyzeWord_normal _ _ _ _ B E).
        cbn [setLoading setRecentSearches setAnalysis setError error]. discriminate.
      * rewrite (analyzeWord_throw _ _ _ _ B E).
        cbn [setLoading setAnalysis setError error]. apply report_not_input.
Qed.

Lemma enabled_submit_issues_request_witness :
  submitDisabled casaTyped = false
  /\ snd (analyzeWord plainMessage (Rejected failedToFetch) casaTyped)
     = [completionRequest (lit "casa")]
  /\ submitDisabled (setWord (lit "  ") initialState) = true.
Proof.
  split; [reflexivity|]. split; [|reflexivity].
  exact (proj1 (proj2 (enabled_submit_issues_request plainMessage
                         (Rejected failedToFetch) casaTyped eq_refl) eq_refl)).
Defined.

(** X12. A recent-search button analyzes the word of the render it was
    made in, not the search it shows (line 483): [setWord] only asks for
    the next render, and [analyzeWord] reads the [word] of this one. The
    request, the analysis, the error and the recent searches are those
    of a submit of the previous word; only the input field shows the
    clicked search. With a blank field, as in a fresh session, the click
    sets the input error and issues no request; a second click on the
    same button then asks for the search it shows. *)
Theorem recent_click_reads_previous_word
  (engineMessage : fault -> jsstring) (search : jsstring) (net : fetched)
  (st : state) :
  fst (clickRecent engineMessage search net st)
  = setWord search (fst (analyzeWord engineMessage net st))
  /\ snd (clickRecent engineMessage search net st)
     = snd (analyzeWord engineMessage net st)
  /\ (blank (word st) = true ->
      clickRecent engineMessage search net st
      = (setWord search (setError inputErrorMessage st), []))
  /\ (blank (word st) = false ->
      snd (clickRecent engineMessage search net st)
      = [completionRequest (trim (word st))])
  /\ (forall net',
        blank search = false ->
        snd (clickRecent engineMessage search net'
               (fst (clickRecent engineMessage search net st)))
        = [completionRequest (trim search)]).
Proof.
  rewrite !clickRecent_fst. cbn [fst snd].
  split; [reflexivity|]. split; [reflexivity|]. split; [|split].
  - intros B. now rewrite (analyzeWord_blank _ _ _ B).
  - intros B. now rewrite (analyzeWord_run _ _ _ B).
  - intros net' B. rewrite clickRecent_fst. cbn [snd].
    now rewrite (analyzeWord_run engineMessage net'
                   (setWord search (fst (analyzeWord engineMessage net st))) B).
Qed.

(** In a fresh session a click on "biblioteca" issues no request; a click
    on it after "casa" was typed asks for "casa". *)
Lemma recent_click_reads_previous_word_witness :
  clickRecent plainMessage (lit "biblioteca") (completed casaPayload) initialState
  = (setWord (lit "biblioteca") (setError inputErrorMessage initialState), [])
  /\ snd (clickRecent plainMessage (lit "biblioteca") (completed casaPayload) casaTyped)
     = [completionRequest (lit "casa")].
Proof.
  split.
  - exact (proj1 (proj2 (proj2 (recent_click_reads_previous_word plainMessage
             (lit "biblioteca") (completed casaPayload) initialState))) eq_refl).
  - exact (proj1 (proj2 (proj2 (proj2 (recent_click_reads_previous_word
             plainMessage (lit "biblioteca") (completed casaPayload) casaTyped))))
             eq_refl).
Defined.

Lemma setProp_back (k : jsstring) (v v' : value) (ps : list (jsstring * value)) :
  lookup k ps = Some v -> setProp k v (setProp k v' ps) = ps.
Proof.
  induction ps as [|[k0 v0] ps IH]; [discriminate|].
  cbn [lookup setProp]. destruct (streq k k0) eqn:E.
  - intros H. injection H as ->. cbn [setProp]. rewrite streq_refl.
    apply streq_eq in E. now subst k0.
  - intros H. cbn [setProp]. rewrite E. now rewrite (IH H).
Qed.

(** X13. Toggling a section that is open or closed flips it and no
    other: the section is shown after the toggle exactly when it was
    not before, every other section is shown as before, and a second
    toggle brings back the very state. *)
Theorem toggleSection_flips (section : jsstring) (u : ui) (b : bool) :
  lookup section (expandedSections u) = Some (VBool b) ->
  sectionShown section (toggleSection section u) = negb (sectionShown section u)
  /\ (forall k, k <> section ->
        sectionShown k (toggleSection section u) = sectionShown k u)
  /\ toggleSection section (toggleSection section u) = u.
Proof.
  intros H. unfold sectionShown, toggleSection, flipped.
  cbn [setExpandedSections expandedSections appState copied showVoiceSelector].
  rewrite !lookup_setProp_same, H. cbn [truthy].
  split; [reflexivity|]. split.
  - intros k Hk. apply streq_neq in Hk. now rewrite (lookup_setProp_other _ _ _ _ Hk).
  - rewrite negb_involutive, (setProp_back _ _ _ _ H). now destruct u.
Qed.

Lemma toggleSection_flips_witness :
  sectionShown (lit "mnemonic") (toggleSection (lit "mnemonic") initialUi) = false
  /\ sectionShown (lit "related") (toggleSection (lit "mnemonic") initialUi) = true
  /\ toggleSection (lit "mnemonic") (toggleSection (lit "mnemonic") initialUi)
     = initialUi.
Proof.
  destruct (toggleSection_flips (lit "mnemonic") initialUi true eq_refl)
    as (A & B & C).
  split; [exact A|]. split; [|exact C].
  apply (B (lit "related")). discriminate.
Defined.

(** X14. [speakWord] says nothing without an analysis, without a
    selected voice or without speech synthesis in the window; otherwise
    it speaks once, the word of the analysis, with the selected voice,
    at rate 0.8 and pitch 1; a record without a [word] is spoken as the
    empty text. *)
Theorem speakWord_speaks_word
  (numberToString : Z -> Z -> jsstring) (primitiveError : jsError)
  (engineMessage : fault -> jsstring) (available : bool) (st : state) :
  (analysis st = None \/ selectedVoice st = None \/ available = false ->
   speakWord numberToString primitiveError engineMessage available st = Normal [])
  /\ (forall props v,
        analysis st = Some (VObject props) -> selectedVoice st = Some v ->
        (forall w,
           lookup (lit "word") props = Some (VString w) ->
           speakWord numberToString primitiveError engineMessage true st
           = Normal [{| uttText := w; uttVoice := v;
                        uttRate := (8%Z, (-1)%Z); uttPitch := (1%Z, 0%Z) |}])
        /\ (lookup (lit "word") props = None ->
            speakWord numberToString primitiveError engineMessage true st
            = Normal [{| uttText := []; uttVoice := v;
                         uttRate := (8%Z, (-1)%Z); uttPitch := (1%Z, 0%Z) |}])).
Proof.
  unfold speakWord. split.
  - intros [H|[H|H]]; rewrite H.
    + reflexivity.
    + now destruct (analysis st).
    + destruct (analysis st) as [a|]; [|reflexivity].
      destruct (selectedVoice st); [|reflexivity]. now rewrite andb_false_r.
  - intros props v A S. rewrite A, S. cbn [truthy andb member bind].
    split; [intros w H|intros H]; rewrite H; reflexivity.
Qed.

Lemma speakWord_speaks_word_witness :
  speakWord integerToString cannotConvert plainMessage true
    (setSelectedVoice (Some monicaVoice) (setAnalysis (Some casaRecord) initialState))
  = Normal [{| uttText := lit "casa"; uttVoice := monicaVoice;
               uttRate := (8%Z, (-1)%Z); uttPitch := (1%Z, 0%Z) |}]
  /\ speakWord integerToString cannotConvert plainMessage true
       (setAnalysis (Some casaRecord) initialState)
     = Normal [].
Proof.
  split.
  - refine (proj1 (proj2 (speakWord_speaks_word integerToString cannotConvert
              plainMessage true
              (setSelectedVoice (Some monicaVoice)
                 (setAnalysis (Some casaRecord) initialState))) _ monicaVoice
              eq_refl eq_refl) (lit "casa") eq_refl).
  - apply (proj1 (speakWord_speaks_word integerToString cannotConvert
              plainMessage true (setAnalysis (Some casaRecord) initialState))).
    right. left. reflexivity.
Defined.

(** X15. Whatever happened in the session before, the speak button
    speaks at most once, and only with the selected voice, a Spanish
    one, at rate 0.8 and pitch 1. *)
Theorem speech_in_session
  (toLowerCase : jsstring -> jsstring) (numberToString : Z -> Z -> jsstring)
  (primitiveError : jsError) (engineMessage : fault -> jsstring)
  (events : list event) (available : bool) (spoken : list utterance) :
  speakWord numberToString primitiveError engineMessage available
    (appState (session toLowerCase numberToString primitiveError engineMessage events))
  = Normal spoken ->
  length spoken <= 1
  /\ forall u, In u spoken ->
       selectedVoice
         (appState (session toLowerCase numberToString primitiveError
                      engineMessage events))
       = Some (uttVoice u)
       /\ isSpanishVoice toLowerCase (uttVoice u) = true
       /\ uttRate u = (8%Z, (-1)%Z) /\ uttPitch u = (1%Z, 0%Z).
Proof.
  destruct (session_safe toLowerCase numberToString primitiveError engineMessage
              events) as [(_ & _ & _ & _ & V & _) _].
  revert V.
  generalize (appState (session toLowerCase numberToString primitiveError
                          engineMessage events)).
  intros st V. unfold speakWord.
  destruct (analysis st) as [a|];
    [|intros H; injection H as <-; split; [simpl; lia|intros u []]].
  destruct (selectedVoice st) as [v|];
    [|intros H; injection H as <-; split; [simpl; lia|intros u []]].
  destruct (truthy a && available);
    [|intros H; injection H as <-; split; [simpl; lia|intros u []]].
  destruct (member engineMessage (Some a) (lit "word")) as [w|e];
    cbn [bind]; [|discriminate].
  destruct (utteranceText numberToString primitiveError w) as [text|e];
    cbn [bind]; [|discriminate].
  intros H. injection H as <-. split; [simpl; lia|].
  intros u [<-|[]]. cbn [uttVoice uttRate uttPitch]. repeat split.
  now apply V.
Qed.

Lemma speech_in_session_witness :
  exists u,
    speakWord integerToString cannotConvert plainMessage true
      (appState (session asciiLower integerToString cannotConvert plainMessage
                   [VoicesChanged [samanthaVoice; monicaVoice; googleVoice];
                    Typed (lit " casa "); Submitted (completed casaPayload)]))
    = Normal [u]
    /\ uttText u = lit "casa" /\ uttVoice u = googleVoice
    /\ isSpanishVoice asciiLower (uttVoice u) = true.
Proof.
  eexists. split; [vm_compute; reflexivity|]. split; [reflexivity|].
  split; [reflexivity|].
  refine (proj1 (proj2 (proj2 (speech_in_session asciiLower integerToString
            cannotConvert plainMessage
            [VoicesChanged [samanthaVoice; monicaVoice; googleVoice];
             Typed (lit " casa "); Submitted (completed casaPayload)]
            true _ _) _ _))).
  - vm_compute. reflexivity.
  - left. reflexivity.
Defined.

(** *** What the record is shown and copied as *)

Lemma mapResult_throw {A B : Type} (f : A -> result B) (l : list A) (x : A)
  (e0 : jsError) :
  In x l -> f x = Throw e0 -> exists e, mapResult f l = Throw e.
Proof.
  intros Hin Hx. induction l as [|a l IH]; [destruct Hin|].
  cbn [mapResult]. destruct (f a) as [b|e] eqn:E; cbn [bind]; [|eauto].
  destruct Hin as [->|Hin]; [congruence|].
  destruct (IH Hin) as [e' ->]. cbn [bind]. eauto.
Qed.

(** The rows of a sentence list that holds no [null]. *)
Lemma renderSentences_rows (engineMessage : fault -> jsstring) (a : value)
  (items : list value) :
  ownField a (lit "sampleSentences") = Some (VArray items) ->
  Forall (fun s => s <> VNull) items ->
  renderSentences engineMessage a
  = Normal (map (fun s => (orElse (ownField s (lit "spanish")) (VString (lit "N/A")),
                           orElse (ownField s (lit "english")) (VString (lit "N/A"))))
              items).
Proof.
  intros H.
  assert (Ha : a <> VNull) by (intros ->; discriminate H).
  unfold renderSentences. rewrite (member_of _ _ _ Ha), H.
  cbn [bind mapOver orElse truthy]. clear H.
  induction 1 as [|s l Hs Hl IH]; [reflexivity|].
  cbn [mapResult map]. unfold renderSentence at 1.
  rewrite !(member_of _ _ _ Hs). cbn [bind]. now rewrite IH.
Qed.

(** X16. The sample sentences as the render shows them (lines 454-461).
    An entry that is [null] makes the render throw. Otherwise the two
    children of a row are the entry's Spanish and English values, 'N/A'
    in the place of a value that is missing or falsy, and React shows
    each as its text: when every child can be shown, there is one row of
    two texts for each entry, in order; when a child of some row is an
    object, React refuses it and the render throws. *)
Theorem sentences_rendered
  (numberToString : Z -> Z -> jsstring) (childError : jsError)
  (engineMessage : fault -> jsstring) (a : value) (items : list value) :
  ownField a (lit "sampleSentences") = Some (VArray items) ->
  (In VNull items ->
   exists e, sentencesShown numberToString childError engineMessage a = Throw e)
  /\ (forall texts,
        Forall2 (fun item text =>
                   item <> VNull
                   /\ childText numberToString childError
                        (orElse (ownField item (lit "spanish")) (VString (lit "N/A")))
                      = Normal (fst text)
                   /\ childText numberToString childError
                        (orElse (ownField item (lit "english")) (VString (lit "N/A")))
                      = Normal (snd text))
          items texts ->
        sentencesShown numberToString childError engineMessage a = Normal texts)
  /\ (Forall (fun s => s <> VNull) items ->
      Exists (fun item =>
                (exists props,
                   orElse (ownField item (lit "spanish")) (VString (lit "N/A"))
                   = VObject props)
                \/ (exists props,
                      orElse (ownField item (lit "english")) (VString (lit "N/A"))
                      = VObject props))
        items ->
      exists e, sentencesShown numberToString childError engineMessage a = Throw e).
Proof.
  intros H. split; [|split].
  - intros Hin. unfold sentencesShown.
    assert (Ha : a <> VNull) by (intros ->; discriminate H).
    unfold renderSentences. rewrite (member_of _ _ _ Ha), H.
    cbn [bind mapOver orElse truthy].
    destruct (mapResult_throw (renderSentence engineMessage) items VNull
                {| errName := lit "TypeError";
                   errMessage := engineMessage (NoBase (lit "spanish")) |}
                Hin eq_refl) as [e ->].
    cbn [bind]. eauto.
  - intros texts F. unfold sentencesShown.
    rewrite (renderSentences_rows engineMessage a items H).
    + cbn [bind]. clear H.
      induction F as [|item text items texts (_ & Hs & He) _ IH]; [reflexivity|].
      cbn [map mapResult]. unfold shownSentence at 1. cbn [fst snd].
      rewrite Hs. cbn [bind]. rewrite He. cbn [bind]. rewrite IH. cbn [bind].
      now destruct text.
    + clear H. induction F as [|item text items texts (Hn & _) _ IH];
        constructor; assumption.
  - intros Hn Hex. unfold sentencesShown.
    rewrite (renderSentences_rows engineMessage a items H Hn). cbn [bind].
    apply Exists_exists in Hex as (item & Hin & Hobj).
    set (row := fun s => (orElse (ownField s (lit "spanish")) (VString (lit "N/A")),
                          orElse (ownField s (lit "english")) (VString (lit "N/A")))).
    assert (T : exists e0, shownSentence numberToString childError (row item)
                           = Throw e0).
    { unfold shownSentence, row. cbn [fst snd].
      destruct Hobj as [[props ->]|[props ->]].
      - cbn [childText bind]. eauto.
      - destruct (childText numberToString childError
                    (orElse (ownField item (lit "spanish")) (VString (lit "N/A"))));
          cbn [childText bind]; eauto. }
    destruct T as [e0 T].
    apply (mapResult_throw _ _ (row item) e0); [|exact T].
    now apply in_map.
Qed.

(** The sentences of [casaRecord], the second without an English text;
    and a sentence whose Spanish text is an object. *)
Lemma sentences_rendered_witness :
  sentencesShown integerToString objectChildError plainMessage casaRecord
  = Normal [(lit "Mi casa", lit "My house"); (lit "La casa", lit "N/A")]
  /\ exists e,
       sentencesShown integerToString objectChildError plainMessage
         (VObject [(lit "sampleSentences",
                    VArray [VObject [(lit "spanish",
                                      VObject [(lit "text", VString (lit "Hola"))])]])])
       = Throw e.
Proof.
  split.
  - refine (proj1 (proj2 (sentences_rendered integerToString objectChildError
                            plainMessage casaRecord _ eq_refl)) _ _).
    repeat constructor; discriminate.
  - refine (proj2 (proj2 (sentences_rendered integerToString objectChildError
                            plainMessage
                            (VObject [(lit "sampleSentences",
                               VArray [VObject [(lit "spanish",
                                 VObject [(lit "text", VString (lit "Hola"))])]])])
                            [VObject [(lit "spanish",
                               VObject [(lit "text", VString (lit "Hola"))])]]
                            eq_refl)) _ _).
    + repeat constructor. discriminate.
    + constructor. left. eexists. reflexivity.
Defined.

Lemma confidence_of (engineMessage : fault -> jsstring) (payload : value)
  (w : jsstring) (safe : value) :
  safeAnalysis engineMessage payload w = Normal safe ->
  ownField safe (lit "confidence")
  = Some (orElse (ownField payload (lit "confidence")) (VString (lit "medium"))).
Proof.
  intros H.
  assert (Hn : payload <> VNull).
  { intros ->. rewrite safeAnalysis_null in H. discriminate. }
  rewrite (safeAnalysis_of _ _ _ Hn) in H. injection H as <-.
  cbn [ownField]. now through_setProps.
Qed.

(** X17. The confidence dot of a normalized record (lines 190-204)
    always gets a level. It is amber, the colour of "medium", when the
    payload has no confidence or a falsy one, and also when its
    confidence is a string other than "high", "medium" and "low" that
    names no property of [Object.prototype]: the level the normalizer
    keeps as it is, is shown as if it were "medium". "high" is emerald
    and "low" red. *)
Theorem indicator_on_record
  (engineMessage : fault -> jsstring) (numberToString : Z -> Z -> jsstring)
  (primitiveError : jsError) (inheritedText : jsstring -> option jsstring)
  (payload : value) (w : jsstring) (safe : value) :
  safeAnalysis engineMessage payload w = Normal safe ->
  ownField safe (lit "confidence") <> None
  /\ (orElse (ownField payload (lit "confidence")) VNull = VNull ->
      indicatorClass numberToString primitiveError inheritedText
        (ownField safe (lit "confidence"))
      = Normal (lit "w-2 h-2 rounded-full bg-amber-500"))
  /\ (forall s,
        ownField payload (lit "confidence") = Some (VString s) -> s <> [] ->
        indicatorClass numberToString primitiveError inheritedText
          (ownField safe (lit "confidence"))
        = Normal (lit "w-2 h-2 rounded-full "
                  ++ (if streq s (lit "high") then lit "bg-emerald-500"
                      else if streq s (lit "low") then lit "bg-red-500"
                      else if streq s (lit "medium") then lit "bg-amber-500"
                      else match inheritedText s with
                           | Some text => text
                           | None => lit "bg-amber-500"
                           end))).
Proof.
  intros H. rewrite (confidence_of _ _ _ _ H).
  split; [discriminate|]. split.
  - intros F.
    assert (E : orElse (ownField payload (lit "confidence")) (VString (lit "medium"))
                = VString (lit "medium")).
    { destruct (ownField payload (lit "confidence")) as [v|]; [|reflexivity].
      cbn [orElse] in *. destruct (truthy v) eqn:T; [|reflexivity].
      subst v. discriminate T. }
    rewrite E. reflexivity.
  - intros s E Hs. rewrite E. cbn [orElse truthy].
    destruct s as [|c s]; [contradiction|]. cbn [isEmpty negb].
    unfold indicatorClass. cbn [optToStr toStr bind colors lookup].
    destruct (streq (c :: s) (lit "high")); [reflexivity|].
    destruct (streq (c :: s) (lit "medium")) eqn:M.
    + apply streq_eq in M. rewrite M. reflexivity.
    + destruct (streq (c :: s) (lit "low")); [reflexivity|].
      now destruct (inheritedText (c :: s)).
Qed.

(** The payload [{"confidence":"certain"}] gets the amber dot. *)
Lemma indicator_on_record_witness :
  indicatorClass integerToString cannotConvert prototypeText
    (ownField
       (VObject (setProp (lit "pronunciation") (VString (lit "casa"))
                (setProp (lit "languageFamily") (VString (lit "Romance"))
                (setProp (lit "confidence") (VString (lit "certain"))
                (setProp (lit "sampleSentences") (VArray [])
                (setProp (lit "relatedEnglishWords") (VArray [])
                   [(lit "confidence", VString (lit "certain"))]))))))
       (lit "confidence"))
  = Normal (lit "w-2 h-2 rounded-full bg-amber-500").
Proof.
  refine (proj2 (proj2 (indicator_on_record plainMessage integerToString
            cannotConvert prototypeText
            (VObject [(lit "confidence", VString (lit "certain"))]) (lit "casa")
            _ eq_refl)) (lit "certain") eq_refl _).
  discriminate.
Defined.

(** *** [copyAnalysis] *)

Lemma joinWith_cons (f : value -> result jsstring) (sep : jsstring)
  (x y : value) (r : list value) :
  joinWith f sep (x :: y :: r)
  = (a <- f x ;; b <- joinWith f sep (y :: r) ;; Normal (a ++ sep ++ b)).
Proof. reflexivity. Qed.

Lemma joinWith_strings (numberToString : Z -> Z -> jsstring)
  (primitiveError : jsError) (sep : jsstring) (rs : list jsstring) :
  joinWith (elementStr numberToString primitiveError) sep (map VString rs)
  = Normal (joinStrings sep rs).
Proof.
  induction rs as [|x [|y rs] IH]; try reflexivity.
  change (map VString (x :: y :: rs))
    with (VString x :: VString y :: map VString rs).
  rewrite joinWith_cons.
  change (VString y :: map VString rs) with (map VString (y :: rs)).
  rewrite IH. reflexivity.
Qed.

(** The text [copyAnalysis] builds for a record that is an object. *)
Lemma copyText_object (numberToString : Z -> Z -> jsstring)
  (primitiveError : jsError) (engineMessage : fault -> jsstring)
  (props : list (jsstring * value)) :
  copyText numberToString primitiveError engineMessage (VObject props)
  = (w <- optToStr numberToString primitiveError (lookup (lit "word") props) ;;
     m <- optToStr numberToString primitiveError
            (lookup (lit "englishMeaning") props) ;;
     e <- optToStr numberToString primitiveError (lookup (lit "etymology") props) ;;
     r <- joined numberToString primitiveError engineMessage
            (lookup (lit "relatedEnglishWords") props) (lit ", ") ;;
     n <- optToStr numberToString primitiveError (lookup (lit "mnemonic") props) ;;
     lines <- mapped numberToString primitiveError engineMessage
                (lookup (lit "sampleSentences") props) ;;
     Normal ([0xD83D; 0xDCD8]%N ++ lit " " ++ w ++ lit " - " ++ m
             ++ newline ++ newline
             ++ [0xD83E; 0xDDEC]%N ++ lit " Etymology: " ++ e
             ++ newline ++ newline
             ++ [0xD83C; 0xDF3F]%N ++ lit " Related English Words: " ++ r
             ++ newline ++ newline
             ++ [0xD83E; 0xDDE0]%N ++ lit " Mnemonic: " ++ n
             ++ newline ++ newline
             ++ [0x270D; 0xFE0F]%N ++ lit " Sample Sentences:" ++ newline
             ++ joinStrings newline lines)).
Proof. reflexivity. Qed.

(** X18. What the copy button writes (lines 160-169): the five headed
    paragraphs, with the word and the meaning, the etymology, the
    related words joined by a comma and a space, the mnemonic, and one
    bulleted line for each sample sentence; a field the record lacks is
    written as "undefined". The copied flag is set when the clipboard
    takes the text and stays as it is when the clipboard refuses. *)
Theorem copy_layout
  (numberToString : Z -> Z -> jsstring) (primitiveError : jsError)
  (engineMessage : fault -> jsstring) (accepts : bool) (u : ui)
  (props : list (jsstring * value)) (w m e n : jsstring) (rs : list jsstring)
  (items : list value) (texts : list (jsstring * jsstring)) :
  analysis (appState u) = Some (VObject props) ->
  optToStr numberToString primitiveError (lookup (lit "word") props) = Normal w ->
  optToStr numberToString primitiveError (lookup (lit "englishMeaning") props)
  = Normal m ->
  optToStr numberToString primitiveError (lookup (lit "etymology") props)
  = Normal e ->
  optToStr numberToString primitiveError (lookup (lit "mnemonic") props)
  = Normal n ->
  lookup (lit "relatedEnglishWords") props = Some (VArray (map VString rs)) ->
  lookup (lit "sampleSentences") props = Some (VArray items) ->
  Forall2 (fun item text =>
             item <> VNull
             /\ optToStr numberToString primitiveError
                  (ownField item (lit "spanish")) = Normal (fst text)
             /\ optToStr numberToString primitiveError
                  (ownField item (lit "english")) = Normal (snd text))
    items texts ->
  let text :=
    [0xD83D; 0xDCD8]%N ++ lit " " ++ w ++ lit " - " ++ m ++ [10; 10]%N
    ++ [0xD83E; 0xDDEC]%N ++ lit " Etymology: " ++ e ++ [10; 10]%N
    ++ [0xD83C; 0xDF3F]%N ++ lit " Related English Words: "
    ++ joinStrings (lit ", ") rs ++ [10; 10]%N
    ++ [0xD83E; 0xDDE0]%N ++ lit " Mnemonic: " ++ n ++ [10; 10]%N
    ++ [0x270D; 0xFE0F]%N ++ lit " Sample Sentences:" ++ [10]%N
    ++ joinStrings [10]%N
         (map (fun text => [0x2022]%N ++ lit " " ++ fst text ++ lit " - " ++ snd text)
            texts) in
  copyAnalysis numberToString primitiveError engineMessage accepts u
  = if accepts then (setCopied true u, Wrote text) else (u, Refused text).
Proof.
  intros A Hw Hm He Hn Hr Hs Hitems text.
  assert (L : mapResult (sentenceLine numberToString primitiveError engineMessage)
                items
              = Normal (map (fun text => [0x2022]%N ++ lit " " ++ fst text
                                         ++ lit " - " ++ snd text) texts)).
  { clear Hs. induction Hitems as [|item t items texts (Hi & Ha & Hb) _ IH];
      [reflexivity|].
    cbn [mapResult map]. unfold sentenceLine at 1.
    rewrite !(member_of _ _ _ Hi). cbn [bind]. rewrite Ha. cbn [bind].
    rewrite Hb. cbn [bind]. now rewrite IH. }
  unfold copyAnalysis. rewrite A. cbn [truthy negb].
  rewrite copyText_object, Hw, Hm, He, Hn, Hr, Hs.
  cbn [bind joined mapped]. rewrite joinWith_strings, L. cbn [bind].
  unfold text, newline. destruct accepts; repeat f_equal; reassoc.
Qed.

Lemma copy_layout_witness :
  copyAnalysis integerToString cannotConvert plainMessage true
    (setApp (setAnalysis (Some casaRecord) initialState) initialUi)
  = (setCopied true (setApp (setAnalysis (Some casaRecord) initialState) initialUi),
     Wrote ([0xD83D; 0xDCD8]%N ++ lit " casa - house" ++ [10; 10]%N
            ++ [0xD83E; 0xDDEC]%N ++ lit " Etymology: From Latin casa" ++ [10; 10]%N
            ++ [0xD83C; 0xDF3F]%N ++ lit " Related English Words: casino, chalet"
            ++ [10; 10]%N
            ++ [0xD83E; 0xDDE0]%N ++ lit " Mnemonic: A casa is a castle" ++ [10; 10]%N
            ++ [0x270D; 0xFE0F]%N ++ lit " Sample Sentences:" ++ [10]%N
            ++ [0x2022]%N ++ lit " Mi casa - My house" ++ [10]%N
            ++ [0x2022]%N ++ lit " La casa - undefined")).
Proof.
  refine (copy_layout integerToString cannotConvert plainMessage true
            (setApp (setAnalysis (Some casaRecord) initialState) initialUi)
            _ (lit "casa") (lit "house") (lit "From Latin casa")
            (lit "A casa is a castle") [lit "casino"; lit "chalet"] _
            [(lit "Mi casa", lit "My house"); (lit "La casa", lit "undefined")]
            eq_refl eq_refl eq_refl eq_refl eq_refl eq_refl eq_refl _).
  repeat constructor; discriminate.
Defined.

Lemma joined_not_sequence (numberToString : Z -> Z -> jsstring)
  (primitiveError : jsError) (engineMessage : fault -> jsstring)
  (field : option value) (sep : jsstring) :
  (forall items, field <> Some (VArray items)) ->
  exists e, joined numberToString primitiveError engineMessage field sep = Throw e.
Proof.
  intros H. destruct field as [[]|]; cbn [joined]; unfold raise; eauto.
  now destruct (H items).
Qed.

Lemma mapped_not_sequence (numberToString : Z -> Z -> jsstring)
  (primitiveError : jsError) (engineMessage : fault -> jsstring)
  (field : option value) :
  (forall items, field = Some (VArray items) -> In VNull items) ->
  exists e, mapped numberToString primitiveError engineMessage field = Throw e.
Proof.
  intros H. destruct field as [[]|]; cbn [mapped]; unfold raise; eauto.
  apply (mapResult_throw _ _ VNull
           {| errName := lit "TypeError";
              errMessage := engineMessage (NoBase (lit "spanish")) |});
    [now apply H|reflexivity].
Qed.

(** X19. The copy button on a record whose [relatedEnglishWords] or
    [sampleSentences] is no sequence, or whose sample sentences hold a
    [null]: the text is built before the [try] (lines 160-169), so the
    exception leaves [copyAnalysis] uncaught, nothing is written to the
    clipboard and no state changes. The normalizer lets such records
    through, as it only replaces falsy fields. *)
Theorem copy_fails_on_non_sequence
  (numberToString : Z -> Z -> jsstring) (primitiveError : jsError)
  (engineMessage : fault -> jsstring) (accepts : bool) (u : ui)
  (props : list (jsstring * value)) :
  analysis (appState u) = Some (VObject props) ->
  (forall items, lookup (lit "relatedEnglishWords") props <> Some (VArray items))
  \/ (forall items, lookup (lit "sampleSentences") props = Some (VArray items) ->
                    In VNull items) ->
  exists e,
    copyAnalysis numberToString primitiveError engineMessage accepts u
    = (u, Failed e).
Proof.
  intros A H.
  assert (T : exists e, copyText numberToString primitiveError engineMessage
                          (VObject props) = Throw e).
  { rewrite copyText_object.
    destruct (optToStr _ _ (lookup (lit "word") props)); cbn [bind]; [|eauto].
    destruct (optToStr _ _ (lookup (lit "englishMeaning") props)); cbn [bind];
      [|eauto].
    destruct (optToStr _ _ (lookup (lit "etymology") props)); cbn [bind]; [|eauto].
    destruct H as [H|H].
    - destruct (joined_not_sequence numberToString primitiveError engineMessage
                  _ (lit ", ") H) as [e0 ->]. cbn [bind]. eauto.
    - destruct (joined _ _ _ _ _); cbn [bind]; [|eauto].
      destruct (optToStr _ _ (lookup (lit "mnemonic") props)); cbn [bind]; [|eauto].
      destruct (mapped_not_sequence numberToString primitiveError engineMessage
                  _ H) as [e0 ->]. cbn [bind]. eauto. }
  destruct T as [e T]. exists e. unfold copyAnalysis.
  now rewrite A, T.
Qed.

(** The record of the payload [{"relatedEnglishWords":"library, librarian"}]
    cannot be copied. *)
Lemma copy_fails_on_non_sequence_witness :
  exists props e,
    normalize plainMessage stringFieldPayload (lit "biblioteca")
    = Normal (VObject props)
    /\ copyAnalysis integerToString cannotConvert plainMessage true
         (setApp (setAnalysis (Some (VObject props)) initialState) initialUi)
       = (setApp (setAnalysis (Some (VObject props)) initialState) initialUi,
          Failed e).
Proof.
  exists [(lit "relatedEnglishWords", VString (lit "library, librarian"));
          (lit "sampleSentences", VArray []);
          (lit "confidence", VString (lit "medium"));
          (lit "languageFamily", VString (lit "Romance"));
          (lit "pronunciation", VString (lit "biblioteca"))].
  assert (F : forall items,
             lookup (lit "relatedEnglishWords")
               [(lit "relatedEnglishWords", VString (lit "library, librarian"));
                (lit "sampleSentences", VArray []);
                (lit "confidence", VString (lit "medium"));
                (lit "languageFamily", VString (lit "Romance"));
                (lit "pronunciation", VString (lit "biblioteca"))]
             <> Some (VArray items)).
  { intros items. vm_compute. discriminate. }
  destruct (copy_fails_on_non_sequence integerToString cannotConvert plainMessage
              true
              (setApp (setAnalysis (Some (VObject
                 [(lit "relatedEnglishWords", VString (lit "library, librarian"));
                  (lit "sampleSentences", VArray []);
                  (lit "confidence", VString (lit "medium"));
                  (lit "languageFamily", VString (lit "Romance"));
                  (lit "pronunciation", VString (lit "biblioteca"))]))
                 initialState) initialUi)
              _ eq_refl (or_introl F))
    as [e E].
  exists e. split; [vm_compute; reflexivity|exact E].
Defined.

(** *** Completions and responses the flow cannot use *)

(** A text [JSON.parse] accepts is JSON's white space around the text of
    one value, which starts and ends as a value does. *)
Lemma parseJSON_value (text : jsstring) (v : value) :
  parseJSON text = Some v ->
  exists lead core trail,
    text = lead ++ core ++ trail
    /\ blank lead = true /\ blank trail = true /\ jsonCore core.
Proof.
  unfold parseJSON. intros H.
  destruct (skipWS_split text) as (lead & E & Hl).
  destruct (parseValue (2 * length text + 2) (skipWS text)) as [[v' r]|] eqn:Ev;
    [|discriminate].
  destruct (isEmpty (skipWS r)) eqn:Er; [|discriminate].
  apply (proj1 (parse_inv _)) in Ev as (core & Ec & Hc).
  exists lead, core, r. repeat split.
  - now rewrite E at 1; rewrite Ec.
  - exact Hl.
  - apply skipWS_nil. now destruct (skipWS r).
  - exact Hc.
Qed.

Lemma parseJSON_first (c : char) (Y : jsstring) (v : value) :
  parseJSON (c :: Y) = Some v -> isWhiteSpace c = true \/ isValueStart c = true.
Proof.
  intros H. apply parseJSON_value in H
    as (lead & core & trail & E & Hl & _ & (c0 & tl0 & _ & _ & E0 & _ & H0 & _)).
  destruct lead as [|x lead].
  - right. rewrite E0 in E. cbn [app] in E. now injection E as ->.
  - left. cbn [app] in E. injection E as -> _.
    simpl in Hl. now apply andb_true_iff in Hl as [Hx _].
Qed.

Lemma parseJSON_last (Y : jsstring) (c : char) (v : value) :
  parseJSON (Y ++ [c]) = Some v -> isWhiteSpace c = true \/ isValueEnd c = true.
Proof.
  intros H. apply parseJSON_value in H
    as (lead & core & trail & E & _ & Ht & (_ & _ & bz & cz & _ & Ez & _ & Hz)).
  induction trail as [|x trail _] using rev_ind.
  - right. rewrite app_nil_r, Ez, app_assoc in E.
    now apply app_inj_tail in E as [_ ->].
  - left. rewrite !app_assoc in E. apply app_inj_tail in E as [_ ->].
    rewrite blank_app in Ht. apply andb_true_iff in Ht as [_ Ht].
    simpl in Ht. now rewrite andb_true_r in Ht.
Qed.

(** Trimming keeps a last code unit that is no white space. *)
Lemma trim_last (X : jsstring) (c : char) :
  isWhiteSpace c = false -> exists Y, trim (X ++ [c]) = Y ++ [c].
Proof.
  intros Hc. unfold trim, trimEnd.
  destruct (trimStart_keeps_last c X Hc) as [Z ->].
  rewrite rev_app_distr. cbn [rev app]. rewrite (trimStart_solid _ _ Hc).
  exists Z. cbn [rev]. now rewrite rev_involutive.
Qed.

(** The failure the flow reports for a completion that does not parse. *)
Lemma unparsed_reported (engineMessage : fault -> jsstring)
  (aiResponse : jsstring) (st : state) :
  blank (word st) = false ->
  parseJSON (cleanedResponse aiResponse) = None ->
  includes (engineMessage (NotJSON (cleanedResponse aiResponse)))
    (lit "OpenAI API error") = false ->
  error (fst (analyzeWord engineMessage (completed aiResponse) st))
  = parseErrorMessage
  /\ analysis (fst (analyzeWord engineMessage (completed aiResponse) st)) = None.
Proof.
  intros B P M. unfold completed.
  rewrite (analyzeWord_throw engineMessage _ st _ B
             (analysisOf_unparsed engineMessage _ (completedResponse aiResponse)
                _ eq_refl (completionOf_completed engineMessage _) P)).
  cbn [setLoading setError setAnalysis error analysis].
  split; [|reflexivity].
  unfold report. cbn [errMessage errName faultName]. now rewrite M.
Qed.

(** X20. The flow takes no payload out of prose: a completion that, white
    space apart, starts with anything but a backtick or the first code
    unit of a JSON value, or ends with anything that neither ends a JSON
    value nor can belong to a fence, does not parse after the clean-up,
    whatever stands in between, a fenced payload included; the flow
    reports the parse failure. *)
Theorem prose_around_payload_rejected (aiResponse : jsstring) :
  (exists lead c rest,
     aiResponse = lead ++ c :: rest /\ blank lead = true
     /\ isWhiteSpace c = false /\ (backtick =? c)%N = false
     /\ isValueStart c = false)
  \/ (exists body cz trail,
        aiResponse = body ++ cz :: trail /\ blank trail = true
        /\ isBarrier cz = true /\ isValueEnd cz = false) ->
  parseJSON (cleanedResponse aiResponse) = None
  /\ forall engineMessage st,
       blank (word st) = false ->
       includes (engineMessage (NotJSON (cleanedResponse aiResponse)))
         (lit "OpenAI API error") = false ->
       error (fst (analyzeWord engineMessage (completed aiResponse) st))
       = parseErrorMessage
       /\ analysis (fst (analyzeWord engineMessage (completed aiResponse) st))
          = None.
Proof.
  intros H.
  assert (P : parseJSON (cleanedResponse aiResponse) = None).
  { destruct H as [(lead & c & rest & -> & Hl & Hc & Hb & Hv)
                  |(body & cz & trail & -> & Ht & Hz & Hv)];
      unfold cleanedResponse.
    - rewrite (stripFences_blank_then lead c rest Hl Hc Hb).
      unfold trim. rewrite (trimStart_blank _ _ Hl).
      change (trimEnd (trimStart (c :: stripFences 0 rest)))
        with (trim (c :: stripFences 0 rest)).
      destruct (trim_head c (stripFences 0 rest) Hc) as [Y ->].
      destruct (parseJSON (c :: Y)) as [v|] eqn:E; [|reflexivity].
      apply parseJSON_first in E as [E|E]; congruence.
    - pose proof (barrier_solid cz Hz) as Hc.
      rewrite (stripFences_barrier cz trail Hz body 0) by lia.
      destruct (stripFences_ends cz [] Hz body 0) as [X ->]; [lia|].
      rewrite (stripFences_blank _ Ht).
      assert (T : trim ((X ++ [cz]) ++ trail) = trim (X ++ [cz])).
      { unfold trim, trimEnd.
        destruct (trimStart_keeps_last cz X Hc) as [Z EZ].
        rewrite <- app_assoc. cbn [app].
        assert (S : forall l, trimStart (l ++ cz :: trail)
                              = trimStart (l ++ [cz]) ++ trail).
        { induction l as [|x l IH]; cbn [app trimStart].
          - now rewrite Hc.
          - destruct (isWhiteSpace x); [exact IH|].
            cbn [app]. now rewrite <- app_assoc. }
        rewrite S, EZ, !rev_app_distr. cbn [rev app].
        rewrite trimStart_blank by now rewrite blank_rev.
        reflexivity. }
      rewrite T. destruct (trim_last X cz Hc) as [Y ->].
      destruct (parseJSON (Y ++ [cz])) as [v|] eqn:E; [|reflexivity].
      apply parseJSON_last in E as [E|E]; congruence. }
  split; [exact P|]. intros engineMessage st B M.
  now apply unparsed_reported.
Qed.

Lemma prose_around_payload_rejected_witness :
  parseJSON (cleanedResponse (lit "Here it is: " ++ fence ++ lit "json{}" ++ fence))
  = None
  /\ parseJSON (cleanedResponse (lit "{} Hope this helps!")) = None.
Proof.
  split.
  - refine (proj1 (prose_around_payload_rejected _ (or_introl _))).
    exists [], (ch "H"), (lit "ere it is: " ++ fence ++ lit "json{}" ++ fence).
    repeat split.
  - refine (proj1 (prose_around_payload_rejected _ (or_intror _))).
    exists (lit "{} Hope this helps"), (ch "!"), []. repeat split.
Defined.

Lemma member_throw (engineMessage : fault -> jsstring) (base : option value)
  (key : jsstring) (e : jsError) :
  member engineMessage base key = Throw e -> errName e = lit "TypeError".
Proof.
  destruct base as [[]|]; cbn [member]; unfold raise; intros H;
    try discriminate; now injection H as <-.
Qed.

Lemma index0_throw (engineMessage : fault -> jsstring) (base : option value)
  (e : jsError) :
  index0 engineMessage base = Throw e -> errName e = lit "TypeError".
Proof.
  destruct base as [[]|]; cbn [index0]; unfold raise; intros H;
    try discriminate; now injection H as <-.
Qed.

Lemma completionText_throw (engineMessage : fault -> jsstring)
  (content : option value) (e : jsError) :
  completionText engineMessage content = Throw e -> errName e = lit "TypeError".
Proof.
  destruct content as [[]|]; cbn [completionText]; unfold raise; intros H;
    try discriminate; now injection H as <-.
Qed.

(** X21. A successful response the flow cannot read a completion from
    (lines 109-113): when the body is no JSON, the flow reports the
    failure to parse the analysis; when the body is JSON without
    [choices[0].message.content], or with a content that is no string,
    the exception is a TypeError and the flow reports the unknown
    failure. Both provided the message of the exception does not contain
    "OpenAI API error". No analysis is stored. *)
Theorem unusable_response_reported
  (engineMessage : fault -> jsstring) (r : response) (text : jsstring)
  (st : state) :
  blank (word st) = false -> ok r = true -> bodyText r = Normal text ->
  (parseJSON text = None ->
   includes (engineMessage (NotJSON text)) (lit "OpenAI API error") = false ->
   error (fst (analyzeWord engineMessage (Resolved r) st)) = parseErrorMessage
   /\ analysis (fst (analyzeWord engineMessage (Resolved r) st)) = None)
  /\ (forall data e,
        parseJSON text = Some data ->
        completionOf engineMessage r = Throw e ->
        includes (errMessage e) (lit "OpenAI API error") = false ->
        errName e = lit "TypeError"
        /\ error (fst (analyzeWord engineMessage (Resolved r) st))
           = unknownErrorMessage
        /\ analysis (fst (analyzeWord engineMessage (Resolved r) st)) = None).
Proof.
  intros B Hok Hb. split.
  - intros P M.
    assert (E : analysisOf engineMessage (trim (word st)) (Resolved r)
                = raise engineMessage (NotJSON text)).
    { cbn [analysisOf]. rewrite Hok. cbn [negb].
      unfold completionOf, json, JSON_parse. now rewrite Hb; cbn [bind]; rewrite P. }
    rewrite (analyzeWord_throw engineMessage _ st _ B E).
    cbn [setLoading setError setAnalysis error analysis].
    split; [|reflexivity].
    unfold report. cbn [errMessage errName faultName]. now rewrite M.
  - intros data e P C M.
    assert (N : errName e = lit "TypeError").
    { revert C. unfold completionOf, json, JSON_parse. rewrite Hb; cbn [bind].
      rewrite P; cbn [bind].
      destruct (member engineMessage (Some data) (lit "choices")) as [choices|e1]
        eqn:E1; cbn [bind];
        [|intros H; injection H as <-; now apply member_throw in E1].
      destruct (index0 engineMessage choices) as [choice|e2] eqn:E2; cbn [bind];
        [|intros H; injection H as <-; now apply index0_throw in E2].
      destruct (member engineMessage choice (lit "message")) as [message|e3]
        eqn:E3; cbn [bind];
        [|intros H; injection H as <-; now apply member_throw in E3].
      destruct (member engineMessage message (lit "content")) as [content|e4]
        eqn:E4; cbn [bind];
        [|intros H; injection H as <-; now apply member_throw in E4].
      apply completionText_throw. }
    assert (E : analysisOf engineMessage (trim (word st)) (Resolved r) = Throw e).
    { cbn [analysisOf]. rewrite Hok, C. reflexivity. }
    rewrite (analyzeWord_throw engineMessage _ st _ B E).
    cbn [setLoading setError setAnalysis error analysis].
    split; [exact N|]. split; [|reflexivity].
    unfold report. rewrite M, N. reflexivity.
Qed.

(** A page of HTML for a body; a body with no choice; a choice whose
    content is [null]. *)
Lemma unusable_response_reported_witness :
  error (fst (analyzeWord plainMessage
                (Resolved {| status := 200; statusText := lit "OK";
                             bodyText := Normal (lit "<html></html>") |})
                casaTyped))
  = parseErrorMessage
  /\ error (fst (analyzeWord plainMessage
                   (Resolved {| status := 200; statusText := lit "OK";
                                bodyText := Normal (lit "{" ++ quoted "choices"
                                                    ++ lit ":[]}") |})
                   casaTyped))
     = unknownErrorMessage.
Proof.
  split.
  - refine (proj1 (proj1 (unusable_response_reported plainMessage
              {| status := 200; statusText := lit "OK";
                 bodyText := Normal (lit "<html></html>") |}
              (lit "<html></html>") casaTyped eq_refl eq_refl eq_refl)
              eq_refl eq_refl)).
  - refine (proj1 (proj2 (proj2 (unusable_response_reported plainMessage
              {| status := 200; statusText := lit "OK";
                 bodyText := Normal (lit "{" ++ quoted "choices" ++ lit ":[]}") |}
              (lit "{" ++ quoted "choices" ++ lit ":[]}") casaTyped
              eq_refl eq_refl eq_refl) _ _ eq_refl eq_refl eq_refl))).
Defined.
